(** * Conference seating simulation: a shallow embedding and its properties

    The embedded program is the seating engine of the repository (the
    version 2.5.5 script): [ConfigManager], [Utils], [GridBuilder],
    [PathfindingEngine], [SeatSelectionEngine], [Agent] and
    [SimulationEngine].

    Conventions of the embedding.
    - Grid coordinates, counters and integer configuration values are [Z].
    - Weights and probabilities are JavaScript doubles in the source; they
      are embedded as exact rationals [Q].
    - [Math.random()] is an oracle: a stream of rationals read through a
      cursor that every call advances by one.  Debug logging that is guarded
      by a random test consumes a draw and is embedded as such.
    - A JavaScript array that is written through an index ([grid[r][c] = v])
      is a finite map from indices to values together with its [length].
    - [try]/[catch] is embedded with [option]: [None] is a thrown fault. *)

From Stdlib Require Import ZArith QArith Qround Lia Lqa List Bool.
From stdpp Require Import base tactics option list numbers gmap strings sorting.

Open Scope Z_scope.

(** ** The random oracle *)

Record Oracle := {
  (** the n-th result of [Math.random()] *)
  draw : nat -> Q;
  (** [Array.prototype.sort] with the comparator [() => Math.random() - 0.5]:
      the order it leaves and the number of draws it used, when called with
      the cursor at [n] *)
  sort_random : nat -> list Z -> list Z * nat
}.

(** A computation that draws: it reads the oracle from a cursor and
    returns its result with the cursor after its last draw. *)
Definition Rand (A : Type) : Type := Oracle -> nat -> A * nat.

Definition ret {A} (a : A) : Rand A := fun _ n => (a, n).

Definition bind {A B} (m : Rand A) (k : A -> Rand B) : Rand B :=
  fun o n => let (a, n') := m o n in k a o n'.

Declare Scope rand_scope.
Delimit Scope rand_scope with rand.
Notation "x <~ m ;; k" := (bind m (fun x => k))
  (at level 100, m at next level, right associativity) : rand_scope.
Open Scope rand_scope.

(** [Math.random()] *)
Definition random : Rand Q := fun o n => (draw o n, S n).

(** [Math.floor(Math.random() * n)] *)
Definition random_index (n : Z) : Rand Z :=
  u <~ random ;; ret (Qfloor (u * inject_Z n)).

(** [Math.random() < p], used by the source to sample its debug logging *)
Definition random_below (p : Q) : Rand bool :=
  u <~ random ;; ret (negb (Qle_bool p u)).

(** [cond && Math.random() < p]: the draw happens only when [cond] holds *)
Definition and_random_below (cond : bool) (p : Q) : Rand bool :=
  if cond then random_below p else ret false.

(** Every draw of the oracle lies in [0, 1), the contract of [Math.random]. *)
Definition valid_oracle (o : Oracle) : Prop :=
  forall n, (0 <= draw o n)%Q /\ (draw o n < 1)%Q.

(** An oracle whose every draw is [u] and whose sort keeps the order. *)
Definition constant_oracle (u : Q) : Oracle :=
  {| draw := fun _ => u; sort_random := fun _ l => (l, 0%nat) |}.

(** ** Utils *)

Module Utils.

(** The loop of [weightedChoice]:
    [for (i = 0; i < items.length; i++) { rnd -= weights[i]; if (rnd <= 0) return items[i]; }].
    [None] means that the loop ended without returning.  When [weights]
    is shorter than [items], [weights[i]] is [undefined], [rnd] becomes
    [NaN] and no later test succeeds. *)
Fixpoint weightedChoice_loop {A} (rnd : Q) (items : list A) (weights : list Q)
  : option A :=
  match items, weights with
  | [], _ => None
  | _ :: _, [] => None
  | x :: items', w :: weights' =>
      let rnd' := (rnd - w)%Q in
      if Qle_bool rnd' 0 then Some x
      else weightedChoice_loop rnd' items' weights'
  end.

(** [weights.reduce((a, b) => a + b, 0)] *)
Definition total_weight (weights : list Q) : Q := fold_left Qplus weights 0%Q.

(** [weightedChoice(items, weights)]; [None] is [undefined]. *)
Definition weightedChoice {A} (items : list A) (weights : list Q)
  : Rand (option A) :=
  let total := total_weight weights in
  if Qeq_bool total 0 then ret (head items)
  else
    u <~ random ;;
    match weightedChoice_loop (u * total)%Q items weights with
    | Some x => ret (Some x)
    | None => ret (last items)
    end.

(** [isValidPosition(row, col, maxRow, maxCol)] *)
Definition isValidPosition (row col maxRow maxCol : Z) : bool :=
  (0 <=? row) && (row <? maxRow) && (0 <=? col) && (col <? maxCol).

(** [clamp(value, min, max)]: [Math.max(min, Math.min(max, value))], on
    numbers other than [NaN]. *)
Definition clamp (value min max : Q) : Q :=
  let inner := if Qle_bool max value then max else value in
  if Qle_bool min inner then inner else min.

End Utils.

(** ** ConfigManager *)

(** The values the user interface stores: [parseInt] of a slider (an
    integer or [NaN]) and the state of a checkbox. *)
Inductive JsValue := VNum (z : Z) | VBool (b : bool) | VNaN.

(** [ToNumber], as applied by [>=], [<=] and the arithmetic operators;
    [None] is [NaN]. *)
Definition to_number (v : JsValue) : option Z :=
  match v with
  | VNum z => Some z
  | VBool b => Some (if b then 1 else 0)
  | VNaN => None
  end.

Module ConfigManager.

(** A change listener: its identity in the [Set] of listeners and whether
    the callback throws on a notification. *)
Record Listener := {
  listener_id : nat;
  listener_throws : string -> JsValue -> bool
}.

(** What a call makes observable outside the configuration object. *)
Inductive Event :=
| Notified (id : nat) (key : string) (value : JsValue)
| ListenerErrorLogged (id : nat).

Record t := {
  config : gmap string JsValue;
  listeners : list Listener
}.

(** [v => v >= lo && v <= hi] *)
Definition between (lo hi : Z) (v : JsValue) : bool :=
  match to_number v with
  | Some z => (lo <=? z) && (z <=? hi)
  | None => false
  end.

(** The table [validations] of [validate], as bounds. *)
Definition validations : list (string * (Z * Z)) :=
  [ ("NUM_AGENTS", (50, 500));
    ("SPEED", (10, 500));
    ("MAX_TIME", (200, 1000));
    ("NUM_BLOCKS", (2, 6));
    ("SOCIAL_DISTANCE", (0, 5));
    ("BACK_PREF", (0, 5));
    ("AISLE_PREF", (0, 5)) ].

(** [validations[key]] *)
Fixpoint validator (key : string) (table : list (string * (Z * Z)))
  : option (Z * Z) :=
  match table with
  | [] => None
  | (k, range) :: table' =>
      if String.eqb key k then Some range else validator key table'
  end.

(** [validate(key, value)]: [!validator || validator(value)] *)
Definition validate (key : string) (value : JsValue) : bool :=
  match validator key validations with
  | None => true
  | Some (lo, hi) => between lo hi value
  end.

(** One iteration of the search loop of [calculateCorridorWidth]; the
    state is [(bestCorridorWidth, bestSeatsPerBlock)]. *)
Definition corridor_search_step (totalCols numBlocks : Z)
    (best : Z * Z) (corridorWidth : Z) : Z * Z :=
  let numCorridors := numBlocks + 1 in
  let totalCorridorSpace := numCorridors * corridorWidth in
  let remainingForSeats := totalCols - totalCorridorSpace in
  let seatsPerBlock := remainingForSeats / numBlocks in
  if (snd best <? seatsPerBlock) && (0 <=? remainingForSeats)
  then (corridorWidth, seatsPerBlock)
  else best.

(** [for (let corridorWidth = 2; corridorWidth <= 6; corridorWidth++)]
    from [bestCorridorWidth = 2], [bestSeatsPerBlock = 0]. *)
Definition corridor_search (totalCols numBlocks : Z) : Z * Z :=
  fold_left (corridor_search_step totalCols numBlocks) (seqZ 2 5) (2, 0).

(** The value [calculateCorridorWidth] stores for a column and a block
    count.  [NaN] operands make every comparison of the loop false. *)
Definition bestCorridorWidth (totalCols numBlocks : option Z) : Z :=
  match totalCols, numBlocks with
  | Some cols, Some blocks => fst (corridor_search cols blocks)
  | _, _ => 2
  end.

(** [this.config[key]] read as a number *)
Definition number_of (cfg : gmap string JsValue) (key : string) : option Z :=
  cfg !! key ≫= to_number.

(** [calculateCorridorWidth()] *)
Definition calculateCorridorWidth (cm : t) : t :=
  let w := bestCorridorWidth (number_of (config cm) "COLS")
                             (number_of (config cm) "NUM_BLOCKS") in
  {| config := <["CORRIDOR_WIDTH" := VNum w]> (config cm);
     listeners := listeners cm |}.

(** [notifyListeners(key, value)]: every callback runs, in insertion
    order, inside its own [try]/[catch]. *)
Definition notifyListeners (key : string) (value : JsValue) (cm : t)
  : list Event :=
  flat_map (fun l =>
    Notified (listener_id l) key value ::
    (if listener_throws l key value
     then [ListenerErrorLogged (listener_id l)] else []))
    (listeners cm).

(** [set(key, value)] *)
Definition set (key : string) (value : JsValue) (cm : t) : t * list Event :=
  if validate key value then
    let cm1 := {| config := <[key := value]> (config cm);
                  listeners := listeners cm |} in
    let cm2 := if String.eqb key "NUM_BLOCKS"
               then calculateCorridorWidth cm1 else cm1 in
    (cm2, notifyListeners key value cm2)
  else (cm, []).

(** [get(key)] *)
Definition get (key : string) (cm : t) : option JsValue := config cm !! key.

(** [addListener(callback)]: a [Set] keeps one entry per callback. *)
Definition addListener (l : Listener) (cm : t) : t :=
  if existsb (fun l' => Nat.eqb (listener_id l') (listener_id l)) (listeners cm)
  then cm
  else {| config := config cm; listeners := listeners cm ++ [l] |}.

(** [removeListener(callback)] *)
Definition removeListener (l : Listener) (cm : t) : t :=
  {| config := config cm;
     listeners := List.filter
       (fun l' => negb (Nat.eqb (listener_id l') (listener_id l)))
       (listeners cm) |}.

(** [new ConfigManager()] *)
Definition constructor : t :=
  calculateCorridorWidth
    {| config := list_to_map
         [ ("ROWS", VNum 20); ("COLS", VNum 68); ("NUM_BLOCKS", VNum 4);
           ("FEATURE_ASSIGNED_SEATS", VBool true);
           ("FEATURE_COLOR_BY_BLOCK", VBool true);
           ("NUM_AGENTS", VNum 384); ("SPEED", VNum 20);
           ("MAX_TIME", VNum 500); ("SOCIAL_DISTANCE", VNum 3);
           ("BACK_PREF", VNum 3); ("AISLE_PREF", VNum 2) ];
       listeners := [] |}.

End ConfigManager.

(** ** Constants and the grid *)

(** [CELL_TYPES] *)
Inductive CellType := EMPTY | SEAT | CORRIDOR | GATE | SEATED_AGENT | STANDING.

Global Instance CellType_eq_dec : EqDecision CellType.
Proof. solve_decision. Defined.

Definition Pos : Type := Z * Z.

(** [SIM_CONSTANTS] *)
Module SIM_CONSTANTS.
Definition SEAT_ROWS_START : Z := 6.
Definition SEAT_ROWS_END : Z := 14.
Definition BACK_ROWS_START : Z := 14.
Definition GATE_POSITIONS : list Z := [10; 34; 58].
Definition PATH_ROW_RANGE_START : Z := 16.
Definition DEFAULT_ROW_THRESHOLD : Z := 5.
End SIM_CONSTANTS.

(** One row of the grid, a JavaScript array: the values stored under its
    integer property names and its [length]. *)
Record Row := { cells : gmap Z CellType; row_length : Z }.

(** The grid; [grid[r]] is [undefined] outside [0 .. length-1]. *)
Definition Grid : Type := list Row.

(** [Array(n).fill(EMPTY)] *)
Definition new_row (n : Z) : Row :=
  {| cells := list_to_map ((fun c => (c, EMPTY)) <$> seqZ 0 n); row_length := n |}.

(** [row[c]] *)
Definition row_get (row : Row) (c : Z) : option CellType := cells row !! c.

(** [row[c] = v]: a write past the end grows the array, a write under a
    negative name leaves [length] alone. *)
Definition row_set (row : Row) (c : Z) (v : CellType) : Row :=
  {| cells := <[c := v]> (cells row);
     row_length := if 0 <=? c then Z.max (row_length row) (c + 1)
                   else row_length row |}.

(** [arr[i]] for an array that is only read through its indices *)
Definition at_index {A} (arr : list A) (i : Z) : option A :=
  if 0 <=? i then arr !! Z.to_nat i else None.

(** [grid[r]] *)
Definition grid_row (grid : Grid) (r : Z) : option Row := at_index grid r.

(** [grid[r][c]]: the outer [None] is the [TypeError] of indexing
    [undefined], the inner one the value [undefined]. *)
Definition grid_get (grid : Grid) (r c : Z) : option (option CellType) :=
  row ← grid_row grid r; Some (row_get row c).

(** [grid[r][c] = v]; [None] is the [TypeError] of a missing row. *)
Definition grid_set (grid : Grid) (r c : Z) (v : CellType) : option Grid :=
  row ← grid_row grid r; Some (<[Z.to_nat r := row_set row c v]> grid).

(** [grid[r][c] === t] *)
Definition cell_is (t : CellType) (cell : option CellType) : bool :=
  bool_decide (cell = Some t).

(** The configuration object the engine reads. *)
Record Config := {
  ROWS : Z;
  COLS : Z;
  NUM_BLOCKS : Z;
  CORRIDOR_WIDTH : Z;
  FEATURE_ASSIGNED_SEATS : bool;
  NUM_AGENTS : Z;
  MAX_TIME : Z;
  SOCIAL_DISTANCE : Z;
  BACK_PREF : Q;
  AISLE_PREF : Z
}.

(** The configuration [new ConfigManager()] holds, as the engine reads it;
    [CORRIDOR_WIDTH] is the value [calculateCorridorWidth] stores for 68
    columns and 4 blocks. *)
Definition default_config : Config :=
  {| ROWS := 20; COLS := 68; NUM_BLOCKS := 4; CORRIDOR_WIDTH := 2;
     FEATURE_ASSIGNED_SEATS := true; NUM_AGENTS := 384; MAX_TIME := 500;
     SOCIAL_DISTANCE := 3; BACK_PREF := 3; AISLE_PREF := 2 |}.

(** The default configuration after the checkbox "assigned seats" has been
    cleared: [set('FEATURE_ASSIGNED_SEATS', false)]. *)
Definition unassigned_config : Config :=
  {| ROWS := 20; COLS := 68; NUM_BLOCKS := 4; CORRIDOR_WIDTH := 2;
     FEATURE_ASSIGNED_SEATS := false; NUM_AGENTS := 384; MAX_TIME := 500;
     SOCIAL_DISTANCE := 3; BACK_PREF := 3; AISLE_PREF := 2 |}.

(** ** GridBuilder *)

Module GridBuilder.

(** [generateSeatBlocks(cols, numBlocks, corridorWidth)]: the object
    [{0: [start, end], 1: ...}] as the list of its values in key order. *)
Definition generateSeatBlocks (cols numBlocks corridorWidth : Z)
  : list (Z * Z) :=
  let totalSeat := cols - (numBlocks + 1) * corridorWidth in
  let blockWidth := totalSeat / numBlocks in
  (fun i =>
     let start := corridorWidth + i * (blockWidth + corridorWidth) in
     let end_ := start + blockWidth - 1 in
     (start, end_)) <$> seqZ 0 numBlocks.

(** [generateCorridorSegments(cols, seatBlocks, corridorWidth)] *)
Definition generateCorridorSegments (cols : Z) (seatBlocks : list (Z * Z))
    (corridorWidth : Z) : list (list Z) :=
  let leftMargin := seqZ 0 corridorWidth in
  leftMargin ::
  flat_map (fun blk : Z * Z =>
    let end_ := snd blk in
    let seg := (fun j => end_ + 1 + j) <$> seqZ 0 corridorWidth in
    let validSeg := List.filter (fun col => col <? cols) seg in
    match validSeg with [] => [] | _ => [validSeg] end) seatBlocks.

(** [for (let c = c0; c <= c1; c++) grid[r][c] = SEAT] *)
Definition fill_seats_in_row (r : Z) (grid : Grid) (blk : Z * Z)
  : option Grid :=
  foldl (fun g c => g ≫= fun g => grid_set g r c SEAT) (Some grid)
        (seqZ (fst blk) (snd blk - fst blk + 1)).

(** The seat loop: rows [SEAT_ROWS.START .. SEAT_ROWS.END - 1], every
    block in every row. *)
Definition fill_seats (seatBlocks : list (Z * Z)) (grid : Grid)
  : option Grid :=
  foldl (fun g r =>
           foldl (fun g blk => g ≫= fun g => fill_seats_in_row r g blk)
                 g seatBlocks)
        (Some grid)
        (seqZ SIM_CONSTANTS.SEAT_ROWS_START
              (SIM_CONSTANTS.SEAT_ROWS_END - SIM_CONSTANTS.SEAT_ROWS_START)).

(** [if (grid[r][c] === EMPTY) grid[r][c] = CORRIDOR]; a row of the grid
    under construction always exists here. *)
Definition fill_corridor_cell (row : Row) (c : Z) : Row :=
  if cell_is EMPTY (row_get row c) then row_set row c CORRIDOR else row.

Definition fill_corridors (corridorSegs : list (list Z)) (grid : Grid)
  : Grid :=
  (fun row => foldl (fun row seg => foldl fill_corridor_cell row seg)
                    row corridorSegs) <$> grid.

(** [SIM_CONSTANTS.GATE_POSITIONS.filter(c => c < config.COLS)] *)
Definition gate_columns (config : Config) : list Z :=
  List.filter (fun c => c <? COLS config) SIM_CONSTANTS.GATE_POSITIONS.

Definition place_gates (config : Config) (grid : Grid) : option Grid :=
  foldl (fun g c => g ≫= fun g => grid_set g (ROWS config - 1) c GATE)
        (Some grid) (gate_columns config).

(** [Array(ROWS).fill(null).map(() => Array(COLS).fill(EMPTY))]; a
    negative length is a [RangeError]. *)
Definition empty_grid (config : Config) : option Grid :=
  if ROWS config <? 0 then None
  else if (0 <? ROWS config) && (COLS config <? 0) then None
  else Some (replicate (Z.to_nat (ROWS config)) (new_row (COLS config))).

(** [buildGrid(config)]; [None] is the [null] of the [catch] branch. *)
Definition buildGrid (config : Config) : option Grid :=
  grid ← empty_grid config;
  let seatBlocks := generateSeatBlocks (COLS config) (NUM_BLOCKS config)
                                       (CORRIDOR_WIDTH config) in
  let corridorSegs := generateCorridorSegments (COLS config) seatBlocks
                                               (CORRIDOR_WIDTH config) in
  grid ← fill_seats seatBlocks grid;
  place_gates config (fill_corridors corridorSegs grid).

End GridBuilder.

(** ** PathfindingEngine *)

Module PathfindingEngine.

(** The body [path.push(cell x)] of a counting loop
    [for (x = start; ...; x += step)], run for its [n] iterations. *)
Fixpoint push_cells (n : nat) (x step : Z) (cell : Z -> Pos)
    (path : list Pos) : list Pos :=
  match n with
  | O => path
  | S n' => push_cells n' (x + step) step cell (path ++ [cell x])
  end.

(** [for (x = start; x !== stop; x += step) path.push(cell x)] where
    [step] is [1] or [-1] and points from [start] to [stop]: the loop
    leaves after [|stop - start|] iterations (lemma [loop_guard_exact]). *)
Definition for_until (start stop step : Z) (cell : Z -> Pos)
    (path : list Pos) : list Pos :=
  push_cells (Z.abs_nat (stop - start)) start step cell path.

(** The [try] block of [computeSimplePath]. No statement of it faults on
    integer coordinates, so it always yields [Some]. *)
Definition computeSimplePath_try (spawn : Pos) (corridor : Z) (seat : Pos)
    (row0 : Z) : option (list Pos) :=
  let path : list Pos := [] in
  let '(r, c) := spawn in
  let '(r1, c1) := seat in
  let path :=
    if negb (r =? row0) then
      let step := if row0 <? r then -1 else 1 in
      for_until (r + step) (row0 + step) step (fun rr => (rr, c)) path
    else path in
  let path :=
    if negb (c =? corridor) then
      let step := if c <? corridor then 1 else -1 in
      for_until (c + step) (corridor + step) step (fun cc => (row0, cc)) path
    else path in
  let path :=
    if r1 <? row0 then
      (* for (rr = row0 - 1; rr >= r1; rr--) *)
      push_cells (Z.to_nat (row0 - r1)) (row0 - 1) (-1)
                 (fun rr => (rr, corridor)) path
    else path in
  let path :=
    if negb (corridor =? c1) then
      let step := if corridor <? c1 then 1 else -1 in
      for_until (corridor + step) (c1 + step) step (fun cc => (r1, cc)) path
    else path in
  Some path.

(** [computeSimplePath(spawn, corridor, seat, row0)]: the [catch] branch
    returns the empty path. *)
Definition computeSimplePath (spawn : Pos) (corridor : Z) (seat : Pos)
    (row0 : Z) : list Pos :=
  match computeSimplePath_try spawn corridor seat row0 with
  | Some path => path
  | None => []
  end.

(** [gates.findIndex(gate => gate[1] === gateCol)]; [None] is [-1]. *)
Fixpoint findIndex (gateCol : Z) (gates : list Pos) (i : Z) : option Z :=
  match gates with
  | [] => None
  | gate :: gates' =>
      if snd gate =? gateCol then Some i else findIndex gateCol gates' (i + 1)
  end.

(** [gates.reduce((closest, gate, index) => ..., 0)]: the index of the
    gate whose column is closest to [gateCol], the first one on ties.  The
    state carries [gates[closest][1]] next to [closest]. *)
Definition closest_gate (gateCol : Z) (gates : list Pos) : Z :=
  match gates with
  | [] => 0
  | g0 :: _ =>
      fst (fst (fold_left
        (fun (st : Z * Z * Z) (gate : Pos) =>
           let '(closest, closestCol, index) := st in
           let currentDistance := Z.abs (snd gate - gateCol) in
           let closestDistance := Z.abs (closestCol - gateCol) in
           if currentDistance <? closestDistance
           then (index, snd gate, index + 1)
           else (closest, closestCol, index + 1))
        gates (0, snd g0, 0)))
  end.

(** [pickBlockBasedOnGate(gateCol, numBlocks, gates)]; the engine always
    passes its array of gates. *)
Definition pickBlockBasedOnGate (gateCol numBlocks : Z) (gates : list Pos)
  : Rand (option Z) :=
  let len := Z.of_nat (length gates) in
  if (len =? 0) || (numBlocks <=? 0) then ret (Some 0)
  else
    match findIndex gateCol gates 0 with
    | None =>
        let closestGateIndex := closest_gate gateCol gates in
        let blockSpan := Z.max 1 (numBlocks / len) in
        let baseBlock := Z.min (closestGateIndex * blockSpan) (numBlocks - 1) in
        let possible :=
          [(baseBlock, 6 # 10)] ++
          (if 0 <? baseBlock then [(baseBlock - 1, 2 # 10)] else []) ++
          (if baseBlock <? numBlocks - 1 then [(baseBlock + 1, 2 # 10)] else []) in
        Utils.weightedChoice (fst <$> possible) (snd <$> possible)
    | Some gateIndex =>
        (* blockSpan = numBlocks / gates.length, a fraction;
           baseBlock = Math.floor(gateIndex * blockSpan) *)
        let baseBlock := (gateIndex * numBlocks) / len in
        let possible :=
          (if baseBlock <? numBlocks then [(baseBlock, 6 # 10)] else []) ++
          (if baseBlock + 1 <? numBlocks then [(baseBlock + 1, 3 # 10)] else []) in
        let possible :=
          possible ++
          (if (0 <? baseBlock) && (Z.of_nat (length possible) <? 2)
           then [(baseBlock - 1, 1 # 10)] else []) in
        Utils.weightedChoice (fst <$> possible) (snd <$> possible)
    end.

(** [Math.min(...seg.map(c => Math.abs(seatCol - c)))]; [None] is the
    [Infinity] of an empty segment. *)
Definition min_distance (seatCol : Z) (seg : list Z) : option Z :=
  match seg with
  | [] => None
  | c :: seg' =>
      Some (fold_left (fun m c => Z.min m (Z.abs (seatCol - c))) seg'
                      (Z.abs (seatCol - c)))
  end.

(** [1.0 / (d + 1)] *)
Definition segment_weight (seatCol : Z) (seg : list Z) : Q :=
  match min_distance seatCol seg with
  | Some d => (1 / inject_Z (d + 1))%Q
  | None => 0%Q
  end.

(** [chosenSeg.reduce((best, c) => |seatCol - c| < |seatCol - best| ? c : best)];
    [None] is the [TypeError] of reducing an empty array. *)
Definition closest_column (seatCol : Z) (seg : list Z) : option Z :=
  match seg with
  | [] => None
  | c0 :: seg' =>
      Some (fold_left
              (fun best c =>
                 if Z.abs (seatCol - c) <? Z.abs (seatCol - best) then c else best)
              seg' c0)
  end.

(** [pickPreferredCorridorCell(block, seatCol, blockToCorridorCells)];
    [blockToCorridorCells] is the object keyed by block index as the list
    of its values and [None] as result is [undefined]. *)
Definition pickPreferredCorridorCell (block : option Z) (seatCol : Z)
    (blockToCorridorCells : list (list (list Z))) : Rand (option Z) :=
  match block ≫= at_index blockToCorridorCells with
  | None => ret (Some 4)
  | Some segments =>
      let segWeights := segment_weight seatCol <$> segments in
      chosenSeg <~ Utils.weightedChoice segments segWeights ;;
      match chosenSeg ≫= closest_column seatCol with
      | Some c => ret (Some c)
      | None =>
          (* catch: segments[0] ? segments[0][0] : 4 *)
          match segments with
          | [] => ret (Some 4)
          | seg0 :: _ => ret (head seg0)
          end
      end
  end.

End PathfindingEngine.

(** ** SeatSelectionEngine *)

(** [a < b] on the rationals, as a boolean *)
Definition Qltb (a b : Q) : bool := negb (Qle_bool b a).

(** [Math.max(a, b)] and [Math.min(a, b)] on the rationals *)
Definition Qmax_js (a b : Q) : Q := if Qle_bool a b then b else a.
Definition Qmin_js (a b : Q) : Q := if Qle_bool a b then a else b.

Module SeatSelectionEngine.

(** The values of [c] in [for (let c = c0; c <= c1; c++)] *)
Definition columns (c0 c1 : Z) : list Z := seqZ c0 (c1 - c0 + 1).

(** The values of [r] in
    [for (r = SEAT_ROWS.START; r < SEAT_ROWS.END; r++)] *)
Definition seat_rows : list Z :=
  seqZ SIM_CONSTANTS.SEAT_ROWS_START
       (SIM_CONSTANTS.SEAT_ROWS_END - SIM_CONSTANTS.SEAT_ROWS_START).

(** [rowOccupancy(grid, row, c0, c1)]; [None] is a fault. *)
Definition rowOccupancy (grid : Grid) (row c0 c1 : Z) : option Z :=
  foldl (fun count c =>
           count ← count;
           cell ← grid_get grid row c;
           Some (if cell_is SEATED_AGENT cell || cell_is STANDING cell
                 then count + 1 else count))
        (Some 0) (columns c0 c1).

Definition dirs : list (Z * Z) :=
  [(-1, 0); (1, 0); (0, -1); (0, 1); (-1, -1); (-1, 1); (1, -1); (1, 1)].

(** [countAdjacentSeated(grid, seat)] *)
Definition countAdjacentSeated (grid : Grid) (seat : Pos) : option Z :=
  foldl (fun count (d : Z * Z) =>
           count ← count;
           let rr := fst seat + fst d in
           let cc := snd seat + snd d in
           row0 ← grid_row grid 0;
           if Utils.isValidPosition rr cc (Z.of_nat (length grid))
                                    (row_length row0)
           then cell ← grid_get grid rr cc;
                Some (if cell_is SEATED_AGENT cell then count + 1 else count)
           else Some count)
        (Some 0) dirs.

(** [grid[r][c] === CELL_TYPES.SEAT && !assigned.has(`${r},${c}`)].  The
    string key is an injective encoding of the pair of integers; the set
    of keys is embedded as a set of pairs. *)
Definition seat_is_free (assigned : gset Pos) (r c : Z)
    (cell : option CellType) : bool :=
  cell_is SEAT cell && bool_decide ((r, c) ∉ assigned).

(** The [hasSeats] loop of step 1, with its [break]. *)
Definition hasSeats (grid : Grid) (assigned : gset Pos) (r c0 c1 : Z)
  : option bool :=
  foldl (fun found c =>
           found ← found;
           if found : bool then Some true
           else cell ← grid_get grid r c;
                Some (seat_is_free assigned r c cell))
        (Some false) (columns c0 c1).

(** Step 1: the rows under the occupancy threshold that still have a
    free seat. *)
Definition availableRows (grid : Grid) (assigned : gset Pos)
    (c0 c1 rowThr : Z) : option (list Z) :=
  foldl (fun rows r =>
           rows ← rows;
           occupancy ← rowOccupancy grid r c0 c1;
           if rowThr <=? occupancy then Some rows
           else found ← hasSeats grid assigned r c0 c1;
                Some (if found : bool then rows ++ [r] else rows))
        (Some []) seat_rows.

(** [rows.filter(r => r !== excluded)], kept only when something is left *)
Definition without_row (excluded : option Z) (rows : list Z) : list Z :=
  match List.filter (fun r => negb (bool_decide (Some r = excluded))) rows with
  | [] => rows
  | tmp => tmp
  end.

(** The block [if (config.BACK_PREF > 0) { ... }] that bans and avoids
    front rows. *)
Definition front_aversion (config : Config) (availableRows : list Z)
  : Rand (list Z) :=
  let backPref := BACK_PREF config in
  let startRow := SIM_CONSTANTS.SEAT_ROWS_START in
  let banFrontRows : Z :=
    if Qle_bool 4 backPref then 2 else if Qle_bool 2 backPref then 1 else 0 in
  candidateRows <~
    (if 0 <? banFrontRows then
       match List.filter (fun r => banFrontRows <=? r - startRow) availableRows with
       | [] => ret availableRows
       | filtered => _ <~ random_below (2 # 10) ;; ret filtered
       end
     else ret availableRows) ;;
  match candidateRows with
  | [] => ret candidateRows
  | _ =>
      let sorted := merge_sort Z.le candidateRows in
      let frontMost : option Z := sorted !! 0%nat in
      let secondFront : option Z := sorted !! 1%nat in
      let pAvoidFront := Qmin_js ((15 # 100) + (15 # 100) * backPref) (85 # 100) in
      let pAvoidSecond : Q :=
        if Qle_bool 4 backPref then 35 # 100
        else if Qle_bool 3 backPref then 2 # 10 else 0%Q in
      avoidFront <~ random_below pAvoidFront ;;
      let probFiltered :=
        if avoidFront : bool then without_row frontMost candidateRows
        else candidateRows in
      avoidSecond <~
        and_random_below ((1 <? Z.of_nat (length probFiltered)) &&
                          bool_decide (is_Some secondFront)) pAvoidSecond ;;
      let probFiltered :=
        if avoidSecond : bool then without_row secondFront probFiltered
        else probFiltered in
      if (0 <? Z.of_nat (length probFiltered)) &&
         negb (length probFiltered =? length candidateRows)%nat
      then _ <~ random_below (2 # 10) ;; ret probFiltered
      else ret candidateRows
  end.

(** [1 + config.BACK_PREF * Math.pow(2.0, rowFromFront)] *)
Definition row_weight (config : Config) (r : Z) : Q :=
  let rowFromFront := r - SIM_CONSTANTS.SEAT_ROWS_START in
  (1 + BACK_PREF config * inject_Z (2 ^ rowFromFront))%Q.

(** The choice of [chosenRow]; [None] is [undefined]. *)
Definition choose_row (config : Config) (candidateRows : list Z)
  : Rand (option Z) :=
  if Qltb 0 (BACK_PREF config) then
    chosenRow <~ Utils.weightedChoice candidateRows
                   (row_weight config <$> candidateRows) ;;
    _ <~ and_random_below (Qltb 3 (BACK_PREF config)) (25 # 100) ;;
    ret chosenRow
  else
    i <~ random_index (Z.of_nat (length candidateRows)) ;;
    ret (at_index candidateRows i).

(** The weight of a free seat in step 2, before the floor at [0.01]. *)
Definition seat_weight (config : Config) (c c0 c1 adjacentCount : Z) : Q :=
  let distFromEdge := Z.min (c - c0) (c1 - c) in
  let seatWeight : Q := 1%Q in
  let seatWeight : Q :=
    if (distFromEdge <=? 1) && (0 <? AISLE_PREF config)
    then (seatWeight + inject_Z (AISLE_PREF config * 3))%Q else seatWeight in
  let socialBonus := (8 - adjacentCount) * SOCIAL_DISTANCE config in
  (seatWeight + inject_Z socialBonus)%Q.

(** Step 2: the loop that fills [validSeats]; every free seat costs one
    draw for the sampled debug line. *)
Fixpoint collect_seats (grid : Grid) (assigned : gset Pos) (config : Config)
    (chosenRow c0 c1 : Z) (cols : list Z) (validSeats : list (Pos * Q))
  : Rand (option (list (Pos * Q))) :=
  match cols with
  | [] => ret (Some validSeats)
  | c :: cols' =>
      match grid_get grid chosenRow c with
      | None => ret None
      | Some cell =>
          if seat_is_free assigned chosenRow c cell then
            match countAdjacentSeated grid (chosenRow, c) with
            | None => ret None
            | Some adjacentCount =>
                let seatWeight := seat_weight config c c0 c1 adjacentCount in
                _ <~ random_below (5 # 100) ;;
                collect_seats grid assigned config chosenRow c0 c1 cols'
                  (validSeats ++ [((chosenRow, c), Qmax_js seatWeight (1 # 100))])
            end
          else collect_seats grid assigned config chosenRow c0 c1 cols' validSeats
      end
  end.

(** [pickSeatInBlock(grid, block, assigned, seatBlocks, config, rowThr)];
    the result [None] is [null], from a [return null] or from the [catch]
    branch. *)
Definition pickSeatInBlock (grid : Grid) (block : option Z)
    (assigned : gset Pos) (seatBlocks : list (Z * Z)) (config : Config)
    (rowThr : Z) : Rand (option Pos) :=
  match block ≫= at_index seatBlocks with
  | None => ret None
  | Some (c0, c1) =>
      match availableRows grid assigned c0 c1 rowThr with
      | None | Some [] => ret None
      | Some rows =>
          candidateRows <~
            (if Qltb 0 (BACK_PREF config) then front_aversion config rows
             else ret rows) ;;
          chosenRow <~ choose_row config candidateRows ;;
          match chosenRow, columns c0 c1 with
          | None, _ => ret None
          | Some chosenRow, cols =>
              validSeats <~ collect_seats grid assigned config chosenRow
                              c0 c1 cols [] ;;
              match validSeats with
              | None | Some [] => ret None
              | Some validSeats =>
                  chosenSeat <~ Utils.weightedChoice (fst <$> validSeats)
                                  (snd <$> validSeats) ;;
                  _ <~ and_random_below (Qltb 3 (BACK_PREF config)) (1 # 10) ;;
                  ret chosenSeat
              end
          end
      end
  end.

(** [blocks.sort(() => Math.random() - 0.5)]: the oracle fixes the order
    and the number of draws the comparator made. *)
Definition shuffled (blocks : list Z) : Rand (list Z) :=
  fun o n =>
    let (l, k) := sort_random o n blocks in
    (l, (n + k)%nat).

(** The loop of [pickSeatAnyBlock] over the shuffled blocks. *)
Fixpoint try_blocks (grid : Grid) (assigned : gset Pos)
    (seatBlocks : list (Z * Z)) (config : Config) (rowThr : Z)
    (blocks : list Z) : Rand (option (Z * Pos)) :=
  match blocks with
  | [] => ret None
  | b :: blocks' =>
      s <~ pickSeatInBlock grid (Some b) assigned seatBlocks config rowThr ;;
      match s with
      | Some s => ret (Some (b, s))
      | None => try_blocks grid assigned seatBlocks config rowThr blocks'
      end
  end.

(** [pickSeatAnyBlock(grid, assigned, seatBlocks, config, rowThr)];
    [None] is [[null, null]]. *)
Definition pickSeatAnyBlock (grid : Grid) (assigned : gset Pos)
    (seatBlocks : list (Z * Z)) (config : Config) (rowThr : Z)
  : Rand (option (Z * Pos)) :=
  blocks <~ shuffled (seqZ 0 (Z.of_nat (length seatBlocks))) ;;
  try_blocks grid assigned seatBlocks config rowThr blocks.

(** The test of [findStandingPosition] on a cell: not a seat, a gate, a
    seated agent or a standing agent. *)
Definition can_stand (cell : option CellType) : bool :=
  negb (cell_is SEAT cell) && negb (cell_is GATE cell) &&
  negb (cell_is SEATED_AGENT cell) && negb (cell_is STANDING cell).

(** The candidates of row [r]:
    [for (let c = 0; c < grid[0].length; c++) { ... grid[r][c] ... }];
    [None] is a fault. *)
Definition standing_candidates (grid : Grid) (r : Z) : option (list Pos) :=
  row0 ← grid_row grid 0;
  foldl (fun candidates c =>
           candidates ← candidates;
           cell ← grid_get grid r c;
           Some (if can_stand cell then candidates ++ [(r, c)] else candidates))
        (Some []) (seqZ 0 (row_length row0)).

(** The rows [findStandingPosition] scans, in its order. *)
Definition standing_rows : list Z := [19; 18; 17; 16; 15; 14].

(** The scan of the [try] block: the candidates of the first row that has
    some; [Some []] when no row has any, [None] on a fault. *)
Fixpoint first_candidates (grid : Grid) (rows : list Z) : option (list Pos) :=
  match rows with
  | [] => Some []
  | r :: rows' =>
      match standing_candidates grid r with
      | None => None
      | Some [] => first_candidates grid rows'
      | Some candidates => Some candidates
      end
  end.

(** [findStandingPosition(grid)]; the result [None] is [undefined], which
    only an index outside the candidates can produce. *)
Definition findStandingPosition (grid : Grid) : Rand (option Pos) :=
  match first_candidates grid standing_rows with
  | None => ret (Some (18, 10))
  | Some [] =>
      k <~ random_index 6 ;;
      let r := SIM_CONSTANTS.BACK_ROWS_START + k in
      match grid_row grid 0 with
      | None => ret (Some (18, 10))
      | Some row0 =>
          c <~ random_index (row_length row0) ;;
          ret (Some (r, c))
      end
  | Some candidates =>
      i <~ random_index (Z.of_nat (length candidates)) ;;
      ret (at_index candidates i)
  end.

End SeatSelectionEngine.

(** ** Agent *)

Module Agent.

Record t := {
  pos : Pos;
  seated : bool;
  standing : bool;
  willStand : bool;
  (** [undefined] when the weighted choice of a block had nothing to
      choose from *)
  block : option Z;
  (** [undefined] until the constructor has a destination *)
  seat : option Pos;
  corridor : Z;
  row0 : Z;
  path : list Pos
}.

(** The part of the constructor that follows the choice of a real seat.
    [None] is a constructor that never returns: with [undefined] as the
    corridor column the second loop of [computeSimplePath] has no exit. *)
Definition take_seat (spawn : Pos) (assigned : gset Pos)
    (blockToCorridorCells : list (list (list Z))) (config : Config)
    (block : option Z) (seat : Pos) : Rand (option (t * gset Pos)) :=
  let assigned :=
    if FEATURE_ASSIGNED_SEATS config then {[seat]} ∪ assigned else assigned in
  corridor <~ PathfindingEngine.pickPreferredCorridorCell block (snd seat)
                blockToCorridorCells ;;
  k <~ random_index 4 ;;
  let row0 := SIM_CONSTANTS.PATH_ROW_RANGE_START + k in
  match corridor with
  | None => ret None
  | Some corridor =>
      ret (Some ({| pos := spawn; seated := false; standing := false;
                    willStand := false; block := block; seat := Some seat;
                    corridor := corridor; row0 := row0;
                    path := PathfindingEngine.computeSimplePath
                              spawn corridor seat row0 |},
                 assigned))
  end.

(** The branch "No seats available - will stand in back". A position
    [undefined] faults in [computeSimplePath], outside its [try]; the
    [catch] of the constructor then sets its defaults. *)
Definition stand_in_back (grid : Grid) (spawn : Pos) (config : Config)
    (block : option Z) : Rand t :=
  standPos <~ SeatSelectionEngine.findStandingPosition grid ;;
  let corridor := CORRIDOR_WIDTH config in
  let row0 := 19 in
  match standPos with
  | Some seat =>
      ret {| pos := spawn; seated := false; standing := false;
             willStand := true; block := block; seat := Some seat;
             corridor := corridor; row0 := row0;
             path := PathfindingEngine.computeSimplePath
                       spawn corridor seat row0 |}
  | None =>
      ret {| pos := spawn; seated := false; standing := true;
             willStand := false; block := block; seat := None;
             corridor := corridor; row0 := row0; path := [] |}
  end.

(** [new Agent(grid, spawn, assigned, seatBlocks, blockToCorridorCells,
    config, gates)]: the new agent and the set [assigned] as the
    constructor leaves it. *)
Definition constructor (grid : Grid) (spawn : Pos) (assigned : gset Pos)
    (seatBlocks : list (Z * Z)) (blockToCorridorCells : list (list (list Z)))
    (config : Config) (gates : list Pos) : Rand (option (t * gset Pos)) :=
  let gateC := snd spawn in
  let numBlocks := Z.of_nat (length seatBlocks) in
  block <~ PathfindingEngine.pickBlockBasedOnGate gateC numBlocks gates ;;
  let block :=
    match block with
    | Some b => if numBlocks <=? b then Some (numBlocks - 1) else Some b
    | None => None
    end in
  seat <~ SeatSelectionEngine.pickSeatInBlock grid block assigned seatBlocks
            config SIM_CONSTANTS.DEFAULT_ROW_THRESHOLD ;;
  match seat with
  | Some seat => take_seat spawn assigned blockToCorridorCells config block seat
  | None =>
      bs <~ SeatSelectionEngine.pickSeatAnyBlock grid assigned seatBlocks
              config SIM_CONSTANTS.DEFAULT_ROW_THRESHOLD ;;
      match bs with
      | Some (b, s) =>
          take_seat spawn assigned blockToCorridorCells config (Some b) s
      | None =>
          a <~ stand_in_back grid spawn config block ;;
          ret (Some (a, assigned))
      end
  end.

Definition settle_standing (a : t) : t :=
  {| pos := pos a; seated := seated a; standing := true;
     willStand := willStand a; block := block a; seat := seat a;
     corridor := corridor a; row0 := row0 a; path := path a |}.

Definition settle_seated (a : t) : t :=
  {| pos := pos a; seated := true; standing := standing a;
     willStand := willStand a; block := block a; seat := seat a;
     corridor := corridor a; row0 := row0 a; path := path a |}.

(** [grid[this.pos[0]][this.pos[1]] = v] inside the [try] of [update]: a
    fault leaves the grid as it is. *)
Definition mark (grid : Grid) (p : Pos) (v : CellType) : Grid :=
  default grid (grid_set grid (fst p) (snd p) v).

(** [update(grid)]: the agent and the grid after the call. *)
Definition update (a : t) (grid : Grid) : t * Grid :=
  if seated a || standing a then (a, grid)
  else
    match path a with
    | [] =>
        if willStand a then
          (settle_standing a, mark grid (pos a) STANDING)
        else
          match grid_get grid (fst (pos a)) (snd (pos a)) with
          | None => (settle_standing a, grid)
          | Some cell =>
              if cell_is SEAT cell
              then (settle_seated a, mark grid (pos a) SEATED_AGENT)
              else (settle_standing a, mark grid (pos a) STANDING)
          end
    | next :: rest =>
        ({| pos := next; seated := seated a; standing := standing a;
            willStand := willStand a; block := block a; seat := seat a;
            corridor := corridor a; row0 := row0 a; path := rest |},
         grid)
    end.

(** [!agent.seated && !agent.standing] *)
Definition moving (a : t) : bool := negb (seated a) && negb (standing a).

End Agent.

(** ** SimulationEngine *)

Module SimulationEngine.

Record t := {
  config : Config;
  grid : option Grid;
  agents : list Agent.t;
  spawned : Z;
  time : Z;
  completed : bool;
  assigned : gset Pos;
  gates : list Pos;
  seatBlocks : list (Z * Z);
  corridorSegs : list (list Z);
  blockToCorridorCells : list (list (list Z));
  (** [chartData], one [(time, seated, standing)] per sample *)
  chartData : list (Z * Z * Z)
}.

(** [new SimulationEngine(config)] *)
Definition constructor (config : Config) : t :=
  {| config := config; grid := None; agents := []; spawned := 0; time := 0;
     completed := false; assigned := ∅; gates := []; seatBlocks := [];
     corridorSegs := []; blockToCorridorCells := []; chartData := [] |}.

(** The body of the loop of [initialize] that fills
    [blockToCorridorCells[i]]. *)
Definition available_corridors (corridorSegs : list (list Z))
    (numBlocks i : Z) : list (list Z) :=
  let availableCorridors :=
    option_list (at_index corridorSegs i) ++
    option_list (at_index corridorSegs (i + 1)) in
  if (length availableCorridors =? 1)%nat && (i =? numBlocks - 1) then
    option_list (at_index corridorSegs (i - 1)) ++ availableCorridors
  else availableCorridors.

(** [initialize()]: the engine afterwards and the returned boolean. *)
Definition initialize (e : t) : t * bool :=
  let cfg := config e in
  match GridBuilder.buildGrid cfg with
  | None =>
      ({| config := cfg; grid := None; agents := agents e;
          spawned := spawned e; time := time e; completed := completed e;
          assigned := assigned e; gates := gates e;
          seatBlocks := seatBlocks e; corridorSegs := corridorSegs e;
          blockToCorridorCells := blockToCorridorCells e;
          chartData := chartData e |}, false)
  | Some g =>
      let gates := (fun c => (ROWS cfg - 1, c)) <$> GridBuilder.gate_columns cfg in
      let seatBlocks :=
        GridBuilder.generateSeatBlocks (COLS cfg) (NUM_BLOCKS cfg)
                                       (CORRIDOR_WIDTH cfg) in
      let corridorSegs :=
        GridBuilder.generateCorridorSegments (COLS cfg) seatBlocks
                                             (CORRIDOR_WIDTH cfg) in
      ({| config := cfg; grid := Some g; agents := []; spawned := 0;
          time := 0; completed := false; assigned := ∅; gates := gates;
          seatBlocks := seatBlocks; corridorSegs := corridorSegs;
          blockToCorridorCells :=
            available_corridors corridorSegs (NUM_BLOCKS cfg)
              <$> seqZ 0 (NUM_BLOCKS cfg);
          chartData := [] |}, true)
  end.

(** How a block of statements inside [try] ends: normally, by a fault
    (with the state the fault leaves), or never. *)
Inductive Outcome (A : Type) :=
| Normal (a : A)
| Threw (a : A)
| Hung.
Arguments Normal {A} a.
Arguments Threw {A} a.
Arguments Hung {A}.

(** [{...this.config}] with [BACK_PREF] scaled by the arrival phase *)
Definition modifiedConfig (cfg : Config) (spawned : Z) : Config :=
  let arrivalRatio := (inject_Z spawned / inject_Z (NUM_AGENTS cfg))%Q in
  let backPrefMultiplier : Q :=
    if Qltb arrivalRatio (3 # 10) then 15 # 10
    else if Qltb arrivalRatio (7 # 10) then 1%Q else 5 # 10 in
  {| ROWS := ROWS cfg; COLS := COLS cfg; NUM_BLOCKS := NUM_BLOCKS cfg;
     CORRIDOR_WIDTH := CORRIDOR_WIDTH cfg;
     FEATURE_ASSIGNED_SEATS := FEATURE_ASSIGNED_SEATS cfg;
     NUM_AGENTS := NUM_AGENTS cfg; MAX_TIME := MAX_TIME cfg;
     SOCIAL_DISTANCE := SOCIAL_DISTANCE cfg;
     BACK_PREF := Qmax_js 0 (BACK_PREF cfg * backPrefMultiplier);
     AISLE_PREF := AISLE_PREF cfg |}.

(** The grid as the functions of the other classes see it. A [null] grid
    faults exactly where an empty one does: every access is [grid[r][c]]
    or [grid[0].length]. *)
Definition grid_of (e : t) : Grid := default [] (grid e).

Definition with_spawn (e : t) (agent : Agent.t) (assigned : gset Pos) : t :=
  {| config := config e; grid := grid e; agents := agents e ++ [agent];
     spawned := spawned e + 1; time := time e; completed := completed e;
     assigned := assigned; gates := gates e; seatBlocks := seatBlocks e;
     corridorSegs := corridorSegs e;
     blockToCorridorCells := blockToCorridorCells e;
     chartData := chartData e |}.

Definition with_grid (e : t) (g : Grid) : t :=
  {| config := config e; grid := Some g; agents := agents e;
     spawned := spawned e; time := time e; completed := completed e;
     assigned := assigned e; gates := gates e; seatBlocks := seatBlocks e;
     corridorSegs := corridorSegs e;
     blockToCorridorCells := blockToCorridorCells e;
     chartData := chartData e |}.

(** One iteration of [for (const gate of this.gates)]; [occupied] is the
    local set of occupied positions. *)
Definition spawn_at (gate : Pos) (st : t * gset Pos)
  : Rand (Outcome (t * gset Pos)) :=
  let '(e, occupied) := st in
  if (spawned e <? NUM_AGENTS (config e)) && bool_decide (gate ∉ occupied)
  then
    built <~ Agent.constructor (grid_of e) gate (assigned e) (seatBlocks e)
               (blockToCorridorCells e) (modifiedConfig (config e) (spawned e))
               (gates e) ;;
    match built with
    | None => ret Hung
    | Some (agent, assigned') =>
        let e := with_spawn e agent assigned' in
        let occupied := {[gate]} ∪ occupied in
        (* Reserve destination for standing agents *)
        match (if Agent.willStand agent then Agent.seat agent else None) with
        | Some dest =>
            match grid e ≫= fun g => grid_set g (fst dest) (snd dest) STANDING with
            | Some g => ret (Normal (with_grid e g, occupied))
            | None => ret (Threw (e, occupied))
            end
        | None => ret (Normal (e, occupied))
        end
    end
  else ret (Normal st).

(** The spawn loop over the gates. *)
Fixpoint spawn_loop (gates : list Pos) (st : t * gset Pos)
  : Rand (Outcome (t * gset Pos)) :=
  match gates with
  | [] => ret (Normal st)
  | gate :: gates' =>
      o <~ spawn_at gate st ;;
      match o with
      | Normal st' => spawn_loop gates' st'
      | Threw st' => ret (Threw st')
      | Hung => ret Hung
      end
  end.

(** [this.agents.forEach(agent => { if (!agent.seated && !agent.standing)
    agent.update(this.grid); })] *)
Fixpoint update_agents (agents : list Agent.t) (g : Grid)
  : list Agent.t * Grid :=
  match agents with
  | [] => ([], g)
  | a :: agents' =>
      let '(a', g') := if Agent.moving a then Agent.update a g else (a, g) in
      let '(rest, g'') := update_agents agents' g' in
      (a' :: rest, g'')
  end.

Definition count (p : Agent.t -> bool) (agents : list Agent.t) : Z :=
  Z.of_nat (length (List.filter p agents)).

(** The values [update] returns. *)
Inductive Result :=
| AlreadyCompleted
| Completed (seated standing : Z)
| Running (seated standing moving : Z)
| Failed.

(** The positions of the agents that are still moving. *)
Definition occupied_positions (agents : list Agent.t) : gset Pos :=
  list_to_set (Agent.pos <$> List.filter Agent.moving agents).

Definition fail (e : t) : t :=
  {| config := config e; grid := grid e; agents := agents e;
     spawned := spawned e; time := time e; completed := true;
     assigned := assigned e; gates := gates e; seatBlocks := seatBlocks e;
     corridorSegs := corridorSegs e;
     blockToCorridorCells := blockToCorridorCells e;
     chartData := chartData e |}.

(** [update()]: the engine afterwards and the returned value; [None]
    when the call does not return. *)
Definition update (e : t) : Rand (option (t * Result)) :=
  if completed e then ret (Some (e, AlreadyCompleted))
  else
    o <~ spawn_loop (gates e) (e, occupied_positions (agents e)) ;;
    match o with
    | Hung => ret None
    | Threw (e, _) => ret (Some (fail e, Failed))
    | Normal (e, _) =>
        let '(agents', g') := update_agents (agents e) (grid_of e) in
        let time' := time e + 1 in
        let seated := count Agent.seated agents' in
        let standing := count Agent.standing agents' in
        let allSettled :=
          forallb (fun a => Agent.seated a || Agent.standing a) agents' in
        let done :=
          (allSettled && (NUM_AGENTS (config e) <=? spawned e)) ||
          (MAX_TIME (config e) <=? time') in
        ret (Some
          ({| config := config e; grid := option_map (fun _ => g') (grid e);
              agents := agents'; spawned := spawned e; time := time';
              completed := done; assigned := assigned e; gates := gates e;
              seatBlocks := seatBlocks e; corridorSegs := corridorSegs e;
              blockToCorridorCells := blockToCorridorCells e;
              chartData := chartData e ++ [(time', seated, standing)] |},
           if done then Completed seated standing
           else Running seated standing (count Agent.moving agents')))
    end.

(** The counters of [getStats()]. *)
Record Stats := {
  stats_time : Z;
  stats_spawned : Z;
  stats_seated : Z;
  stats_standing : Z;
  stats_moving : Z
}.

Definition getStats (e : t) : Stats :=
  {| stats_time := time e; stats_spawned := spawned e;
     stats_seated := count Agent.seated (agents e);
     stats_standing := count Agent.standing (agents e);
     stats_moving := count Agent.moving (agents e) |}.

End SimulationEngine.


(** * Vocabulary of the properties *)

(** ** Weighted choice *)

(** The sum of a list of weights. *)
Fixpoint sumQ (weights : list Q) : Q :=
  match weights with
  | [] => 0
  | w :: weights' => w + sumQ weights'
  end%Q.

(** What is left of [rnd] once the weights of the indices [0 .. i] have
    been subtracted from it. *)
Definition remainder (rnd : Q) (weights : list Q) (i : nat) : Q :=
  (rnd - sumQ (take (S i) weights))%Q.

(** Index [i] is the first one at which the running remainder is [<= 0]. *)
Definition first_trip (rnd : Q) (weights : list Q) (i : nat) : Prop :=
  (remainder rnd weights i <= 0)%Q /\
  forall j, (j < i)%nat -> ~ (remainder rnd weights j <= 0)%Q.

(** ** Seat blocks and corridor widths *)

(** The width of a block,
    [floor((cols - (numBlocks + 1) * corridorWidth) / numBlocks)]. *)
Definition block_width (cols numBlocks corridorWidth : Z) : Z :=
  (cols - (numBlocks + 1) * corridorWidth) / numBlocks.

(** The seat columns left over by corridors of width [w], and the seats
    each block then gets. *)
Definition remaining_for_seats (cols numBlocks w : Z) : Z :=
  cols - (numBlocks + 1) * w.

Definition seats_per_block (cols numBlocks w : Z) : Z :=
  remaining_for_seats cols numBlocks w / numBlocks.

(** The selection as the specification words it: among the widths 2..6
    that leave a non-negative number of seat columns, [w] gives the most
    seats per block, and no larger such width gives as many. *)
Definition selected_width (cols numBlocks w : Z) : Prop :=
  2 <= w <= 6 /\ 0 <= remaining_for_seats cols numBlocks w /\
  (forall w', 2 <= w' <= 6 -> 0 <= remaining_for_seats cols numBlocks w' ->
              seats_per_block cols numBlocks w' <= seats_per_block cols numBlocks w) /\
  (forall w', 2 <= w' <= 6 -> 0 <= remaining_for_seats cols numBlocks w' ->
              seats_per_block cols numBlocks w' = seats_per_block cols numBlocks w ->
              w' <= w).

(** The search with ties going to the width found later: the test
    [seatsPerBlock >= bestSeatsPerBlock] in place of [>]. *)
Definition spec_search_step (cols numBlocks : Z) (best : Z * Z) (w : Z) : Z * Z :=
  if (snd best <=? seats_per_block cols numBlocks w) &&
     (0 <=? remaining_for_seats cols numBlocks w)
  then (w, seats_per_block cols numBlocks w) else best.

Definition spec_search (cols numBlocks : Z) : Z * Z :=
  fold_left (spec_search_step cols numBlocks) (seqZ 2 5) (2, 0).

(** ** Paths *)

(** The coordinates visited when walking from [from] to [to] one cell at
    a time, [from] excluded and [to] included; none when they are equal. *)
Definition cells_between (from to : Z) : list Z :=
  if from <? to then seqZ (from + 1) (to - from)
  else reverse (seqZ to (from - to)).

(** The coordinates visited when walking up (towards row 0) from [from]
    to [to], [from] excluded and [to] included; none when [to] is not
    above [from]. *)
Definition cells_up (from to : Z) : list Z := reverse (seqZ to (from - to)).

(** ** Standing positions *)

(** The cells of [row], taken as row [r], that pass the test of
    [findStandingPosition], in the order of [cols]. *)
Definition candidates_in (r : Z) (row : Row) (cols : list Z) : list Pos :=
  (fun c => (r, c)) <$>
    List.filter (fun c => SeatSelectionEngine.can_stand (row_get row c)) cols.

(** A full house: the grid of the default configuration in which every
    cell of the rows 14 to 19 that is not a gate holds a standing agent. *)
Definition crowd_row (row : Row) : Row :=
  {| cells := (fun t => if decide (t = GATE) then GATE else STANDING) <$> cells row;
     row_length := row_length row |}.

Definition crowded_grid : Grid :=
  imap (fun i row => if (14 <=? i)%nat then crowd_row row else row)
       (default [] (GridBuilder.buildGrid default_config)).

(** ** Runs of the engine *)

(** The states an engine built for [cfg] goes through: it is constructed,
    then [initialize] and [update] are called in any order, every [update]
    with a legitimate [Math.random] and returning. *)
Inductive reachable (cfg : Config) : SimulationEngine.t -> Prop :=
| reachable_new :
    reachable cfg (SimulationEngine.constructor cfg)
| reachable_initialize (e : SimulationEngine.t) :
    reachable cfg e -> reachable cfg (fst (SimulationEngine.initialize e))
| reachable_update (e e' : SimulationEngine.t) (o : Oracle) (n n' : nat)
    (res : SimulationEngine.Result) :
    reachable cfg e -> valid_oracle o ->
    SimulationEngine.update e o n = (Some (e', res), n') ->
    reachable cfg e'.

(** [ticks] calls of [update] in a row; [None] when one of them does not
    return. *)
Fixpoint run (ticks : nat) (e : SimulationEngine.t) (o : Oracle) (n : nat)
  : option (SimulationEngine.t * nat) :=
  match ticks with
  | O => Some (e, n)
  | S ticks' =>
      match SimulationEngine.update e o n with
      | (Some (e', _), n') => run ticks' e' o n'
      | (None, _) => None
      end
  end.

(** The engine of a configuration after [initialize()]. *)
Definition initialized (cfg : Config) : SimulationEngine.t :=
  fst (SimulationEngine.initialize (SimulationEngine.constructor cfg)).

(** A property of the engine holds in the state a block of statements
    leaves, if it leaves one. *)
Definition outcome_sat (I : SimulationEngine.t -> Prop)
    (out : SimulationEngine.Outcome (SimulationEngine.t * gset Pos)) : Prop :=
  match out with
  | SimulationEngine.Normal (e, _) | SimulationEngine.Threw (e, _) => I e
  | SimulationEngine.Hung => True
  end.

(** An agent is in a terminal state. *)
Definition terminal (a : Agent.t) : bool := Agent.seated a || Agent.standing a.

(** No agent is both seated and standing, and the counter of spawned
    agents is the number of agents. *)
Definition counts_consistent (e : SimulationEngine.t) : Prop :=
  Z.of_nat (length (SimulationEngine.agents e)) = SimulationEngine.spawned e /\
  Forall (fun a => Agent.seated a && Agent.standing a = false)
         (SimulationEngine.agents e).

(** The seats that were returned to agents: the destinations of the agents
    that are not bound for a standing position. *)
Definition promised_seats (agents : list Agent.t) : list Pos :=
  omap (fun a => if Agent.willStand a then None else Agent.seat a) agents.

(** No seat was promised twice, and every promised seat is in the assigned
    set. *)
Definition seats_reserved (e : SimulationEngine.t) : Prop :=
  NoDup (promised_seats (SimulationEngine.agents e)) /\
  forall s, s ∈ promised_seats (SimulationEngine.agents e) ->
            s ∈ SimulationEngine.assigned e.

(** The engine of [cfg] after [initialize()] and [ticks] calls of
    [update()], with [Math.random()] always returning [u]. *)
Definition sample_run (cfg : Config) (u : Q) (ticks : nat)
  : option SimulationEngine.t :=
  fst <$> run ticks (initialized cfg) (constant_oracle u) 0.

(** What agent [i] of an engine reports: position, destination and the
    flags [seated], [standing] and [willStand]. *)
Definition report (e : SimulationEngine.t) (i : nat)
  : option (Pos * option Pos * bool * bool * bool) :=
  a ← SimulationEngine.agents e !! i;
  Some (Agent.pos a, Agent.seat a, Agent.seated a, Agent.standing a,
        Agent.willStand a).

(** The sample run returns from all its calls of [update()]. *)
Definition run_returns (cfg : Config) (u : Q) (ticks : nat) : bool :=
  match sample_run cfg u ticks with Some _ => true | None => false end.

(** ** Where agents settle *)

(** The destinations of the agents, in the order of the agent list. *)
Definition destinations (agents : list Agent.t) : list (option Pos) :=
  Agent.seat <$> agents.

(** What a cell may hold during a run: seats and seated agents in the seat
    rows only, gates at the gates of the engine only, and a standing mark
    only at the destination of an agent. *)
Definition cell_allowed (gates : list Pos) (dests : list (option Pos))
    (r c : Z) (t : CellType) : Prop :=
  match t with
  | SEAT | SEATED_AGENT => 6 <= r < 14
  | GATE => (r, c) ∈ gates
  | STANDING => Some (r, c) ∈ dests
  | EMPTY | CORRIDOR => True
  end.

(** The grid has the rows of the configuration, row 0 has its columns, and
    every cell holds what it may. *)
Definition grid_ok (cfg : Config) (gates : list Pos)
    (dests : list (option Pos)) (g : Grid) : Prop :=
  length g = Z.to_nat (ROWS cfg) /\
  (exists row0, grid_row g 0 = Some row0 /\ row_length row0 = COLS cfg) /\
  forall r c t, grid_get g r c = Some (Some t) -> cell_allowed gates dests r c t.

(** Every stored cell of a row lies below its [length]. *)
Definition dense (row : Row) : Prop :=
  forall c, is_Some (cells row !! c) -> 0 <= c < row_length row.

(** An agent and its destination [d]: a terminal agent is at [d], a moving
    one has a path that ends there; the destination of an agent that will
    stand is a reserved cell of the back rows, that of any other agent an
    assigned seat. *)
Definition agent_ok (assigned : gset Pos) (g : Grid) (a : Agent.t) : Prop :=
  exists d, Agent.seat a = Some d /\
    (if terminal a then Agent.pos a = d
     else last (Agent.pos a :: Agent.path a) = Some d) /\
    (if Agent.willStand a
     then 14 <= fst d <= 19 /\
          grid_get g (fst d) (snd d) = Some (Some STANDING)
     else 6 <= fst d < 14 /\ d ∈ assigned).

(** The engine before a successful [initialize]: no agents and no gates. *)
Definition idle (e : SimulationEngine.t) : Prop :=
  SimulationEngine.agents e = [] /\ SimulationEngine.gates e = [].

(** The engine during a run: every agent keeps to its own destination. *)
Definition apart (e : SimulationEngine.t) : Prop :=
  exists g,
    SimulationEngine.grid e = Some g /\
    is_Some (GridBuilder.buildGrid (SimulationEngine.config e)) /\
    grid_ok (SimulationEngine.config e) (SimulationEngine.gates e)
            (destinations (SimulationEngine.agents e)) g /\
    Forall (agent_ok (SimulationEngine.assigned e) g) (SimulationEngine.agents e) /\
    NoDup (destinations (SimulationEngine.agents e)) /\
    Z.of_nat (length (SimulationEngine.agents e)) = SimulationEngine.spawned e /\
    (length (SimulationEngine.gates e) <= 3)%nat.

(** The cells of the rows 14 to 19 within [cols] columns, row by row. *)
Definition back_cells (cols : Z) : list Pos :=
  (fun k => (14 + k / cols, k mod cols)) <$> seqZ 0 (6 * cols).

(** ** Vocabulary of the further properties *)

(** The listener an event is about. *)
Definition event_id (ev : ConfigManager.Event) : nat :=
  match ev with
  | ConfigManager.Notified id _ _ => id
  | ConfigManager.ListenerErrorLogged id => id
  end.

(** Two cells are neighbours: one step apart along a row or a column. *)
Definition adjacent (p q : Pos) : Prop :=
  Z.abs (fst p - fst q) + Z.abs (snd p - snd q) = 1.

(** Every cell of a walk is a neighbour of the one before it. *)
Definition walk (l : list Pos) : Prop :=
  forall (i : nat) (p q : Pos),
    l !! i = Some p -> l !! S i = Some q -> adjacent p q.

(** A column lies in one of the seat blocks. *)
Definition in_blocks (blocks : list (Z * Z)) (c : Z) : Prop :=
  exists blk, blk ∈ blocks /\ fst blk <= c <= snd blk.

(** [k] calls of [update] on an agent, the grid passed from one to the
    next. *)
Definition updates (k : nat) (st : Agent.t * Grid) : Agent.t * Grid :=
  Nat.iter k (fun st => Agent.update (fst st) (snd st)) st.

(** An agent that was given a seat is not standing, and the cell of its
    seat holds [SEAT] until the agent sits on it, [SEATED_AGENT] then. *)
Definition sits_ok (g : Grid) (a : Agent.t) : Prop :=
  Agent.willStand a = false ->
  Agent.standing a = false /\
  exists d, Agent.seat a = Some d /\
    grid_get g (fst d) (snd d)
    = Some (Some (if Agent.seated a then SEATED_AGENT else SEAT)).


(** * Properties *)

(** ** The weighted choice primitive *)

Section WeightedChoice.

Context {A : Type}.
Implicit Types (items : list A) (weights : list Q) (rnd u : Q).

Lemma fold_left_Qplus weights (a : Q) :
  (fold_left Qplus weights a == a + sumQ weights)%Q.
Proof.
  revert a. induction weights as [|w weights IH]; intros a; simpl.
  - lra.
  - rewrite IH. lra.
Qed.

Lemma total_weight_sumQ weights :
  (Utils.total_weight weights == sumQ weights)%Q.
Proof. unfold Utils.total_weight. rewrite fold_left_Qplus. lra. Qed.

Lemma sumQ_nonneg weights :
  Forall (fun w => 0 <= w)%Q weights -> (0 <= sumQ weights)%Q.
Proof. induction 1; simpl; lra. Qed.

Lemma sumQ_app (l1 l2 : list Q) : (sumQ (l1 ++ l2) == sumQ l1 + sumQ l2)%Q.
Proof. induction l1 as [|w l1 IH]; simpl; [lra | rewrite IH; lra]. Qed.

Lemma sumQ_zero weights :
  Forall (fun w => w == 0)%Q weights -> (sumQ weights == 0)%Q.
Proof. induction 1 as [|w l Hw _ IH]; simpl; [lra | rewrite Hw, IH; lra]. Qed.

(** The loop returns the item of the first index that trips, and ends
    without a result exactly when no index trips. *)
Lemma weightedChoice_loop_spec items : forall weights rnd,
  length items = length weights ->
  match Utils.weightedChoice_loop rnd items weights with
  | Some x => exists i, items !! i = Some x /\ first_trip rnd weights i
  | None => forall j, (j < length items)%nat -> ~ (remainder rnd weights j <= 0)%Q
  end.
Proof.
  induction items as [|x items IH]; intros [|w weights] rnd Hlen;
    simpl in Hlen; try discriminate.
  - simpl. intros j Hj. lia.
  - cbn [Utils.weightedChoice_loop].
    destruct (Qle_bool (rnd - w) 0) eqn:Hle.
    + apply Qle_bool_iff in Hle. exists 0%nat. split; [done|]. split.
      * unfold remainder. simpl. lra.
      * intros j Hj. lia.
    + assert (Hnle : ~ (rnd - w <= 0)%Q).
      { intros H. apply Qle_bool_iff in H. congruence. }
      specialize (IH weights (rnd - w)%Q ltac:(lia)).
      destruct (Utils.weightedChoice_loop (rnd - w) items weights) as [y|].
      * destruct IH as (i & Hi & Htrip & Hfirst). exists (S i).
        split; [done|]. split.
        -- unfold remainder in *. simpl in *. lra.
        -- intros [|j] Hj.
           ++ unfold remainder. simpl. lra.
           ++ specialize (Hfirst j ltac:(lia)). unfold remainder in *.
              simpl in *. lra.
      * intros [|j] Hj.
        -- unfold remainder. simpl. lra.
        -- specialize (IH j ltac:(simpl in Hj; lia)). unfold remainder in *.
           simpl in *. lra.
Qed.

(** The remainders are those of the rational sum, whatever way the
    total was added up. *)
Lemma remainder_le_0 rnd1 rnd2 weights i :
  (rnd1 == rnd2)%Q ->
  (remainder rnd1 weights i <= 0)%Q <-> (remainder rnd2 weights i <= 0)%Q.
Proof. unfold remainder. intros ->. reflexivity. Qed.

(** With one positive weight at index [k] and zeros elsewhere, the
    partial sums are [0] before [k] and the weight from [k] on. *)
Lemma sumQ_take_before weights (k j : nat) :
  (forall i w', i <> k -> weights !! i = Some w' -> w' == 0)%Q ->
  (j <= k)%nat -> (sumQ (take j weights) == 0)%Q.
Proof.
  intros Hothers Hj. apply sumQ_zero. apply Forall_forall.
  intros w' Hin. apply list_elem_of_lookup in Hin.
  destruct Hin as [i Hi]. apply lookup_take_Some in Hi as [Hi Hlt].
  apply (Hothers i); [lia | done].
Qed.

Lemma sumQ_drop_after weights (k j : nat) :
  (forall i w', i <> k -> weights !! i = Some w' -> w' == 0)%Q ->
  (k < j)%nat -> (sumQ (drop j weights) == 0)%Q.
Proof.
  intros Hothers Hj. apply sumQ_zero. apply Forall_forall.
  intros w' Hin. apply list_elem_of_lookup in Hin.
  destruct Hin as [i Hi]. rewrite lookup_drop in Hi.
  apply (Hothers (j + i)%nat); [lia | done].
Qed.

Lemma sumQ_take_at weights (k : nat) (w : Q) :
  weights !! k = Some w ->
  (forall i w', i <> k -> weights !! i = Some w' -> w' == 0)%Q ->
  (sumQ (take (S k) weights) == w)%Q.
Proof.
  intros Hk Hothers. rewrite (take_S_r _ _ _ Hk), sumQ_app.
  rewrite (sumQ_take_before weights k k Hothers); [simpl; lra | lia].
Qed.

Lemma sumQ_single weights (k : nat) (w : Q) :
  weights !! k = Some w ->
  (forall i w', i <> k -> weights !! i = Some w' -> w' == 0)%Q ->
  (sumQ weights == w)%Q.
Proof.
  intros Hk Hothers. rewrite <- (take_drop (S k) weights), sumQ_app.
  rewrite (sumQ_take_at _ _ _ Hk Hothers).
  rewrite (sumQ_drop_after weights k (S k) Hothers); [lra | lia].
Qed.

End WeightedChoice.





(** ** Seat blocks *)

Section SeatBlocks.

Variables cols numBlocks corridorWidth : Z.

Local Abbreviation block_width := (block_width cols numBlocks corridorWidth).

Lemma generateSeatBlocks_lookup (i : nat) (blk : Z * Z) :
  GridBuilder.generateSeatBlocks cols numBlocks corridorWidth !! i = Some blk ->
  Z.of_nat i < numBlocks /\
  fst blk = corridorWidth + Z.of_nat i * (block_width + corridorWidth) /\
  snd blk = fst blk + block_width - 1.
Proof.
  unfold GridBuilder.generateSeatBlocks. rewrite list_lookup_fmap.
  destruct (seqZ 0 numBlocks !! i) as [k|] eqn:Hk; [|discriminate].
  apply lookup_seqZ in Hk as [-> Hi]. simpl. intros [= <-]. simpl.
  unfold block_width. replace (0 + Z.of_nat i) with (Z.of_nat i) by lia.
  done.
Qed.

Lemma generateSeatBlocks_length :
  length (GridBuilder.generateSeatBlocks cols numBlocks corridorWidth)
  = Z.to_nat numBlocks.
Proof.
  unfold GridBuilder.generateSeatBlocks. by rewrite length_fmap, length_seqZ.
Qed.

(** The blocks and one corridor on each side of every block fit in the
    columns. *)
Lemma blocks_fit :
  0 < numBlocks ->
  numBlocks * block_width + (numBlocks + 1) * corridorWidth <= cols.
Proof.
  intros Hn. unfold block_width.
  pose proof (Z.mul_div_le (cols - (numBlocks + 1) * corridorWidth)
                numBlocks Hn). lia.
Qed.

End SeatBlocks.

(** C4. For every valid configuration, [generateSeatBlocks] returns exactly
    [numBlocks] column ranges; block [i] starts at
    [corridorWidth + i * (blockWidth + corridorWidth)] and has exactly
    [blockWidth] columns, all of them inside [0, cols); and the ranges are
    strictly ordered from left to right, hence pairwise disjoint. *)
Theorem generateSeatBlocks_layout (cols numBlocks corridorWidth : Z) :
  2 <= numBlocks <= 6 ->
  2 <= corridorWidth <= 6 ->
  1 <= block_width cols numBlocks corridorWidth ->
  let blockWidth := block_width cols numBlocks corridorWidth in
  let blocks := GridBuilder.generateSeatBlocks cols numBlocks corridorWidth in
  length blocks = Z.to_nat numBlocks /\
  (forall (i : nat) (start end_ : Z),
     blocks !! i = Some (start, end_) ->
     start = corridorWidth + Z.of_nat i * (blockWidth + corridorWidth) /\
     end_ - start + 1 = blockWidth /\
     0 <= start /\ start <= end_ /\ end_ < cols) /\
  (forall (i j : nat) (si ei sj ej : Z),
     (i < j)%nat ->
     blocks !! i = Some (si, ei) -> blocks !! j = Some (sj, ej) ->
     ei < sj).
Proof.
  intros Hn Hw Hbw blockWidth blocks. subst blocks.
  split; [apply generateSeatBlocks_length|].
  pose proof (blocks_fit cols numBlocks corridorWidth ltac:(lia)) as Hfit.
  fold blockWidth in Hfit, Hbw.
  split.
  - intros i start end_ Hi.
    apply generateSeatBlocks_lookup in Hi as (Hlt & Hs & He).
    simpl in Hs, He. fold blockWidth in Hs, He. subst start end_.
    repeat split; try lia; try nia.
  - intros i j si ei sj ej Hij Hi Hj.
    apply generateSeatBlocks_lookup in Hi as (Hilt & Hsi & Hei).
    apply generateSeatBlocks_lookup in Hj as (Hjlt & Hsj & Hej).
    simpl in *. fold blockWidth in Hsi, Hei, Hsj, Hej. subst. nia.
Qed.

Lemma generateSeatBlocks_layout_witness :
  GridBuilder.generateSeatBlocks 68 4 2 !! 3%nat = Some (50, 63) /\
  63 < 68.
Proof.
  split; [reflexivity|].
  pose proof (generateSeatBlocks_layout 68 4 2) as H.
  destruct H as (_ & H & _); [lia | lia | vm_compute; discriminate |].
  destruct (H 3%nat 50 63 eq_refl) as (_ & _ & _ & _ & Hlt). exact Hlt.
Defined.


(** ** The corridor width search *)

Section CorridorWidth.

Variables cols numBlocks : Z.

Local Abbreviation remaining_for_seats := (remaining_for_seats cols numBlocks).
Local Abbreviation seats_per_block := (seats_per_block cols numBlocks).
Local Abbreviation selected_width := (selected_width cols numBlocks).
Local Abbreviation spec_search_step := (spec_search_step cols numBlocks).
Local Abbreviation spec_search := (spec_search cols numBlocks).

Hypothesis blocks_pos : 1 <= numBlocks.

(** A wider corridor leaves strictly fewer seats per block. *)
Lemma seats_per_block_decreasing (w w' : Z) :
  w < w' -> seats_per_block w' < seats_per_block w.
Proof.
  intros Hw. unfold seats_per_block, remaining_for_seats.
  set (x := cols - (numBlocks + 1) * w).
  assert (Hle : cols - (numBlocks + 1) * w' <= x - numBlocks - 1) by (subst x; nia).
  assert (Hdiv : (x - numBlocks - 1) / numBlocks < x / numBlocks).
  { replace (x - numBlocks - 1) with ((x - 1) + (-1) * numBlocks) by lia.
    rewrite Z.div_add by lia.
    pose proof (Z.div_le_mono (x - 1) x numBlocks ltac:(lia) ltac:(lia)). lia. }
  pose proof (Z.div_le_mono _ _ numBlocks ltac:(lia) Hle). lia.
Qed.

Lemma seats_per_block_nonneg (w : Z) :
  0 <= remaining_for_seats w -> 0 <= seats_per_block w.
Proof. intros H. apply Z.div_pos; lia. Qed.

Lemma remaining_decreasing (w w' : Z) :
  w <= w' -> remaining_for_seats w' <= remaining_for_seats w.
Proof. unfold remaining_for_seats. nia. Qed.

(** After the first iteration nothing replaces width 2. *)
Lemma search_step_keeps (best : Z) (w : Z) :
  2 < w -> (best = 0 /\ ~ (0 < seats_per_block 2 /\ 0 <= remaining_for_seats 2)
            \/ best = seats_per_block 2) ->
  ConfigManager.corridor_search_step cols numBlocks (2, best) w = (2, best).
Proof.
  intros Hw Hbest. unfold ConfigManager.corridor_search_step.
  fold (remaining_for_seats w). fold (seats_per_block w). cbn [snd].
  pose proof (seats_per_block_decreasing 2 w Hw).
  pose proof (remaining_decreasing 2 w ltac:(lia)).
  destruct (best <? seats_per_block w) eqn:H1;
    destruct (0 <=? remaining_for_seats w) eqn:H2; try reflexivity.
  exfalso. destruct Hbest as [[-> Hno] | ->]; lia.
Qed.

Lemma spec_step_keeps (best : Z) (w : Z) :
  2 < w -> (best = 0 /\ ~ (0 <= remaining_for_seats 2)
            \/ best = seats_per_block 2) ->
  spec_search_step (2, best) w = (2, best).
Proof.
  intros Hw Hbest. unfold spec_search_step. cbn [snd].
  pose proof (seats_per_block_decreasing 2 w Hw).
  pose proof (remaining_decreasing 2 w ltac:(lia)).
  destruct (best <=? seats_per_block w) eqn:H1;
    destruct (0 <=? remaining_for_seats w) eqn:H2; try reflexivity.
  exfalso. destruct Hbest as [[-> Hno] | ->]; lia.
Qed.

(** The search of the source always ends on width 2. *)
Lemma corridor_search_width : fst (ConfigManager.corridor_search cols numBlocks) = 2.
Proof.
  unfold ConfigManager.corridor_search.
  change (seqZ 2 5) with [2; 3; 4; 5; 6]. cbn [fold_left].
  assert (exists best,
    ConfigManager.corridor_search_step cols numBlocks (2, 0) 2 = (2, best) /\
    (best = 0 /\ ~ (0 < seats_per_block 2 /\ 0 <= remaining_for_seats 2)
     \/ best = seats_per_block 2)) as (best & -> & Hbest).
  { unfold ConfigManager.corridor_search_step.
    fold (remaining_for_seats 2). fold (seats_per_block 2). cbn [snd].
    destruct (0 <? seats_per_block 2) eqn:H1;
      destruct (0 <=? remaining_for_seats 2) eqn:H2; cbn [andb];
      eexists; (split; [reflexivity|]); try (right; reflexivity); left; lia. }
  rewrite !search_step_keeps by (lia || assumption). reflexivity.
Qed.

Lemma spec_search_width : fst spec_search = 2.
Proof.
  unfold spec_search.
  change (seqZ 2 5) with [2; 3; 4; 5; 6]. cbn [fold_left].
  assert (exists best,
    spec_search_step (2, 0) 2 = (2, best) /\
    (best = 0 /\ ~ (0 <= remaining_for_seats 2)
     \/ best = seats_per_block 2)) as (best & -> & Hbest).
  { unfold spec_search_step. cbn [snd].
    pose proof (seats_per_block_nonneg 2).
    destruct (0 <=? seats_per_block 2) eqn:H1;
      destruct (0 <=? remaining_for_seats 2) eqn:H2; cbn [andb];
      eexists; (split; [reflexivity|]); try (right; reflexivity); left; lia. }
  rewrite !spec_step_keeps by (lia || assumption). reflexivity.
Qed.

(** Width 2 is the selection whenever some width leaves room for seats. *)
Lemma selected_width_2 (w0 : Z) :
  2 <= w0 <= 6 -> 0 <= remaining_for_seats w0 -> selected_width 2.
Proof.
  intros Hw0 Hrem. unfold selected_width.
  pose proof (remaining_decreasing 2 w0 ltac:(lia)).
  repeat split; try lia.
  - intros w' Hw' _. destruct (Z.eq_dec w' 2) as [->|]; [lia|].
    pose proof (seats_per_block_decreasing 2 w' ltac:(lia)). lia.
  - intros w' Hw' _ Heq. destruct (Z.eq_dec w' 2) as [->|]; [lia|].
    pose proof (seats_per_block_decreasing 2 w' ltac:(lia)). lia.
Qed.

End CorridorWidth.

Lemma validate_NUM_BLOCKS (v : JsValue) :
  ConfigManager.validate "NUM_BLOCKS" v = true ->
  exists n, to_number v = Some n /\ 2 <= n <= 6.
Proof.
  unfold ConfigManager.validate. cbn. unfold ConfigManager.between.
  destruct (to_number v) as [n|]; [|discriminate].
  intros H. exists n. split; [done|]. lia.
Qed.




(** ** Validation of configuration values *)

Lemma notifyListeners_all (key : string) (value : JsValue) (cm : ConfigManager.t)
    (l : ConfigManager.Listener) :
  l ∈ ConfigManager.listeners cm ->
  ConfigManager.Notified (ConfigManager.listener_id l) key value
    ∈ ConfigManager.notifyListeners key value cm.
Proof.
  intros Hl. unfold ConfigManager.notifyListeners.
  apply list_elem_of_In, in_flat_map. exists l.
  split; [by apply list_elem_of_In | by left].
Qed.

Lemma calculateCorridorWidth_listeners (cm : ConfigManager.t) :
  ConfigManager.listeners (ConfigManager.calculateCorridorWidth cm)
  = ConfigManager.listeners cm.
Proof. reflexivity. Qed.

Lemma calculateCorridorWidth_lookup (cm : ConfigManager.t) (key : string) :
  key <> "CORRIDOR_WIDTH" ->
  ConfigManager.config (ConfigManager.calculateCorridorWidth cm) !! key
  = ConfigManager.config cm !! key.
Proof.
  intros Hk. unfold ConfigManager.calculateCorridorWidth.
  cbn [ConfigManager.config]. by rewrite lookup_insert_ne.
Qed.

Lemma validator_keys (key : string) (range : Z * Z) :
  ConfigManager.validator key ConfigManager.validations = Some range ->
  key <> "CORRIDOR_WIDTH".
Proof.
  intros H ->. vm_compute in H. discriminate.
Qed.

(** C9. For a key with a validation range [lo..hi]: a number outside the
    range, or [NaN], leaves the whole configuration object as it was and
    notifies nobody (the model of [set] has no faulting outcome, and the
    call produces no event at all); a number inside the range is stored
    under the key and every registered listener is notified of it. *)
Theorem set_validates (cm : ConfigManager.t) (key : string) (lo hi : Z) :
  ConfigManager.validator key ConfigManager.validations = Some (lo, hi) ->
  (forall z, z < lo \/ hi < z ->
     ConfigManager.set key (VNum z) cm = (cm, [])) /\
  ConfigManager.set key VNaN cm = (cm, []) /\
  (forall z, lo <= z <= hi ->
     let cm' := fst (ConfigManager.set key (VNum z) cm) in
     let events := snd (ConfigManager.set key (VNum z) cm) in
     ConfigManager.config cm' !! key = Some (VNum z) /\
     ConfigManager.listeners cm' = ConfigManager.listeners cm /\
     (forall l, l ∈ ConfigManager.listeners cm ->
        ConfigManager.Notified (ConfigManager.listener_id l) key (VNum z)
          ∈ events) /\
     (forall key', key' <> key -> key' <> "CORRIDOR_WIDTH" ->
        ConfigManager.config cm' !! key' = ConfigManager.config cm !! key')).
Proof.
  intros Hrange. pose proof (validator_keys key _ Hrange) as Hkey.
  unfold ConfigManager.set, ConfigManager.validate. rewrite Hrange.
  unfold ConfigManager.between. cbn [to_number].
  split; [|split].
  - intros z Hz.
    destruct (lo <=? z) eqn:H1; destruct (z <=? hi) eqn:H2; cbn [andb];
      try reflexivity. lia.
  - reflexivity.
  - intros z Hz.
    replace ((lo <=? z) && (z <=? hi)) with true
      by (symmetry; apply andb_true_iff; lia).
    cbn zeta.
    destruct (String.eqb key "NUM_BLOCKS"); cbn [fst snd].
    + rewrite calculateCorridorWidth_listeners. cbn [ConfigManager.listeners].
      repeat split.
      * rewrite calculateCorridorWidth_lookup by done.
        cbn [ConfigManager.config]. apply lookup_insert_eq.
      * intros l Hl. apply notifyListeners_all.
        rewrite calculateCorridorWidth_listeners. exact Hl.
      * intros key' Hk1 Hk2. rewrite calculateCorridorWidth_lookup by done.
        cbn [ConfigManager.config]. by rewrite lookup_insert_ne.
    + cbn [ConfigManager.config ConfigManager.listeners]. repeat split.
      * apply lookup_insert_eq.
      * intros l Hl. by apply notifyListeners_all.
      * intros key' Hk1 Hk2. by rewrite lookup_insert_ne.
Qed.

Lemma set_validates_witness :
  ConfigManager.set "NUM_AGENTS" (VNum 501) ConfigManager.constructor
  = (ConfigManager.constructor, []) /\
  ConfigManager.config
    (fst (ConfigManager.set "NUM_AGENTS" (VNum 500) ConfigManager.constructor))
  !! "NUM_AGENTS" = Some (VNum 500).
Proof.
  destruct (set_validates ConfigManager.constructor "NUM_AGENTS" 50 500 eq_refl)
    as (Hout & _ & Hin).
  split.
  - apply Hout. lia.
  - apply (Hin 500). lia.
Defined.


(** ** Paths *)

Section Paths.

Import PathfindingEngine.

(** The guard [x !== stop] of a loop that starts at [start] and moves by
    [step] towards [stop] holds for exactly [|stop - start|] iterations. *)
Lemma loop_guard_exact (start stop step : Z) :
  step = (if start <=? stop then 1 else -1) ->
  let n := Z.of_nat (Z.abs_nat (stop - start)) in
  start + n * step = stop /\
  forall k, 0 <= k < n -> start + k * step <> stop.
Proof.
  intros -> n. subst n. rewrite Zabs2Nat.id_abs.
  destruct (start <=? stop) eqn:H; split; try lia.
Qed.

(** The guard [rr >= r1] of the third loop holds for exactly
    [row0 - r1] iterations. *)
Lemma down_guard_exact (row0 r1 : Z) :
  r1 < row0 ->
  let n := Z.of_nat (Z.to_nat (row0 - r1)) in
  ~ (row0 - 1 - n >= r1) /\
  forall k, 0 <= k < n -> row0 - 1 - k >= r1.
Proof. intros H n. subst n. split; lia. Qed.

Lemma push_cells_spec (n : nat) : forall (x step : Z) (cell : Z -> Pos) path,
  push_cells n x step cell path
  = path ++ ((fun k : nat => cell (x + Z.of_nat k * step)) <$> seq 0 n).
Proof.
  induction n as [|n IH]; intros x step cell path.
  - simpl. by rewrite app_nil_r.
  - cbn [push_cells]. rewrite IH. cbn [seq fmap list_fmap].
    rewrite <- app_assoc. f_equal. cbn [app].
    replace (x + Z.of_nat 0 * step) with x by lia. f_equal.
    rewrite <- fmap_S_seq, <- list_fmap_compose.
    apply list_fmap_ext. intros. unfold compose. f_equal. lia.
Qed.

Lemma seqZ_as_seq (m : Z) (n : nat) :
  seqZ m (Z.of_nat n) = (fun k : nat => m + Z.of_nat k) <$> seq 0 n.
Proof.
  unfold seqZ. rewrite Nat2Z.id. apply list_fmap_ext. intros. lia.
Qed.

Lemma push_cells_forward (n : nat) (x : Z) (cell : Z -> Pos) path :
  push_cells n x 1 cell path = path ++ (cell <$> seqZ x (Z.of_nat n)).
Proof.
  rewrite push_cells_spec, seqZ_as_seq, <- list_fmap_compose. f_equal.
  apply list_fmap_ext. intros. unfold compose. f_equal. lia.
Qed.

Lemma reverse_seqZ (m : Z) (n : nat) :
  reverse (seqZ m (Z.of_nat n))
  = (fun k : nat => m + Z.of_nat n - 1 - Z.of_nat k) <$> seq 0 n.
Proof.
  apply list_eq. intros i.
  rewrite list_lookup_fmap.
  destruct (decide (i < n)%nat) as [Hi|Hi].
  - rewrite reverse_lookup by (rewrite length_seqZ; lia).
    rewrite length_seqZ, Nat2Z.id.
    rewrite lookup_seq_lt by done. simpl.
    rewrite lookup_seqZ_lt by lia. f_equal. lia.
  - rewrite lookup_seq_ge by lia. simpl.
    apply lookup_ge_None. rewrite length_reverse, length_seqZ. lia.
Qed.

Lemma push_cells_backward (n : nat) (x : Z) (cell : Z -> Pos) path :
  push_cells n x (-1) cell path
  = path ++ (cell <$> reverse (seqZ (x - Z.of_nat n + 1) (Z.of_nat n))).
Proof.
  rewrite push_cells_spec, reverse_seqZ, <- list_fmap_compose. f_equal.
  apply list_fmap_ext. intros. unfold compose. f_equal. lia.
Qed.

(** A loop [for (x = from + step; x !== to + step; x += step)] pushes the
    cells between [from] and [to]. *)
Lemma for_until_between (from to : Z) (cell : Z -> Pos) path :
  from <> to ->
  let step := if from <? to then 1 else -1 in
  for_until (from + step) (to + step) step cell path
  = path ++ (cell <$> cells_between from to).
Proof.
  intros Hne step. subst step. unfold for_until, cells_between.
  destruct (from <? to) eqn:Hlt.
  - apply Z.ltb_lt in Hlt. rewrite push_cells_forward. do 3 f_equal.
    rewrite Zabs2Nat.id_abs. lia.
  - apply Z.ltb_ge in Hlt.
    rewrite push_cells_backward, Zabs2Nat.id_abs.
    replace (Z.abs (to + -1 - (from + -1))) with (from - to) by lia.
    replace (from + -1 - (from - to) + 1) with to by lia. reflexivity.
Qed.

Lemma cells_between_same (x : Z) : cells_between x x = [].
Proof.
  unfold cells_between. rewrite Z.ltb_irrefl, Z.sub_diag. reflexivity.
Qed.

Lemma cells_between_same_eq (x y : Z) : x = y -> cells_between x y = [].
Proof. intros ->. apply cells_between_same. Qed.

Lemma cells_up_none (from to : Z) : from <= to -> cells_up from to = [].
Proof.
  intros H. unfold cells_up, seqZ.
  replace (Z.to_nat (from - to)) with 0%nat by lia. reflexivity.
Qed.

End Paths.

(** The four loops push the four legs, one after the other. *)
Lemma computeSimplePath_legs (r c corridor r1 c1 row0 : Z) :
  PathfindingEngine.computeSimplePath (r, c) corridor (r1, c1) row0
  = ((fun rr => (rr, c)) <$> cells_between r row0) ++
    ((fun cc => (row0, cc)) <$> cells_between c corridor) ++
    ((fun rr => (rr, corridor)) <$> cells_up row0 r1) ++
    ((fun cc => (r1, cc)) <$> cells_between corridor c1).
Proof.
  unfold PathfindingEngine.computeSimplePath,
    PathfindingEngine.computeSimplePath_try.
  (* leg 1 *)
  assert (H1 : (if negb (r =? row0)
                then PathfindingEngine.for_until
                       (r + (if row0 <? r then -1 else 1))
                       (row0 + (if row0 <? r then -1 else 1))
                       (if row0 <? r then -1 else 1)
                       (fun rr => (rr, c)) []
                else [])
               = (fun rr => (rr, c)) <$> cells_between r row0).
  { destruct (r =? row0) eqn:E; cbn [negb].
    - apply Z.eqb_eq in E as ->. by rewrite cells_between_same.
    - apply Z.eqb_neq in E.
      pose proof (for_until_between r row0 (fun rr => (rr, c)) [] E) as H.
      cbv zeta in H. revert H.
      destruct (Z.ltb_spec row0 r), (Z.ltb_spec r row0); try lia;
        intros Hleg; exact Hleg. }
  rewrite H1. clear H1.
  set (p1 := (fun rr => (rr, c)) <$> cells_between r row0).
  (* leg 2 *)
  assert (H2 : (if negb (c =? corridor)
                then PathfindingEngine.for_until
                       (c + (if c <? corridor then 1 else -1))
                       (corridor + (if c <? corridor then 1 else -1))
                       (if c <? corridor then 1 else -1)
                       (fun cc => (row0, cc)) p1
                else p1)
               = p1 ++ ((fun cc => (row0, cc)) <$> cells_between c corridor)).
  { destruct (c =? corridor) eqn:E; cbn [negb].
    - apply Z.eqb_eq in E as ->.
      by rewrite cells_between_same, app_nil_r.
    - apply Z.eqb_neq in E.
      exact (for_until_between c corridor (fun cc => (row0, cc)) p1 E). }
  rewrite H2. clear H2.
  set (p2 := p1 ++ _).
  (* leg 3 *)
  assert (H3 : (if r1 <? row0
                then PathfindingEngine.push_cells (Z.to_nat (row0 - r1))
                       (row0 - 1) (-1) (fun rr => (rr, corridor)) p2
                else p2)
               = p2 ++ ((fun rr => (rr, corridor)) <$> cells_up row0 r1)).
  { destruct (r1 <? row0) eqn:E.
    - apply Z.ltb_lt in E. rewrite push_cells_backward. unfold cells_up.
      rewrite Z2Nat.id by lia.
      replace (row0 - 1 - (row0 - r1) + 1) with r1 by lia. reflexivity.
    - apply Z.ltb_ge in E. rewrite cells_up_none by lia.
      by rewrite app_nil_r. }
  rewrite H3. clear H3.
  set (p3 := p2 ++ _).
  (* leg 4 *)
  assert (H4 : (if negb (corridor =? c1)
                then PathfindingEngine.for_until
                       (corridor + (if corridor <? c1 then 1 else -1))
                       (c1 + (if corridor <? c1 then 1 else -1))
                       (if corridor <? c1 then 1 else -1)
                       (fun cc => (r1, cc)) p3
                else p3)
               = p3 ++ ((fun cc => (r1, cc)) <$> cells_between corridor c1)).
  { destruct (corridor =? c1) eqn:E; cbn [negb].
    - apply Z.eqb_eq in E as ->.
      by rewrite cells_between_same, app_nil_r.
    - apply Z.eqb_neq in E.
      exact (for_until_between corridor c1 (fun cc => (r1, cc)) p3 E). }
  rewrite H4. subst p3 p2 p1. by rewrite <- !app_assoc.
Qed.

(** C6. [computeSimplePath] returns the concatenation of four legs, in
    this order: the cells from the spawn row to the turn row along the
    spawn's column; the cells from the spawn's column to the corridor
    column along the turn row; the cells above the turn row up to the
    seat's row along the corridor column; the cells from the corridor
    column to the seat's column along the seat's row.  A leg is empty when
    its start coordinate equals its end coordinate (the third one whenever
    the seat's row is not above the turn row).  The [try] block cannot fail
    on integer coordinates, and a failure would yield the empty path. *)
Theorem computeSimplePath_four_legs (r c corridor r1 c1 row0 : Z) :
  let leg1 := (fun rr => (rr, c)) <$> cells_between r row0 in
  let leg2 := (fun cc => (row0, cc)) <$> cells_between c corridor in
  let leg3 := (fun rr => (rr, corridor)) <$> cells_up row0 r1 in
  let leg4 := (fun cc => (r1, cc)) <$> cells_between corridor c1 in
  PathfindingEngine.computeSimplePath (r, c) corridor (r1, c1) row0
    = leg1 ++ leg2 ++ leg3 ++ leg4 /\
  (r = row0 -> leg1 = []) /\
  (c = corridor -> leg2 = []) /\
  (row0 <= r1 -> leg3 = []) /\
  (corridor = c1 -> leg4 = []) /\
  PathfindingEngine.computeSimplePath_try (r, c) corridor (r1, c1) row0 <> None /\
  (PathfindingEngine.computeSimplePath_try (r, c) corridor (r1, c1) row0 = None ->
   PathfindingEngine.computeSimplePath (r, c) corridor (r1, c1) row0 = []).
Proof.
  intros leg1 leg2 leg3 leg4.
  split; [apply computeSimplePath_legs|repeat split].
  - intros ->. subst leg1. by rewrite cells_between_same.
  - intros ->. subst leg2. by rewrite cells_between_same.
  - intros H. subst leg3. by rewrite cells_up_none.
  - intros ->. subst leg4. by rewrite cells_between_same.
  - discriminate.
  - discriminate.
Qed.

(** The path of the first agent of the default layout: three cells up,
    nine to the left, six up and one to the right. *)
Example computeSimplePath_example :
  PathfindingEngine.computeSimplePath (19, 10) 1 (10, 2) 16
  = [(18, 10); (17, 10); (16, 10);
     (16, 9); (16, 8); (16, 7); (16, 6); (16, 5); (16, 4); (16, 3); (16, 2); (16, 1);
     (15, 1); (14, 1); (13, 1); (12, 1); (11, 1); (10, 1);
     (10, 2)].
Proof. reflexivity. Qed.


(** ** Random indices *)

Lemma Qfloor_eq_iff (x : Q) (k : Z) :
  Qfloor x = k <-> (inject_Z k <= x /\ x < inject_Z k + 1)%Q.
Proof.
  split.
  - intros <-. split; [apply Qfloor_le|].
    pose proof (Qlt_floor x) as H. rewrite inject_Z_plus in H. exact H.
  - intros [Hle Hlt].
    assert (k <= Qfloor x).
    { rewrite <- (Qfloor_Z k). by apply Qfloor_resp_le. }
    assert (Qfloor x < k + 1).
    { rewrite Zlt_Qlt, inject_Z_plus.
      eapply Qle_lt_trans; [apply Qfloor_le | exact Hlt]. }
    lia.
Qed.

(** [Math.floor(u * n)] is an index below [n] for a draw [u] in [0, 1). *)
Lemma Qfloor_index (u : Q) (n : Z) :
  (0 <= u)%Q -> (u < 1)%Q -> 0 < n -> 0 <= Qfloor (u * inject_Z n) < n.
Proof.
  intros Hu0 Hu1 Hn.
  assert (Hn' : (0 < inject_Z n)%Q).
  { change (inject_Z 0 < inject_Z n)%Q. rewrite <- Zlt_Qlt. exact Hn. }
  split.
  - rewrite <- (Qfloor_Z 0). apply Qfloor_resp_le.
    change (inject_Z 0) with 0%Q. apply Qmult_le_0_compat; lra.
  - rewrite Zlt_Qlt. eapply Qle_lt_trans; [apply Qfloor_le|].
    set (q := inject_Z n) in *. nra.
Qed.

Lemma random_index_spec (k : Z) (o : Oracle) (n : nat) :
  random_index k o n = (Qfloor (draw o n * inject_Z k), S n).
Proof. reflexivity. Qed.

Lemma at_index_Some {A} (l : list A) (i : Z) :
  0 <= i < Z.of_nat (length l) -> is_Some (at_index l i).
Proof.
  intros Hi. unfold at_index.
  destruct (Z.leb_spec 0 i); [|lia]. apply lookup_lt_is_Some. lia.
Qed.

Lemma at_index_elem_of {A} (l : list A) (i : Z) (x : A) :
  at_index l i = Some x -> x ∈ l.
Proof.
  unfold at_index. destruct (0 <=? i); [|discriminate].
  intros H. apply list_elem_of_lookup. eauto.
Qed.

(** ** Standing positions *)

Section Standing.

Import SeatSelectionEngine.

Variable grid : Grid.

Lemma foldl_option_None {A B} (f : option A -> B -> option A) (l : list B) :
  (forall b, f None b = None) -> foldl f None l = None.
Proof. intros Hf. induction l as [|b l IH]; simpl; [done | by rewrite Hf]. Qed.

Lemma elem_of_candidates_in (r : Z) (row : Row) (cols : list Z) (p : Pos) :
  p ∈ candidates_in r row cols <->
  exists c, p = (r, c) /\ c ∈ cols /\ can_stand (row_get row c) = true.
Proof.
  unfold candidates_in. rewrite list_elem_of_fmap.
  split; intros (c & -> & H); exists c; (split; [done|]).
  - apply list_elem_of_In, filter_In in H. by rewrite list_elem_of_In.
  - apply list_elem_of_In, filter_In. by rewrite <- list_elem_of_In.
Qed.

(** The scan of one row: it faults when the row is missing and there is
    a column to look at, and otherwise collects, in column order, the
    cells that pass the test. *)
Lemma standing_candidates_fold (r : Z) (cols : list Z) (acc : list Pos) :
  foldl (fun candidates c =>
           candidates ← candidates;
           cell ← grid_get grid r c;
           Some (if can_stand cell then candidates ++ [(r, c)] else candidates))
        (Some acc) cols
  = match cols, grid_row grid r with
    | [], _ => Some acc
    | _ :: _, None => None
    | _ :: _, Some row => Some (acc ++ candidates_in r row cols)
    end.
Proof.
  revert acc. induction cols as [|c cols IH]; intros acc; [done|].
  cbn [foldl]. unfold grid_get at 2.
  destruct (grid_row grid r) as [row|] eqn:Hrow; cbn [mbind option_bind].
  - rewrite IH. unfold candidates_in. cbn [List.filter].
    destruct cols as [|c' cols].
    + destruct (can_stand (row_get row c)); cbn; by rewrite ?app_nil_r.
    + destruct (can_stand (row_get row c)); cbn [fmap list_fmap];
        by rewrite <- ?app_assoc.
  - apply foldl_option_None. done.
Qed.

Lemma standing_candidates_fold_elem (r : Z) (cols : list Z) (cs : list Pos) :
  foldl (fun candidates c =>
           candidates ← candidates;
           cell ← grid_get grid r c;
           Some (if can_stand cell then candidates ++ [(r, c)] else candidates))
        (Some []) cols = Some cs ->
  forall p, p ∈ cs <->
    exists c cell, p = (r, c) /\ c ∈ cols /\
                   grid_get grid r c = Some cell /\ can_stand cell = true.
Proof.
  rewrite standing_candidates_fold. intros H p.
  destruct cols as [|c0 cols].
  - injection H as <-. split; [by intros ?%elem_of_nil|].
    intros (c & cell & _ & Hc & _). by apply elem_of_nil in Hc.
  - destruct (grid_row grid r) as [row|] eqn:Hrow; [|discriminate].
    injection H as <-. cbn [app].
    rewrite elem_of_candidates_in. split.
    + intros (c & -> & Hin & Hcan).
      exists c, (row_get row c). unfold grid_get. rewrite Hrow. done.
    + intros (c & cell & -> & Hc & Hget & Hcan).
      unfold grid_get in Hget. rewrite Hrow in Hget. injection Hget as <-.
      exists c. done.
Qed.

Lemma standing_candidates_spec (r : Z) (cs : list Pos) :
  standing_candidates grid r = Some cs ->
  exists row0, grid_row grid 0 = Some row0 /\
  forall p, p ∈ cs <->
    exists c cell, p = (r, c) /\ 0 <= c < row_length row0 /\
                   grid_get grid r c = Some cell /\ can_stand cell = true.
Proof.
  unfold standing_candidates.
  destruct (grid_row grid 0) as [row0|] eqn:Hrow0; [|discriminate].
  cbn [mbind option_bind]. intros H. exists row0. split; [done|].
  intros p. rewrite (standing_candidates_fold_elem _ _ _ H p).
  split; intros (c & cell & Hp & Hc & Hrest); exists c, cell;
    (split; [done|]); (split; [|done]).
  - apply elem_of_seqZ in Hc. lia.
  - apply elem_of_seqZ. lia.
Qed.

(** The scan over the rows passes the rows without candidates and stops at
    the first row that has one or that faults. *)
Lemma first_candidates_split (before after : list Z) (r : Z) :
  Forall (fun r' => standing_candidates grid r' = Some []) before ->
  first_candidates grid (before ++ r :: after)
  = match standing_candidates grid r with
    | None => None
    | Some [] => first_candidates grid after
    | Some cs => Some cs
    end.
Proof.
  induction 1 as [|r' before Hr' _ IH]; [done|].
  cbn [app first_candidates]. by rewrite Hr'.
Qed.

Lemma first_candidates_none (rows : list Z) :
  Forall (fun r' => standing_candidates grid r' = Some []) rows ->
  first_candidates grid rows = Some [].
Proof.
  induction 1 as [|r' rows Hr' _ IH]; [done|].
  cbn [first_candidates]. by rewrite Hr'.
Qed.

Lemma can_stand_spec (cell : option CellType) :
  can_stand cell = true <->
  cell <> Some SEAT /\ cell <> Some GATE /\
  cell <> Some SEATED_AGENT /\ cell <> Some STANDING.
Proof.
  unfold can_stand, cell_is. rewrite !andb_true_iff, !negb_true_iff.
  rewrite !bool_decide_eq_false. tauto.
Qed.

End Standing.

(** C8 (as amended). [findStandingPosition] scans the rows 19, 18, 17, 16,
    15, 14 in this order; the candidates of a row are its cells, within the
    width of row 0, that are not a seat, a gate, a seated agent or a
    standing agent; from the first row that has candidates it returns the
    candidate of index [floor(u * n)], every candidate being chosen on an
    interval of draws of length [1/n]; when no scanned row has a candidate
    it returns the cell of row [14 + floor(6 u)] and column
    [floor(u' * width)] for two further draws, a random cell of the back
    rows and not a fixed one; the fixed cell (18, 10) is returned only when
    the scan faults on a missing row. *)
Theorem findStandingPosition_scan (grid : Grid) (o : Oracle) (n0 : nat) :
  valid_oracle o ->
  let result := fst (SeatSelectionEngine.findStandingPosition grid o n0) in
  let u := draw o n0 in
  let u' := draw o (S n0) in
  SeatSelectionEngine.standing_rows = [19; 18; 17; 16; 15; 14] /\
  (forall r cs,
     SeatSelectionEngine.standing_candidates grid r = Some cs ->
     exists row0, grid_row grid 0 = Some row0 /\
       forall p, p ∈ cs <->
         exists c cell, p = (r, c) /\ 0 <= c < row_length row0 /\
           grid_get grid r c = Some cell /\
           cell <> Some SEAT /\ cell <> Some GATE /\
           cell <> Some SEATED_AGENT /\ cell <> Some STANDING) /\
  (forall before r after cs,
     SeatSelectionEngine.standing_rows = before ++ r :: after ->
     Forall (fun r' => SeatSelectionEngine.standing_candidates grid r' = Some [])
            before ->
     SeatSelectionEngine.standing_candidates grid r = Some cs -> cs <> [] ->
     let n := Z.of_nat (length cs) in
     let i := Qfloor (u * inject_Z n) in
     0 <= i < n /\ result = at_index cs i /\ (exists p, result = Some p /\ p ∈ cs) /\
     (forall k, i = k <->
                (inject_Z k <= u * inject_Z n /\ u * inject_Z n < inject_Z k + 1)%Q)) /\
  (Forall (fun r => SeatSelectionEngine.standing_candidates grid r = Some [])
          SeatSelectionEngine.standing_rows ->
   exists row0, grid_row grid 0 = Some row0 /\
     result = Some (14 + Qfloor (u * 6), Qfloor (u' * inject_Z (row_length row0))) /\
     14 <= 14 + Qfloor (u * 6) <= 19) /\
  (forall before r after,
     SeatSelectionEngine.standing_rows = before ++ r :: after ->
     Forall (fun r' => SeatSelectionEngine.standing_candidates grid r' = Some [])
            before ->
     SeatSelectionEngine.standing_candidates grid r = None ->
     result = Some (18, 10)).
Proof.
  intros Hvalid result u u'.
  destruct (Hvalid n0) as [Hu0 Hu1]. fold u in Hu0, Hu1.
  split; [reflexivity|]. split; [|split; [|split]].
  - intros r cs Hcs.
    destruct (standing_candidates_spec grid r cs Hcs) as (row0 & Hrow0 & Hp).
    exists row0. split; [done|]. intros p. rewrite Hp.
    split; intros (c & cell & H1 & H2 & H3 & H4); exists c, cell;
      repeat split; try tauto; try (by apply can_stand_spec in H4; tauto).
  - intros before r after cs Hrows Hbefore Hcs Hne n i.
    assert (Hn : 0 < n) by (subst n; destruct cs; [done | simpl; lia]).
    pose proof (Qfloor_index u n Hu0 Hu1 Hn) as Hi. fold i in Hi.
    assert (Hres : result = at_index cs i).
    { subst result. unfold SeatSelectionEngine.findStandingPosition.
      rewrite Hrows, (first_candidates_split grid before after r Hbefore), Hcs.
      destruct cs as [|p cs]; [done|]. reflexivity. }
    split; [done|]. split; [done|]. split.
    + destruct (at_index_Some cs i Hi) as [p Hp]. exists p.
      split; [congruence|]. by apply at_index_elem_of in Hp.
    + intros k. subst i. apply Qfloor_eq_iff.
  - intros Hall.
    assert (Hrow0 : exists row0, grid_row grid 0 = Some row0).
    { inversion Hall as [|r rows Hr _]; subst.
      destruct (standing_candidates_spec grid _ _ Hr) as (row0 & ? & _). eauto. }
    destruct Hrow0 as [row0 Hrow0]. exists row0. split; [done|].
    split.
    + subst result. unfold SeatSelectionEngine.findStandingPosition.
      rewrite (first_candidates_none grid _ Hall).
      unfold bind. rewrite random_index_spec, Hrow0. unfold bind.
      rewrite random_index_spec. reflexivity.
    + pose proof (Qfloor_index u 6 Hu0 Hu1 ltac:(lia)) as H6.
      change (inject_Z 6) with 6%Q in H6. lia.
  - intros before r after Hrows Hbefore Hfault.
    subst result. unfold SeatSelectionEngine.findStandingPosition.
    by rewrite Hrows, (first_candidates_split grid before after r Hbefore), Hfault.
Qed.

Lemma constant_oracle_valid (u : Q) :
  (0 <= u)%Q -> (u < 1)%Q -> valid_oracle (constant_oracle u).
Proof. intros H0 H1 n. done. Qed.

Lemma findStandingPosition_scan_witness :
  fst (SeatSelectionEngine.findStandingPosition
         (default [] (GridBuilder.buildGrid default_config))
         (constant_oracle (1 # 2)) 0%nat)
  = Some (19, 33).
Proof.
  pose proof (findStandingPosition_scan
                (default [] (GridBuilder.buildGrid default_config))
                (constant_oracle (1 # 2)) 0%nat) as H.
  destruct H as (_ & _ & H & _).
  - apply constant_oracle_valid; [discriminate | reflexivity].
  - specialize (H [] 19 [18; 17; 16; 15; 14]).
    edestruct H as (_ & Hres & _).
    + reflexivity.
    + constructor.
    + vm_compute. reflexivity.
    + discriminate.
    + rewrite Hres. vm_compute. reflexivity.
Defined.

(** On a full house no scanned row has a candidate, and the cell returned
    changes with the draws: there is no fixed fallback cell. *)
Lemma findStandingPosition_fallback_counterexample :
  Forall (fun r => SeatSelectionEngine.standing_candidates crowded_grid r = Some [])
         SeatSelectionEngine.standing_rows /\
  fst (SeatSelectionEngine.findStandingPosition crowded_grid
         (constant_oracle 0) 0%nat) = Some (14, 0) /\
  fst (SeatSelectionEngine.findStandingPosition crowded_grid
         (constant_oracle (1 # 2)) 0%nat) = Some (17, 34) /\
  ~ exists cell, forall o, valid_oracle o ->
      fst (SeatSelectionEngine.findStandingPosition crowded_grid o 0%nat)
      = Some cell.
Proof.
  assert (H0 : fst (SeatSelectionEngine.findStandingPosition crowded_grid
                      (constant_oracle 0) 0%nat) = Some (14, 0))
    by (vm_compute; reflexivity).
  assert (H1 : fst (SeatSelectionEngine.findStandingPosition crowded_grid
                      (constant_oracle (1 # 2)) 0%nat) = Some (17, 34))
    by (vm_compute; reflexivity).
  split; [|split; [done|split; [done|]]].
  - repeat constructor.
  - intros (cell & Hcell).
    pose proof (Hcell (constant_oracle 0)
                  (constant_oracle_valid 0 ltac:(discriminate) ltac:(reflexivity))) as E0.
    pose proof (Hcell (constant_oracle (1 # 2))
                  (constant_oracle_valid (1 # 2) ltac:(discriminate) ltac:(reflexivity))) as E1.
    rewrite H0 in E0. rewrite H1 in E1. congruence.
Qed.


(** ** Reasoning about computations that draw *)

Lemma bind_inv {A B} (m : Rand A) (k : A -> Rand B) (o : Oracle) (n : nat)
    (r : B * nat) :
  bind m k o n = r -> exists a n1, m o n = (a, n1) /\ k a o n1 = r.
Proof. unfold bind. destruct (m o n) as [a n1]. eauto. Qed.

Lemma ret_inv {A} (a : A) (o : Oracle) (n : nat) (r : A) (n' : nat) :
  ret a o n = (r, n') -> a = r /\ n = n'.
Proof. unfold ret. by intros [= <- <-]. Qed.

(** ** The weighted choice returns one of the items *)

Lemma weightedChoice_loop_elem {A} (items : list A) : forall weights rnd x,
  Utils.weightedChoice_loop rnd items weights = Some x -> x ∈ items.
Proof.
  induction items as [|y items IH]; intros [|w weights] rnd x; simpl;
    try discriminate.
  destruct (Qle_bool (rnd - w) 0).
  - intros [= <-]. by left.
  - intros H. right. eauto.
Qed.

Lemma weightedChoice_elem {A} (items : list A) (weights : list Q)
    (o : Oracle) (n n' : nat) (x : A) :
  Utils.weightedChoice items weights o n = (Some x, n') -> x ∈ items.
Proof.
  unfold Utils.weightedChoice.
  destruct (Qeq_bool (Utils.total_weight weights) 0).
  - intros [H _]%ret_inv. destruct items as [|y items]; [discriminate|].
    injection H as ->. by left.
  - intros H. apply bind_inv in H as (u & g1 & Hu & H).
    destruct (Utils.weightedChoice_loop _ items weights) as [y|] eqn:Hloop.
    + apply ret_inv in H as [[= <-] _].
      by apply weightedChoice_loop_elem in Hloop.
    + apply ret_inv in H as [H _].
      apply last_Some in H as [l' ->]. apply elem_of_app. right. by left.
Qed.

(** ** Seat selection *)

Section SeatSelection.

Import SeatSelectionEngine.

Variables (grid : Grid) (assigned : gset Pos) (config : Config).

Lemma seat_rows_range (r : Z) : r ∈ seat_rows <-> 6 <= r < 14.
Proof.
  unfold seat_rows, SIM_CONSTANTS.SEAT_ROWS_START, SIM_CONSTANTS.SEAT_ROWS_END.
  rewrite elem_of_seqZ. lia.
Qed.

Lemma availableRows_fold (c0 c1 rowThr : Z) (rs : list Z) : forall acc rows,
  foldl (fun rows r =>
           rows ← rows;
           occupancy ← rowOccupancy grid r c0 c1;
           if rowThr <=? occupancy then Some rows
           else found ← hasSeats grid assigned r c0 c1;
                Some (if found : bool then rows ++ [r] else rows))
        (Some acc) rs = Some rows ->
  forall r, r ∈ rows -> r ∈ acc \/ r ∈ rs.
Proof.
  induction rs as [|r0 rs IH]; intros acc rows; cbn [foldl].
  - intros [= <-] r Hr. by left.
  - cbn [mbind option_bind].
    destruct (rowOccupancy grid r0 c0 c1) as [occ|]; cbn [mbind option_bind];
      [|by rewrite foldl_option_None].
    destruct (rowThr <=? occ).
    + intros H r Hr. destruct (IH _ _ H r Hr); [by left | right; by right].
    + destruct (hasSeats grid assigned r0 c0 c1) as [found|];
        cbn [mbind option_bind]; [|by rewrite foldl_option_None].
      intros H r Hr. destruct (IH _ _ H r Hr) as [Hin | Hin].
      * destruct found; [|by left].
        apply elem_of_app in Hin as [Hin | Hin]; [by left|].
        apply list_elem_of_singleton in Hin as ->. right. by left.
      * right. by right.
Qed.

Lemma availableRows_range (c0 c1 rowThr : Z) (rows : list Z) (r : Z) :
  availableRows grid assigned c0 c1 rowThr = Some rows -> r ∈ rows ->
  6 <= r < 14.
Proof.
  intros H Hr. apply seat_rows_range.
  destruct (availableRows_fold _ _ _ _ _ _ H r Hr) as [Hin | Hin]; [|done].
  by apply elem_of_nil in Hin.
Qed.

Lemma elem_of_filter_list {A} (f : A -> bool) (l : list A) (x : A) :
  x ∈ List.filter f l <-> (x ∈ l) /\ f x = true.
Proof. by rewrite !list_elem_of_In, filter_In. Qed.

Lemma without_row_sub (excluded : option Z) (rows : list Z) (r : Z) :
  r ∈ without_row excluded rows -> r ∈ rows.
Proof.
  unfold without_row.
  destruct (List.filter _ rows) as [|r0 tmp] eqn:Hf; [done|].
  rewrite <- Hf. by intros [? _]%elem_of_filter_list.
Qed.

Lemma front_aversion_sub (rows rows' : list Z) (o : Oracle) (n n' : nat) (r : Z) :
  front_aversion config rows o n = (rows', n') -> r ∈ rows' -> r ∈ rows.
Proof.
  unfold front_aversion. intros H. apply bind_inv in H as (candidateRows & g1 & Hcand & H).
  assert (Hsub : forall r, r ∈ candidateRows -> r ∈ rows).
  { destruct (0 <? _).
    - destruct (List.filter _ rows) as [|r0 filtered] eqn:Hf.
      + apply ret_inv in Hcand as [<- _]. done.
      + apply bind_inv in Hcand as (b & g2 & Hb & Hcand). apply ret_inv in Hcand as [<- _].
        rewrite <- Hf. by intros r' [? _]%elem_of_filter_list.
    - apply ret_inv in Hcand as [<- _]. done. }
  destruct candidateRows as [|r0 cand] eqn:Hcr.
  { apply ret_inv in H as [<- _]. by intros ?%elem_of_nil. }
  rewrite <- Hcr in *. clear Hcr.
  apply bind_inv in H as (avoidFront & g2 & Hf & H). apply bind_inv in H as (avoidSecond & g3 & Hs & H).
  match type of H with
  | (if ?c then _ else _) _ _ = _ => destruct c
  end.
  - apply bind_inv in H as (b & g4 & Hb & H). apply ret_inv in H as [<- _].
    intros Hr. apply Hsub.
    destruct avoidSecond; [apply without_row_sub in Hr|];
      (destruct avoidFront; [by apply without_row_sub in Hr | done]).
  - apply ret_inv in H as [<- _]. apply Hsub.
Qed.

Lemma choose_row_elem (rows : list Z) (o : Oracle) (n n' : nat) (r : Z) :
  choose_row config rows o n = (Some r, n') -> r ∈ rows.
Proof.
  unfold choose_row. destruct (Qltb 0 (BACK_PREF config)); intros H.
  - apply bind_inv in H as (chosen & g1 & Hc & H). apply bind_inv in H as (b & g2 & Hb & H).
    apply ret_inv in H as [-> _]. by apply weightedChoice_elem in Hc.
  - apply bind_inv in H as (i & g1 & Hi & H). apply ret_inv in H as [H _].
    by apply at_index_elem_of in H.
Qed.

(** A seat that passes the test of the selection loops is a [SEAT] cell
    outside the assigned set. *)
Lemma seat_is_free_spec (r c : Z) (cell : option CellType) :
  seat_is_free assigned r c cell = true <->
  cell = Some SEAT /\ ((r, c) ∉ assigned).
Proof.
  unfold seat_is_free, cell_is.
  by rewrite andb_true_iff, !bool_decide_eq_true.
Qed.

Lemma collect_seats_spec (chosenRow c0 c1 : Z) (cols : list Z) :
  forall validSeats o n seats n',
    collect_seats grid assigned config chosenRow c0 c1 cols validSeats o n
    = (Some seats, n') ->
    forall p, p ∈ seats.*1 ->
      (p ∈ validSeats.*1) \/
      exists c, p = (chosenRow, c) /\ c ∈ cols /\
                grid_get grid chosenRow c = Some (Some SEAT) /\
                (chosenRow, c) ∉ assigned.
Proof.
  induction cols as [|c cols IH]; intros validSeats o n seats n';
    cbn [collect_seats].
  - intros [[= <-] _]%ret_inv p Hp. by left.
  - destruct (grid_get grid chosenRow c) as [cell|] eqn:Hcell;
      [|by intros [? _]%ret_inv].
    destruct (seat_is_free assigned chosenRow c cell) eqn:Hfree.
    + apply seat_is_free_spec in Hfree as [-> Hfree].
      destruct (countAdjacentSeated grid (chosenRow, c)) as [adj|];
        [|by intros [? _]%ret_inv].
      intros H p Hp. apply bind_inv in H as (b & g1 & Hb & H).
      destruct (IH _ _ _ _ _ H p Hp) as [Hin | (c' & -> & Hc' & Hrest)].
      * rewrite fmap_app in Hin. apply elem_of_app in Hin as [Hin | Hin];
          [by left|]. apply list_elem_of_singleton in Hin as ->.
        right. exists c. repeat split; try done. by left.
      * right. exists c'. repeat split; try tauto. by right.
    + intros H p Hp.
      destruct (IH _ _ _ _ _ H p Hp) as [Hin | (c' & -> & Hc' & Hrest)];
        [by left|].
      right. exists c'. repeat split; try tauto. by right.
Qed.

(** What [pickSeatInBlock] returns is a [SEAT] cell of a seat row that is
    not in the assigned set. *)
Lemma pickSeatInBlock_spec (block : option Z) (seatBlocks : list (Z * Z))
    (rowThr : Z) (o : Oracle) (n n' : nat) (s : Pos) :
  pickSeatInBlock grid block assigned seatBlocks config rowThr o n = (Some s, n') ->
  (s ∉ assigned) /\ grid_get grid (fst s) (snd s) = Some (Some SEAT) /\
  6 <= fst s < 14.
Proof.
  unfold pickSeatInBlock.
  destruct (block ≫= at_index seatBlocks) as [[c0 c1]|];
    [|by intros [? _]%ret_inv].
  destruct (availableRows grid assigned c0 c1 rowThr) as [[|r0 rows]|] eqn:Hrows;
    [by intros [? _]%ret_inv | | by intros [? _]%ret_inv].
  intros H. apply bind_inv in H as (candidateRows & g1 & Hcand & H). apply bind_inv in H as (chosenRow & g2 & Hrow & H).
  destruct chosenRow as [chosenRow|]; [|by apply ret_inv in H as [? _]].
  apply bind_inv in H as (validSeats & g3 & Hseats & H).
  destruct validSeats as [[|v validSeats]|];
    [by apply ret_inv in H as [? _] | | by apply ret_inv in H as [? _]].
  apply bind_inv in H as (chosenSeat & g4 & Hchosen & H).
  apply bind_inv in H as (b & g5 & Hb & H).
  apply ret_inv in H as [-> _].
  apply weightedChoice_elem in Hchosen.
  destruct (collect_seats_spec _ _ _ _ _ _ _ _ _ Hseats s Hchosen)
    as [Hin | (c & -> & Hc & Hcell & Hfree)]; [by apply elem_of_nil in Hin|].
  split; [done|]. split; [done|]. cbn [fst].
  apply choose_row_elem in Hrow.
  assert (chosenRow ∈ r0 :: rows) as Hin.
  { destruct (Qltb 0 (BACK_PREF config)).
    - eapply front_aversion_sub; eauto.
    - apply ret_inv in Hcand as [<- _]. done. }
  eapply availableRows_range; eauto.
Qed.

Lemma try_blocks_spec (seatBlocks : list (Z * Z)) (rowThr : Z)
    (blocks : list Z) : forall o n n' b s,
  try_blocks grid assigned seatBlocks config rowThr blocks o n = (Some (b, s), n') ->
  (s ∉ assigned) /\ grid_get grid (fst s) (snd s) = Some (Some SEAT) /\
  6 <= fst s < 14.
Proof.
  induction blocks as [|b0 blocks IH]; intros o n n' b s; cbn [try_blocks].
  - by intros [? _]%ret_inv.
  - intros H. apply bind_inv in H as (s0 & g1 & Hs0 & H). destruct s0 as [s0|].
    + apply ret_inv in H as [[= <- <-] _].
      by apply pickSeatInBlock_spec in Hs0.
    + eauto.
Qed.

Lemma pickSeatAnyBlock_spec (seatBlocks : list (Z * Z)) (rowThr : Z)
    (o : Oracle) (n n' : nat) (b : Z) (s : Pos) :
  pickSeatAnyBlock grid assigned seatBlocks config rowThr o n = (Some (b, s), n') ->
  (s ∉ assigned) /\ grid_get grid (fst s) (snd s) = Some (Some SEAT) /\
  6 <= fst s < 14.
Proof.
  unfold pickSeatAnyBlock. intros H. apply bind_inv in H as (blocks & g1 & Hb & H).
  by apply try_blocks_spec in H.
Qed.

End SeatSelection.


(** ** The constructor of an agent *)

Section AgentConstructor.

Variables (grid : Grid) (spawn : Pos) (assigned : gset Pos)
  (seatBlocks : list (Z * Z)) (blockToCorridorCells : list (list (list Z)))
  (config : Config) (gates : list Pos).

Lemma take_seat_spec (block : option Z) (s : Pos) (o : Oracle) (n n' : nat)
    (a : Agent.t) (assigned' : gset Pos) :
  Agent.take_seat spawn assigned blockToCorridorCells config block s o n
  = (Some (a, assigned'), n') ->
  Agent.pos a = spawn /\ Agent.seated a = false /\ Agent.standing a = false /\
  Agent.willStand a = false /\ Agent.seat a = Some s /\
  assigned' = (if FEATURE_ASSIGNED_SEATS config then {[s]} ∪ assigned
               else assigned) /\
  Agent.path a
  = PathfindingEngine.computeSimplePath spawn (Agent.corridor a) s (Agent.row0 a) /\
  exists n1, Agent.row0 a = 16 + Qfloor (draw o n1 * 4).
Proof.
  unfold Agent.take_seat. intros H.
  apply bind_inv in H as (corridor & n1 & Hc & H).
  apply bind_inv in H as (k & n2 & Hk & H).
  rewrite random_index_spec in Hk. injection Hk as <- <-.
  destruct corridor as [corridor|]; [|by apply ret_inv in H as [? _]].
  apply ret_inv in H as [[= <- <-] _]. cbn.
  repeat split; try done. by exists n1.
Qed.

Lemma stand_in_back_spec (block : option Z) (o : Oracle) (n n' : nat)
    (a : Agent.t) :
  Agent.stand_in_back grid spawn config block o n = (a, n') ->
  Agent.pos a = spawn /\ Agent.seated a = false /\
  ((exists t, SeatSelectionEngine.findStandingPosition grid o n = (Some t, n') /\
              Agent.seat a = Some t /\ Agent.willStand a = true /\
              Agent.standing a = false /\
              Agent.path a = PathfindingEngine.computeSimplePath
                               spawn (CORRIDOR_WIDTH config) t 19) \/
   (SeatSelectionEngine.findStandingPosition grid o n = (None, n') /\
    Agent.seat a = None /\ Agent.willStand a = false /\
    Agent.standing a = true /\ Agent.path a = [])).
Proof.
  unfold Agent.stand_in_back. intros H.
  apply bind_inv in H as (standPos & n1 & Hs & H).
  destruct standPos as [t|]; apply ret_inv in H as [<- <-]; cbn;
    (split; [done|]); (split; [done|]); [left | right]; eauto 10.
Qed.

(** The constructor returns an agent bound for a free seat, which it
    reserves when the flag is set, or an agent bound for a standing
    position. *)
Lemma constructor_spec (o : Oracle) (n n' : nat) (a : Agent.t)
    (assigned' : gset Pos) :
  Agent.constructor grid spawn assigned seatBlocks blockToCorridorCells config
                    gates o n = (Some (a, assigned'), n') ->
  (exists block s n1,
     ((s ∉ assigned) /\ grid_get grid (fst s) (snd s) = Some (Some SEAT) /\
      6 <= fst s < 14) /\
     Agent.take_seat spawn assigned blockToCorridorCells config block s o n1
     = (Some (a, assigned'), n')) \/
  (exists block n1,
     Agent.stand_in_back grid spawn config block o n1 = (a, n') /\
     assigned' = assigned).
Proof.
  unfold Agent.constructor. intros H.
  apply bind_inv in H as (block & n1 & Hb & H).
  apply bind_inv in H as (seat & n2 & Hs & H).
  destruct seat as [s|].
  - left. apply pickSeatInBlock_spec in Hs. eauto 10.
  - apply bind_inv in H as (bs & n3 & Hbs & H).
    destruct bs as [[b s]|].
    + left. apply pickSeatAnyBlock_spec in Hbs. eauto 10.
    + right. apply bind_inv in H as (a' & n4 & Ha & H).
      apply ret_inv in H as [[= <- <-] <-]. eauto.
Qed.

Lemma constructor_not_seated (o : Oracle) (n n' : nat) (a : Agent.t)
    (assigned' : gset Pos) :
  Agent.constructor grid spawn assigned seatBlocks blockToCorridorCells config
                    gates o n = (Some (a, assigned'), n') ->
  Agent.seated a = false.
Proof.
  intros [(block & s & n1 & _ & H) | (block & n1 & H & _)]%constructor_spec.
  - apply take_seat_spec in H. tauto.
  - apply stand_in_back_spec in H. tauto.
Qed.

End AgentConstructor.

(** ** The steps of [update] *)

Section UpdateSteps.

Import SimulationEngine.

(** What one iteration of the spawn loop does. *)
Lemma spawn_at_cases (gate : Pos) (e : t) (occupied : gset Pos) (o : Oracle)
    (n n' : nat) (out : Outcome (t * gset Pos)) :
  spawn_at gate (e, occupied) o n = (out, n') ->
  out = Normal (e, occupied) \/
  out = Hung \/
  exists a assigned',
    spawned e < NUM_AGENTS (config e) /\
    Agent.constructor (grid_of e) gate (assigned e) (seatBlocks e)
      (blockToCorridorCells e) (modifiedConfig (config e) (spawned e))
      (gates e) o n = (Some (a, assigned'), n') /\
    let e1 := with_spawn e a assigned' in
    let occupied1 := {[gate]} ∪ occupied in
    match (if Agent.willStand a then Agent.seat a else None) with
    | Some dest =>
        match grid e ≫= fun g => grid_set g (fst dest) (snd dest) STANDING with
        | Some g => out = Normal (with_grid e1 g, occupied1)
        | None => out = Threw (e1, occupied1)
        end
    | None => out = Normal (e1, occupied1)
    end.
Proof.
  unfold spawn_at.
  destruct (spawned e <? NUM_AGENTS (config e)) eqn:Hlt; cbn [andb];
    [|intros [<- _]%ret_inv; by left].
  destruct (bool_decide (gate ∉ occupied)); [|intros [<- _]%ret_inv; by left].
  intros H. apply bind_inv in H as (built & n1 & Hbuilt & H).
  destruct built as [[a assigned']|].
  - right. right. exists a, assigned'. split; [lia|].
    assert (n1 = n') as ->.
    { destruct (if Agent.willStand a then Agent.seat a else None);
        [destruct (_ ≫= _)|]; by apply ret_inv in H as [_ ?]. }
    split; [done|]. cbn zeta.
    destruct (if Agent.willStand a then Agent.seat a else None) as [dest|];
      cbn [with_spawn grid] in *.
    + destruct (grid e ≫= _); by apply ret_inv in H as [<- _].
    + by apply ret_inv in H as [<- _].
  - apply ret_inv in H as [<- _]. right. by left.
Qed.

(** A property that every iteration of the spawn loop keeps holds after
    the loop. *)
Lemma spawn_loop_keeps (I : t -> Prop) (o : Oracle) :
  (forall gate e occupied n out n',
     I e -> spawn_at gate (e, occupied) o n = (out, n') -> outcome_sat I out) ->
  forall gates e occupied n out n',
    I e -> spawn_loop gates (e, occupied) o n = (out, n') -> outcome_sat I out.
Proof.
  intros Hstep gates.
  induction gates as [|gate gates IH]; intros e occupied n out n' HI;
    cbn [spawn_loop].
  - intros [<- _]%ret_inv. exact HI.
  - intros H. apply bind_inv in H as (out1 & n1 & Hout1 & H).
    pose proof (Hstep _ _ _ _ _ _ HI Hout1) as HI1.
    destruct out1 as [[e1 occ1] | [e1 occ1] |].
    + eapply IH; eauto.
    + apply ret_inv in H as [<- _]. exact HI1.
    + apply ret_inv in H as [<- _]. exact Logic.I.
Qed.

(** What a call of [update] that returns does to the engine. *)
Lemma update_cases (e e' : t) (o : Oracle) (n n' : nat) (res : Result) :
  update e o n = (Some (e', res), n') ->
  (completed e = true /\ e' = e) \/
  (exists e1 occupied1,
     spawn_loop (gates e) (e, occupied_positions (agents e)) o n
     = (Threw (e1, occupied1), n') /\ e' = fail e1) \/
  (exists e1 occupied1 agents' g',
     spawn_loop (gates e) (e, occupied_positions (agents e)) o n
     = (Normal (e1, occupied1), n') /\
     update_agents (agents e1) (grid_of e1) = (agents', g') /\
     config e' = config e1 /\ grid e' = option_map (fun _ => g') (grid e1) /\
     agents e' = agents' /\ spawned e' = spawned e1 /\
     assigned e' = assigned e1 /\ gates e' = gates e1 /\
     seatBlocks e' = seatBlocks e1 /\
     blockToCorridorCells e' = blockToCorridorCells e1).
Proof.
  unfold update. destruct (completed e) eqn:Hc.
  - intros [[= <- _] _]%ret_inv. by left.
  - intros H. apply bind_inv in H as (out & n1 & Hout & H). right.
    destruct out as [[e1 occ1] | [e1 occ1] |].
    + right. destruct (update_agents (agents e1) (grid_of e1)) as [agents' g'] eqn:Hu.
      apply ret_inv in H as [[= <- _] <-]. cbn. eauto 15.
    + left. apply ret_inv in H as [[= <- _] <-]. eauto.
    + by apply ret_inv in H as [? _].
Qed.

End UpdateSteps.


(** ** Runs *)

Lemma run_reachable (cfg : Config) (o : Oracle) (ticks : nat) :
  valid_oracle o ->
  forall e n e' n',
    reachable cfg e -> run ticks e o n = Some (e', n') -> reachable cfg e'.
Proof.
  intros Ho. induction ticks as [|ticks IH]; intros e n e' n' He; cbn [run].
  - by intros [= <- _].
  - destruct (SimulationEngine.update e o n) as [[[e1 res]|] n1] eqn:Hu;
      [|discriminate].
    intros H. eapply IH; [|exact H]. eapply reachable_update; eauto.
Qed.

Lemma sample_run_reachable (cfg : Config) (u : Q) (ticks : nat)
    (e : SimulationEngine.t) :
  valid_oracle (constant_oracle u) ->
  sample_run cfg u ticks = Some e -> reachable cfg e.
Proof.
  intros Ho. unfold sample_run.
  destruct (run ticks _ _ _) as [[e' n']|] eqn:Hrun; [|discriminate].
  intros [= <-]. eapply run_reachable; [exact Ho| |exact Hrun].
  apply reachable_initialize, reachable_new.
Qed.

Lemma run_returns_Some (cfg : Config) (u : Q) (ticks : nat) :
  run_returns cfg u ticks = true -> exists e, sample_run cfg u ticks = Some e.
Proof.
  unfold run_returns. destruct (sample_run cfg u ticks) as [e|]; [|discriminate].
  intros _. by exists e.
Qed.

Lemma zero_oracle_valid : valid_oracle (constant_oracle 0).
Proof. apply constant_oracle_valid; [discriminate | reflexivity]. Qed.

Lemma half_oracle_valid : valid_oracle (constant_oracle (1 # 2)).
Proof. apply constant_oracle_valid; [discriminate | reflexivity]. Qed.

(** ** The three states of an agent *)

Section Counts.

Import SimulationEngine.

Lemma agent_update_exclusive (a : Agent.t) (g : Grid) :
  Agent.seated a && Agent.standing a = false ->
  Agent.seated (fst (Agent.update a g)) && Agent.standing (fst (Agent.update a g))
  = false.
Proof.
  intros Hex. unfold Agent.update.
  destruct (Agent.seated a) eqn:Hs, (Agent.standing a) eqn:Ht;
    cbn [orb fst]; try by rewrite ?Hs, ?Ht.
  destruct (Agent.path a); [|cbn; by rewrite ?Hs, ?Ht].
  destruct (Agent.willStand a); [cbn; by rewrite ?Hs, ?Ht|].
  destruct (grid_get g _ _) as [cell|]; [|cbn; by rewrite ?Hs, ?Ht].
  destruct (cell_is SEAT cell); cbn; by rewrite ?Hs, ?Ht.
Qed.

Lemma update_agents_map (agents : list Agent.t) : forall g agents' g',
  update_agents agents g = (agents', g') ->
  length agents' = length agents /\
  (Forall (fun a => Agent.seated a && Agent.standing a = false) agents ->
   Forall (fun a => Agent.seated a && Agent.standing a = false) agents').
Proof.
  induction agents as [|a agents IH]; intros g agents' g'; cbn [update_agents].
  - intros [= <- _]. done.
  - destruct (if Agent.moving a then Agent.update a g else (a, g))
      as [a1 g1] eqn:Ha.
    destruct (update_agents agents g1) as [rest g2] eqn:Hrest.
    intros [= <- _]. destruct (IH _ _ _ Hrest) as [Hlen Hall].
    split; [simpl; lia|]. intros Hex. inversion Hex as [|? ? Hex_a Hex_rest]; subst.
    constructor; [|by apply Hall].
    destruct (Agent.moving a).
    + pose proof (agent_update_exclusive a g Hex_a) as H. by rewrite Ha in H.
    + by injection Ha as <- _.
Qed.

Lemma counts_sum (agents : list Agent.t) :
  Forall (fun a => Agent.seated a && Agent.standing a = false) agents ->
  count Agent.seated agents + count Agent.standing agents
  + count Agent.moving agents = Z.of_nat (length agents).
Proof.
  unfold count. induction 1 as [|a agents Ha _ IH]; [done|].
  cbn [List.filter length]. unfold Agent.moving at 1.
  destruct (Agent.seated a), (Agent.standing a); try discriminate;
    cbn [negb andb length]; lia.
Qed.

Lemma counts_consistent_spawn_at (o : Oracle) (gate : Pos) (e : t)
    (occupied : gset Pos) (n : nat) (out : Outcome (t * gset Pos)) (n' : nat) :
  counts_consistent e -> spawn_at gate (e, occupied) o n = (out, n') ->
  outcome_sat counts_consistent out.
Proof.
  intros [Hlen Hex] H.
  apply spawn_at_cases in H
    as [-> | [-> | (a & assigned' & Hlt & Hbuilt & H)]]; try done.
  assert (Hnew : counts_consistent (with_spawn e a assigned')).
  { split; cbn [with_spawn agents spawned].
    - rewrite length_app. simpl. lia.
    - apply Forall_app. split; [done|]. constructor; [|done].
      by rewrite (constructor_not_seated _ _ _ _ _ _ _ _ _ _ _ _ Hbuilt). }
  cbn zeta in H.
  destruct (if Agent.willStand a then Agent.seat a else None) as [dest|];
    [destruct (grid e ≫= _)|]; subst out; exact Hnew.
Qed.

Lemma counts_consistent_reachable (cfg : Config) (e : t) :
  reachable cfg e -> counts_consistent e.
Proof.
  induction 1 as [|e He IH|e e' o n n' res He IH Ho Hu].
  - split; [done | constructor].
  - unfold initialize. destruct (GridBuilder.buildGrid (config e));
      [split; [done | constructor] | exact IH].
  - apply update_cases in Hu
      as [[_ ->] | [(e1 & occ1 & Hloop & ->)
                   | (e1 & occ1 & agents' & g' & Hloop & Hagents & Heq)]].
    + exact IH.
    + exact (spawn_loop_keeps counts_consistent o
               (counts_consistent_spawn_at o) _ _ _ _ _ _ IH Hloop).
    + pose proof (spawn_loop_keeps counts_consistent o
                    (counts_consistent_spawn_at o) _ _ _ _ _ _ IH Hloop)
        as [Hlen Hex].
      destruct Heq as (_ & _ & Ha & Hs & _).
      destruct (update_agents_map _ _ _ _ Hagents) as [Hlen' Hex'].
      split; rewrite Ha, ?Hs; [lia | by apply Hex'].
Qed.

End Counts.

(** C1. In every state a run reaches, in particular at the end of every
    [update()], the seated, the standing and the moving agents add up to
    the counter of spawned agents, and every agent is in exactly one of
    the three states. *)
Theorem counts_partition (cfg : Config) (e : SimulationEngine.t) :
  reachable cfg e ->
  let stats := SimulationEngine.getStats e in
  SimulationEngine.stats_seated stats + SimulationEngine.stats_standing stats
  + SimulationEngine.stats_moving stats = SimulationEngine.stats_spawned stats /\
  forall a, a ∈ SimulationEngine.agents e ->
    (Agent.seated a = true /\ Agent.standing a = false /\ Agent.moving a = false) \/
    (Agent.seated a = false /\ Agent.standing a = true /\ Agent.moving a = false) \/
    (Agent.seated a = false /\ Agent.standing a = false /\ Agent.moving a = true).
Proof.
  intros [Hlen Hex]%counts_consistent_reachable stats. split.
  - subst stats. cbn. rewrite counts_sum by done. exact Hlen.
  - intros a Ha. rewrite Forall_forall in Hex. specialize (Hex a Ha).
    unfold Agent.moving.
    destruct (Agent.seated a), (Agent.standing a); try discriminate; tauto.
Qed.

Lemma counts_partition_witness :
  exists e, sample_run default_config (1 # 2) 3 = Some e /\
    let stats := SimulationEngine.getStats e in
    SimulationEngine.stats_seated stats + SimulationEngine.stats_standing stats
    + SimulationEngine.stats_moving stats = SimulationEngine.stats_spawned stats.
Proof.
  assert (Hret : run_returns default_config (1 # 2) 3 = true)
    by (vm_compute; reflexivity).
  destruct (run_returns_Some _ _ _ Hret) as [e Hrun].
  exists e. split; [exact Hrun|].
  apply (counts_partition default_config e).
  exact (sample_run_reachable _ _ _ _ half_oracle_valid Hrun).
  Defined.


(** ** The assigned-seat set *)

Section Assigned.

Import SimulationEngine.

(** The configuration object of an engine is the one it was built with. *)
Lemma spawn_at_config (cfg : Config) (o : Oracle) (gate : Pos) (e : t)
    (occupied : gset Pos) (n : nat) (out : Outcome (t * gset Pos)) (n' : nat) :
  config e = cfg -> spawn_at gate (e, occupied) o n = (out, n') ->
  outcome_sat (fun e => config e = cfg) out.
Proof.
  intros Hcfg H.
  apply spawn_at_cases in H
    as [-> | [-> | (a & assigned' & Hlt & Hbuilt & H)]]; try done.
  cbn zeta in H.
  destruct (if Agent.willStand a then Agent.seat a else None) as [dest|];
    [destruct (grid e ≫= _)|]; subst out; exact Hcfg.
Qed.

Lemma reachable_config (cfg : Config) (e : t) : reachable cfg e -> config e = cfg.
Proof.
  induction 1 as [|e He IH|e e' o n n' res He IH Ho Hu].
  - done.
  - unfold initialize. by destruct (GridBuilder.buildGrid (config e)).
  - apply update_cases in Hu
      as [[_ ->] | [(e1 & occ1 & Hloop & ->)
                   | (e1 & occ1 & agents' & g' & Hloop & Hagents & Heq)]].
    + exact IH.
    + exact (spawn_loop_keeps (fun e => config e = cfg) o
               (spawn_at_config cfg o) _ _ _ _ _ _ IH Hloop).
    + destruct Heq as (-> & _).
      exact (spawn_loop_keeps (fun e => config e = cfg) o
               (spawn_at_config cfg o) _ _ _ _ _ _ IH Hloop).
Qed.

Lemma modifiedConfig_flag (cfg : Config) (k : Z) :
  FEATURE_ASSIGNED_SEATS (modifiedConfig cfg k) = FEATURE_ASSIGNED_SEATS cfg.
Proof. reflexivity. Qed.

(** [update] changes neither the destination of an agent nor its
    [willStand] flag. *)
Lemma agent_update_seat (a : Agent.t) (g : Grid) :
  Agent.seat (fst (Agent.update a g)) = Agent.seat a /\
  Agent.willStand (fst (Agent.update a g)) = Agent.willStand a.
Proof.
  unfold Agent.update.
  destruct (_ || _); [done|]. destruct (Agent.path a); [|done].
  destruct (Agent.willStand a) eqn:Hw; [by rewrite <- Hw|].
  destruct (grid_get g _ _) as [cell|]; [|by rewrite <- Hw].
  destruct (cell_is SEAT cell); by rewrite <- Hw.
Qed.

Lemma promised_seats_app (l1 l2 : list Agent.t) :
  promised_seats (l1 ++ l2) = promised_seats l1 ++ promised_seats l2.
Proof. unfold promised_seats. apply omap_app. Qed.

Lemma promised_seats_cons (a : Agent.t) (l : list Agent.t) :
  promised_seats (a :: l) = promised_seats [a] ++ promised_seats l.
Proof. exact (promised_seats_app [a] l). Qed.

Lemma update_agents_promised (agents : list Agent.t) : forall g agents' g',
  update_agents agents g = (agents', g') ->
  promised_seats agents' = promised_seats agents.
Proof.
  induction agents as [|a agents IH]; intros g agents' g'; cbn [update_agents].
  - by intros [= <- _].
  - destruct (if Agent.moving a then Agent.update a g else (a, g))
      as [a1 g1] eqn:Ha.
    destruct (update_agents agents g1) as [rest g2] eqn:Hrest.
    intros [= <- _].
    rewrite (promised_seats_cons a1), (promised_seats_cons a), (IH _ _ _ Hrest).
    f_equal.
    assert (Agent.seat a1 = Agent.seat a /\
            Agent.willStand a1 = Agent.willStand a) as [Hs Hw].
    { destruct (Agent.moving a).
      - pose proof (agent_update_seat a g) as H. by rewrite Ha in H.
      - by injection Ha as <- _. }
    unfold promised_seats. simpl. by rewrite Hs, Hw.
Qed.

(** What the constructor does to the seats promised so far and to the
    assigned set. *)
Lemma constructor_promised (grid : Grid) (spawn : Pos) (assigned : gset Pos)
    (seatBlocks : list (Z * Z)) (blockToCorridorCells : list (list (list Z)))
    (cfg : Config) (gates : list Pos) (o : Oracle) (n n' : nat)
    (a : Agent.t) (assigned' : gset Pos) :
  Agent.constructor grid spawn assigned seatBlocks blockToCorridorCells cfg
                    gates o n = (Some (a, assigned'), n') ->
  (promised_seats [a] = [] /\ assigned' = assigned) \/
  (exists s, promised_seats [a] = [s] /\ (s ∉ assigned) /\
             Agent.willStand a = false /\ Agent.seat a = Some s /\
             Agent.moving a = true /\
             assigned' = (if FEATURE_ASSIGNED_SEATS cfg then {[s]} ∪ assigned
                          else assigned)).
Proof.
  intros [(block & s & n1 & (Hfree & _) & H) | (block & n1 & H & ->)]%constructor_spec.
  - apply take_seat_spec in H as (_ & Hs & Ht & Hw & Hseat & -> & _).
    right. exists s. unfold promised_seats, Agent.moving. simpl.
    rewrite Hw, Hseat, Hs, Ht. done.
  - left. split; [|done].
    apply stand_in_back_spec in H
      as (_ & _ & [(t & _ & _ & Hw & _) | (_ & Hseat & Hw & _)]);
      unfold promised_seats; simpl; by rewrite Hw, ?Hseat.
Qed.

(** With the flag set, the promised seats stay distinct and assigned. *)
Lemma seats_reserved_spawn_at (o : Oracle) (gate : Pos) (e : t)
    (occupied : gset Pos) (n : nat) (out : Outcome (t * gset Pos)) (n' : nat) :
  FEATURE_ASSIGNED_SEATS (config e) = true ->
  seats_reserved e -> spawn_at gate (e, occupied) o n = (out, n') ->
  outcome_sat seats_reserved out.
Proof.
  intros Hflag [Hnodup Hsub] H.
  apply spawn_at_cases in H
    as [-> | [-> | (a & assigned' & Hlt & Hbuilt & H)]]; try done.
  assert (Hnew : seats_reserved (with_spawn e a assigned')).
  { unfold seats_reserved. cbn [with_spawn agents assigned].
    rewrite promised_seats_app.
    apply constructor_promised in Hbuilt
      as [[-> ->] | (s & -> & Hfree & _ & _ & _ & ->)].
    - by rewrite app_nil_r.
    - rewrite modifiedConfig_flag, Hflag. split.
      + apply NoDup_app. split; [done|]. split; [|apply NoDup_singleton].
        intros s' Hs' ->%list_elem_of_singleton. apply Hfree. by apply Hsub.
      + intros s' [Hs' | ->%list_elem_of_singleton]%elem_of_app;
          [apply elem_of_union_r; by apply Hsub | by apply elem_of_union_l, elem_of_singleton]. }
  cbn zeta in H.
  destruct (if Agent.willStand a then Agent.seat a else None) as [dest|];
    [destruct (grid e ≫= _)|]; subst out; exact Hnew.
Qed.

Lemma seats_reserved_reachable (cfg : Config) (e : t) :
  FEATURE_ASSIGNED_SEATS cfg = true -> reachable cfg e -> seats_reserved e.
Proof.
  intros Hflag. induction 1 as [|e He IH|e e' o n n' res He IH Ho Hu].
  - split; [constructor | by intros s ?%elem_of_nil].
  - unfold initialize. destruct (GridBuilder.buildGrid (config e));
      [split; [constructor | by intros s ?%elem_of_nil] | exact IH].
  - pose proof (reachable_config cfg e He) as Hcfg.
    set (I := fun e => config e = cfg /\ seats_reserved e).
    assert (Hstep : forall gate e occupied n out n',
               I e -> spawn_at gate (e, occupied) o n = (out, n') ->
               outcome_sat I out).
    { intros gate e0 occ n0 out n0' [Hc Hr] Hs.
      pose proof (spawn_at_config cfg o _ _ _ _ _ _ Hc Hs) as H1.
      pose proof (seats_reserved_spawn_at o _ _ _ _ _ _
                    ltac:(by rewrite Hc) Hr Hs) as H2.
      destruct out as [[? ?]|[? ?]|]; done. }
    apply update_cases in Hu
      as [[_ ->] | [(e1 & occ1 & Hloop & ->)
                   | (e1 & occ1 & agents' & g' & Hloop & Hagents & Heq)]].
    + exact IH.
    + pose proof (spawn_loop_keeps I o Hstep _ _ _ _ _ _
                    (conj Hcfg IH) Hloop) as [_ H1]. exact H1.
    + pose proof (spawn_loop_keeps I o Hstep _ _ _ _ _ _
                    (conj Hcfg IH) Hloop) as [_ [Hnodup Hsub]].
      destruct Heq as (_ & _ & Ha & _ & Has & _).
      unfold seats_reserved. rewrite Ha, Has.
      by rewrite (update_agents_promised _ _ _ _ Hagents).
Qed.

(** With the flag cleared, the constructor leaves the assigned set alone. *)
Lemma assigned_empty_spawn_at (o : Oracle) (gate : Pos) (e : t)
    (occupied : gset Pos) (n : nat) (out : Outcome (t * gset Pos)) (n' : nat) :
  FEATURE_ASSIGNED_SEATS (config e) = false ->
  assigned e = ∅ -> spawn_at gate (e, occupied) o n = (out, n') ->
  outcome_sat (fun e => assigned e = ∅) out.
Proof.
  intros Hflag Hempty H.
  apply spawn_at_cases in H
    as [-> | [-> | (a & assigned' & Hlt & Hbuilt & H)]]; try done.
  assert (Hnew : assigned' = ∅).
  { apply constructor_promised in Hbuilt
      as [[_ ->] | (s & _ & _ & _ & _ & _ & ->)]; [done|].
    by rewrite modifiedConfig_flag, Hflag. }
  cbn zeta in H.
  destruct (if Agent.willStand a then Agent.seat a else None) as [dest|];
    [destruct (grid e ≫= _)|]; subst out; exact Hnew.
Qed.

Lemma assigned_empty_reachable (cfg : Config) (e : t) :
  FEATURE_ASSIGNED_SEATS cfg = false -> reachable cfg e -> assigned e = ∅.
Proof.
  intros Hflag. induction 1 as [|e He IH|e e' o n n' res He IH Ho Hu].
  - done.
  - unfold initialize. by destruct (GridBuilder.buildGrid (config e)).
  - pose proof (reachable_config cfg e He) as Hcfg.
    set (I := fun e => config e = cfg /\ assigned e = ∅).
    assert (Hstep : forall gate e occupied n out n',
               I e -> spawn_at gate (e, occupied) o n = (out, n') ->
               outcome_sat I out).
    { intros gate e0 occ n0 out n0' [Hc Hr] Hs.
      pose proof (spawn_at_config cfg o _ _ _ _ _ _ Hc Hs) as H1.
      pose proof (assigned_empty_spawn_at o _ _ _ _ _ _
                    ltac:(by rewrite Hc) Hr Hs) as H2.
      destruct out as [[? ?]|[? ?]|]; done. }
    apply update_cases in Hu
      as [[_ ->] | [(e1 & occ1 & Hloop & ->)
                   | (e1 & occ1 & agents' & g' & Hloop & Hagents & Heq)]].
    + exact IH.
    + pose proof (spawn_loop_keeps I o Hstep _ _ _ _ _ _
                    (conj Hcfg IH) Hloop) as [_ H1]. exact H1.
    + pose proof (spawn_loop_keeps I o Hstep _ _ _ _ _ _
                    (conj Hcfg IH) Hloop) as [_ H1].
      destruct Heq as (_ & _ & _ & _ & Has & _). by rewrite Has.
Qed.

End Assigned.

(** C7. With [FEATURE_ASSIGNED_SEATS] enabled: [pickSeatInBlock] never
    returns a seat of the assigned set; the seat the constructor gives an
    agent is added to the set there, the agent still moving; hence, over a
    whole run, the seats returned to agents are pairwise distinct and all
    in the assigned set. *)
Theorem assigned_seats_exclusive (cfg : Config) :
  FEATURE_ASSIGNED_SEATS cfg = true ->
  (forall grid block assigned seatBlocks config rowThr o n s n',
     SeatSelectionEngine.pickSeatInBlock grid block assigned seatBlocks config
       rowThr o n = (Some s, n') ->
     s ∉ assigned) /\
  (forall grid spawn assigned seatBlocks blockToCorridorCells gates spawned
          o n a assigned' n' s,
     Agent.constructor grid spawn assigned seatBlocks blockToCorridorCells
       (SimulationEngine.modifiedConfig cfg spawned) gates o n
     = (Some (a, assigned'), n') ->
     Agent.willStand a = false -> Agent.seat a = Some s ->
     (s ∉ assigned) /\ (s ∈ assigned') /\ Agent.moving a = true) /\
  (forall e, reachable cfg e ->
     NoDup (promised_seats (SimulationEngine.agents e)) /\
     forall s, s ∈ promised_seats (SimulationEngine.agents e) ->
               s ∈ SimulationEngine.assigned e).
Proof.
  intros Hflag. split; [|split].
  - intros grid block assigned seatBlocks config rowThr o n s n' H.
    by apply pickSeatInBlock_spec in H as [? _].
  - intros grid spawn assigned seatBlocks b2c gates spawned o n a assigned' n' s
      Hbuilt Hw Hseat.
    apply constructor_promised in Hbuilt
      as [[Hp _] | (s' & Hp & Hfree & _ & Hseat' & Hmoving & ->)].
    + unfold promised_seats in Hp. simpl in Hp.
      by rewrite Hw, Hseat in Hp.
    + assert (s' = s) as -> by congruence.
      rewrite modifiedConfig_flag, Hflag.
      split; [done|]. split; [|done].
      by apply elem_of_union_l, elem_of_singleton.
  - intros e He. exact (seats_reserved_reachable cfg e Hflag He).
Qed.

Lemma assigned_seats_exclusive_witness :
  exists e, sample_run default_config 0 3 = Some e /\
    NoDup (promised_seats (SimulationEngine.agents e)).
Proof.
  assert (Hret : run_returns default_config 0 3 = true)
    by (vm_compute; reflexivity).
  destruct (run_returns_Some _ _ _ Hret) as [e Hrun].
  exists e. split; [exact Hrun|].
  destruct (assigned_seats_exclusive default_config eq_refl) as (_ & _ & H).
  apply H.
  exact (sample_run_reachable _ _ _ _ zero_oracle_valid Hrun).
Defined.


(** ** Runs without seat assignment *)

Lemma report_inv (e : SimulationEngine.t) (i : nat) (p : Pos)
    (seat : option Pos) (seated standing willStand : bool) :
  report e i = Some (p, seat, seated, standing, willStand) ->
  exists a, SimulationEngine.agents e !! i = Some a /\
    Agent.pos a = p /\ Agent.seat a = seat /\ Agent.seated a = seated /\
    Agent.standing a = standing /\ Agent.willStand a = willStand.
Proof.
  unfold report. destruct (SimulationEngine.agents e !! i) as [a|];
    [|discriminate].
  cbn. intros [= <- <- <- <- <-]. by exists a.
Qed.

(** The first two ticks of a run of the default layout with the flag
    cleared and every draw equal to 0: the agents spawned at gate 10 in the
    first and in the second tick are both under way to seat (10, 2). *)
Lemma unassigned_run_2 :
  exists e, reachable unassigned_config e /\
    report e 0 = Some ((17, 10), Some (10, 2), false, false, false) /\
    report e 3 = Some ((18, 10), Some (10, 2), false, false, false).
Proof.
  assert (Hret : run_returns unassigned_config 0 2 = true)
    by (vm_compute; reflexivity).
  assert (H : (e ← sample_run unassigned_config 0 2;
               Some (report e 0, report e 3))
              = Some (Some ((17, 10), Some (10, 2), false, false, false),
                      Some ((18, 10), Some (10, 2), false, false, false)))
    by (vm_compute; reflexivity).
  destruct (run_returns_Some _ _ _ Hret) as [e Hrun]. clear Hret.
  rewrite Hrun in H. cbn [mbind option_bind] in H.
  injection H as H0 H3.
  pose proof (sample_run_reachable _ _ _ _ zero_oracle_valid Hrun) as He.
  clear Hrun. exists e. split; [exact He|]. split; assumption.
Qed.

(** After 21 ticks of the same run the first of them sits on seat (10, 2)
    and the second stands on it. *)
Lemma unassigned_run_21 :
  exists e, reachable unassigned_config e /\
    report e 0 = Some ((10, 2), Some (10, 2), true, false, false) /\
    report e 3 = Some ((10, 2), Some (10, 2), false, true, false).
Proof.
  assert (Hret : run_returns unassigned_config 0 21 = true)
    by (vm_compute; reflexivity).
  assert (H : (e ← sample_run unassigned_config 0 21;
               Some (report e 0, report e 3))
              = Some (Some ((10, 2), Some (10, 2), true, false, false),
                      Some ((10, 2), Some (10, 2), false, true, false)))
    by (vm_compute; reflexivity).
  destruct (run_returns_Some _ _ _ Hret) as [e Hrun]. clear Hret.
  rewrite Hrun in H. cbn [mbind option_bind] in H.
  injection H as H0 H3.
  pose proof (sample_run_reachable _ _ _ _ zero_oracle_valid Hrun) as He.
  clear Hrun. exists e. split; [exact He|]. split; assumption.
Qed.

(** C10. With [FEATURE_ASSIGNED_SEATS] disabled the assigned set is empty
    after [initialize] and after every tick, so the assigned-set test of
    the seat selection excludes no seat; and two agents that are still
    moving can hold the same target seat: in the run of the default layout
    in which every draw is 0, the agents spawned at gate 10 in the first two
    ticks both head for seat (10, 2). *)
Theorem unassigned_seats_shared (cfg : Config) :
  FEATURE_ASSIGNED_SEATS cfg = false ->
  (forall e, reachable cfg e ->
     SimulationEngine.assigned e = ∅ /\
     forall r c cell,
       SeatSelectionEngine.seat_is_free (SimulationEngine.assigned e) r c cell
       = cell_is SEAT cell) /\
  (exists e a b,
     reachable unassigned_config e /\
     SimulationEngine.agents e !! 0%nat = Some a /\
     SimulationEngine.agents e !! 3%nat = Some b /\
     Agent.moving a = true /\ Agent.moving b = true /\
     Agent.seat a = Some (10, 2) /\ Agent.seat b = Some (10, 2)).
Proof.
  intros Hflag. split.
  - intros e He. pose proof (assigned_empty_reachable cfg e Hflag He) as ->.
    split; [done|]. intros r c cell.
    unfold SeatSelectionEngine.seat_is_free.
    rewrite bool_decide_eq_true_2 by set_solver. apply andb_true_r.
  - destruct unassigned_run_2 as (e & He & Ha & Hb).
    apply report_inv in Ha as (a & Ha & _ & Hsa & Hseated_a & Hstanding_a & _).
    apply report_inv in Hb as (b & Hb & _ & Hsb & Hseated_b & Hstanding_b & _).
    exists e, a, b. unfold Agent.moving.
    rewrite Hseated_a, Hstanding_a, Hseated_b, Hstanding_b.
    repeat split; try done.
Qed.

Lemma unassigned_seats_shared_witness :
  SimulationEngine.assigned (initialized unassigned_config) = ∅.
Proof.
  destruct (unassigned_seats_shared unassigned_config eq_refl) as [H _].
  apply H. apply reachable_initialize, reachable_new.
Defined.

(** Without seat assignment two terminal agents report the same cell: the
    run above leaves a seated and a standing agent on seat (10, 2). *)
Lemma terminal_cells_counterexample :
  exists e a b,
    reachable unassigned_config e /\
    SimulationEngine.agents e !! 0%nat = Some a /\
    SimulationEngine.agents e !! 3%nat = Some b /\
    terminal a = true /\ terminal b = true /\
    Agent.pos a = (10, 2) /\ Agent.pos b = (10, 2).
Proof.
  destruct unassigned_run_21 as (e & He & Ha & Hb).
  apply report_inv in Ha as (a & Ha & Hpa & _ & Hseated_a & Hstanding_a & _).
  apply report_inv in Hb as (b & Hb & Hpb & _ & Hseated_b & Hstanding_b & _).
  exists e, a, b. unfold terminal.
  rewrite Hseated_a, Hstanding_a, Hseated_b, Hstanding_b.
  repeat split; try done.
Qed.


(** ** Where a path ends *)

Lemma last_cells_between (from to : Z) :
  from <> to -> last (cells_between from to) = Some to.
Proof.
  intros Hne. unfold cells_between. destruct (Z.ltb_spec from to).
  - replace (to - from) with (Z.of_nat (S (Z.to_nat (to - from - 1)))) by lia.
    rewrite seqZ_S, last_snoc. f_equal. lia.
  - rewrite last_reverse. rewrite seqZ_cons by lia. reflexivity.
Qed.

Lemma last_cells_up (from to : Z) :
  to < from -> last (cells_up from to) = Some to.
Proof.
  intros Hlt. unfold cells_up. rewrite last_reverse.
  rewrite seqZ_cons by lia. reflexivity.
Qed.

Lemma last_after {A} (x : A) (l1 l2 : list A) (y : A) :
  last l2 = Some y -> last (x :: l1 ++ l2) = Some y.
Proof.
  intros H. change (x :: l1 ++ l2) with ((x :: l1) ++ l2).
  rewrite last_app, H. reflexivity.
Qed.

(** When the turn row is not above the destination row, the path ends at
    the destination, or is empty with the spawn cell being the
    destination. *)
Lemma computeSimplePath_last (r c corridor r1 c1 row0 : Z) :
  r1 <= row0 ->
  last ((r, c) :: PathfindingEngine.computeSimplePath (r, c) corridor (r1, c1) row0)
  = Some (r1, c1).
Proof.
  intros Hrow. rewrite computeSimplePath_legs.
  destruct (Z.eq_dec corridor c1) as [Hc1 | Hc1].
  - rewrite (cells_between_same_eq corridor c1 Hc1), fmap_nil, app_nil_r.
    destruct (Z.eq_dec r1 row0) as [Hr1 | Hr1].
    + rewrite (cells_up_none row0 r1) by lia. rewrite fmap_nil, app_nil_r.
      destruct (Z.eq_dec c corridor) as [Hc | Hc].
      * rewrite (cells_between_same_eq c corridor Hc), fmap_nil, app_nil_r.
        destruct (Z.eq_dec r row0) as [Hr | Hr].
        -- rewrite (cells_between_same_eq r row0 Hr). cbn. congruence.
        -- rewrite last_cons, fmap_last, last_cells_between by done.
           cbn. congruence.
      * apply last_after.
        rewrite fmap_last, last_cells_between by done. cbn. congruence.
    + rewrite app_assoc. apply last_after.
      rewrite fmap_last, last_cells_up by lia. cbn. congruence.
  - rewrite !app_assoc. apply last_after.
    rewrite fmap_last, last_cells_between by done. reflexivity.
Qed.

(** ** Reading and writing the grid *)

Lemma grid_row_Some (g : Grid) (r : Z) (row : Row) :
  grid_row g r = Some row -> 0 <= r /\ g !! Z.to_nat r = Some row.
Proof.
  unfold grid_row, at_index. destruct (Z.leb_spec 0 r); [done | discriminate].
Qed.

Lemma grid_row_is_Some (g : Grid) (r : Z) :
  0 <= r < Z.of_nat (length g) -> is_Some (grid_row g r).
Proof.
  intros Hr. unfold grid_row, at_index. destruct (Z.leb_spec 0 r); [|lia].
  apply lookup_lt_is_Some. lia.
Qed.

Lemma grid_set_is_Some (g : Grid) (r c : Z) (v : CellType) :
  is_Some (grid_row g r) -> is_Some (grid_set g r c v).
Proof. intros [row Hrow]. unfold grid_set. rewrite Hrow. by eexists. Qed.

Section GridSet.

Variables (g g' : Grid) (r c : Z) (v : CellType).
Hypothesis Hset : grid_set g r c v = Some g'.

Lemma grid_set_length : length g' = length g.
Proof.
  unfold grid_set in Hset. destruct (grid_row g r) as [row|]; [|discriminate].
  injection Hset as <-. apply length_insert.
Qed.

Lemma grid_set_row_ne (r' : Z) : r' <> r -> grid_row g' r' = grid_row g r'.
Proof.
  intros Hne. unfold grid_set in Hset.
  destruct (grid_row g r) as [row|] eqn:Hrow; [|discriminate].
  injection Hset as <-. apply grid_row_Some in Hrow as [Hr _].
  unfold grid_row, at_index. destruct (Z.leb_spec 0 r'); [|done].
  apply list_lookup_insert_ne. lia.
Qed.

Lemma grid_set_get_eq : grid_get g' r c = Some (Some v).
Proof.
  unfold grid_set in Hset.
  destruct (grid_row g r) as [row|] eqn:Hrow; [|discriminate].
  injection Hset as <-. apply grid_row_Some in Hrow as [Hr Hrow].
  unfold grid_get, grid_row, at_index. destruct (Z.leb_spec 0 r); [|lia].
  unfold Grid in *.
  rewrite list_lookup_insert_eq by (by eapply lookup_lt_Some).
  cbn. unfold row_get, row_set. cbn. by rewrite lookup_insert_eq.
Qed.

Lemma grid_set_get_ne (r' c' : Z) :
  (r', c') <> (r, c) -> grid_get g' r' c' = grid_get g r' c'.
Proof.
  intros Hne. destruct (Z.eq_dec r' r) as [-> | Hr].
  - unfold grid_set in Hset.
    destruct (grid_row g r) as [row|] eqn:Hrow; [|discriminate].
    injection Hset as <-. unfold grid_get. rewrite Hrow.
    apply grid_row_Some in Hrow as [Hr Hrow].
    unfold grid_row, at_index. destruct (Z.leb_spec 0 r); [|lia].
    unfold Grid in *.
  rewrite list_lookup_insert_eq by (by eapply lookup_lt_Some).
    cbn. unfold row_get, row_set. cbn.
    rewrite lookup_insert_ne by congruence. done.
  - unfold grid_get. by rewrite grid_set_row_ne.
Qed.

(** A write outside row 0 of a value the cell may hold keeps the grid in
    order. *)
Lemma grid_set_ok (cfg : Config) (gates : list Pos) (dests : list (option Pos)) :
  grid_ok cfg gates dests g -> r <> 0 -> cell_allowed gates dests r c v ->
  grid_ok cfg gates dests g'.
Proof.
  intros (Hlen & (row0 & Hrow0 & Hcols) & Htyped) Hr Hv.
  split; [by rewrite grid_set_length|]. split.
  - exists row0. by rewrite grid_set_row_ne.
  - intros r' c' t Ht.
    destruct (decide ((r', c') = (r, c))) as [[= -> ->] | Hne].
    + rewrite grid_set_get_eq in Ht. by injection Ht as <-.
    + rewrite grid_set_get_ne in Ht by done. by apply Htyped.
Qed.

End GridSet.

Lemma cell_allowed_mono (gates : list Pos) (dests dests' : list (option Pos))
    (r c : Z) (t : CellType) :
  (forall d, d ∈ dests -> d ∈ dests') ->
  cell_allowed gates dests r c t -> cell_allowed gates dests' r c t.
Proof. intros Hsub. destruct t; cbn; auto. Qed.

Lemma grid_ok_mono (cfg : Config) (gates : list Pos)
    (dests dests' : list (option Pos)) (g : Grid) :
  (forall d, d ∈ dests -> d ∈ dests') ->
  grid_ok cfg gates dests g -> grid_ok cfg gates dests' g.
Proof.
  intros Hsub (Hlen & Hrow0 & Htyped). repeat split; try done.
  intros r c t Ht. eapply cell_allowed_mono; eauto.
Qed.


(** ** The grid [buildGrid] returns *)

Lemma foldl_option_inv {A B} (P : A -> Prop) (F : option A -> B -> option A)
    (l : list B) :
  (forall b, F None b = None) ->
  (forall a b a', b ∈ l -> P a -> F (Some a) b = Some a' -> P a') ->
  forall a a', P a -> foldl F (Some a) l = Some a' -> P a'.
Proof.
  intros HNone. induction l as [|b l IH]; intros Hstep a a' Ha; simpl.
  - by intros [= <-].
  - destruct (F (Some a) b) as [a1|] eqn:H1.
    + apply IH; [|by eapply Hstep; [left|..]].
      intros a2 b2 a3 Hb2. apply Hstep. by right.
    + by rewrite foldl_option_None.
Qed.

Lemma row_get_new_row (n c : Z) (t : CellType) :
  row_get (new_row n) c = Some t -> t = EMPTY.
Proof.
  unfold row_get, new_row. cbn. intros H.
  apply elem_of_list_to_map_2, list_elem_of_fmap in H as (c' & [= _ ->] & _).
  done.
Qed.

Lemma new_row_dense (n : Z) : dense (new_row n).
Proof.
  intros c [t H]. unfold new_row in *. cbn in *.
  apply elem_of_list_to_map_2, list_elem_of_fmap in H as (c' & [= -> _] & H).
  apply elem_of_seqZ in H. lia.
Qed.

Lemma fill_corridor_cell_cells (row : Row) (c c' : Z) (t : CellType) :
  row_get (GridBuilder.fill_corridor_cell row c) c' = Some t ->
  t = CORRIDOR \/ row_get row c' = Some t.
Proof.
  unfold GridBuilder.fill_corridor_cell.
  destruct (cell_is EMPTY (row_get row c)); [|by auto].
  unfold row_get, row_set. cbn.
  destruct (decide (c = c')) as [<- | Hne].
  - rewrite lookup_insert_eq. intros [= <-]. by left.
  - rewrite lookup_insert_ne by done. by right.
Qed.

Lemma fill_corridor_cell_dense (row : Row) (c : Z) :
  dense row ->
  dense (GridBuilder.fill_corridor_cell row c) /\
  row_length (GridBuilder.fill_corridor_cell row c) = row_length row.
Proof.
  intros Hdense. unfold GridBuilder.fill_corridor_cell.
  destruct (cell_is EMPTY (row_get row c)) eqn:Hc; [|by auto].
  apply bool_decide_eq_true in Hc.
  assert (Hin : 0 <= c < row_length row) by (apply Hdense; by eexists).
  assert (Hlen : row_length (row_set row c CORRIDOR) = row_length row).
  { unfold row_set. cbn. destruct (Z.leb_spec 0 c); lia. }
  split; [|done].
  intros c' Hc'. rewrite Hlen. unfold row_set in Hc'. cbn in Hc'.
  destruct (decide (c = c')) as [<- | Hne]; [done|].
  rewrite lookup_insert_ne in Hc' by done. by apply Hdense.
Qed.

Lemma fill_corridor_row_cells (segs : list (list Z)) (row : Row) (c : Z)
    (t : CellType) :
  row_get (foldl (fun row seg => foldl GridBuilder.fill_corridor_cell row seg)
                 row segs) c = Some t ->
  t = CORRIDOR \/ row_get row c = Some t.
Proof.
  assert (Hseg : forall seg row,
    row_get (foldl GridBuilder.fill_corridor_cell row seg) c = Some t ->
    t = CORRIDOR \/ row_get row c = Some t).
  { induction seg as [|c1 seg IH]; intros row1; simpl; [by auto|].
    intros Ht. destruct (IH _ Ht) as [-> | Ht']; [by left|].
    by eapply fill_corridor_cell_cells. }
  revert row. induction segs as [|seg segs IH]; intros row; simpl; [by auto|].
  intros Ht. destruct (IH _ Ht) as [-> | Ht']; [by left|]. by eapply Hseg.
Qed.

Lemma fill_corridor_row_length (segs : list (list Z)) (row : Row) :
  dense row ->
  row_length (foldl (fun row seg => foldl GridBuilder.fill_corridor_cell row seg)
                    row segs) = row_length row.
Proof.
  assert (Hseg : forall seg row, dense row ->
    dense (foldl GridBuilder.fill_corridor_cell row seg) /\
    row_length (foldl GridBuilder.fill_corridor_cell row seg) = row_length row).
  { induction seg as [|c seg IH]; intros row1 Hd; simpl; [by auto|].
    destruct (fill_corridor_cell_dense row1 c Hd) as (Hd1 & Hl1).
    destruct (IH _ Hd1) as (Hd2 & Hl2). split; [done | congruence]. }
  revert row. induction segs as [|seg segs IH]; intros row Hd; simpl; [done|].
  destruct (Hseg seg row Hd) as (Hd1 & Hl1). rewrite IH by done. done.
Qed.

Section BuildGrid.

Variable cfg : Config.
Hypothesis HROWS : 20 <= ROWS cfg.

(** The grid before the corridors are filled in: in order, with row 0
    still as it was created. *)
Local Abbreviation fresh g :=
  (grid_ok cfg [] [] g /\ grid_row g 0 = Some (new_row (COLS cfg))).

Lemma fresh_ok_row (g : Grid) : fresh g -> forall r,
  0 <= r < ROWS cfg -> is_Some (grid_row g r).
Proof.
  intros [(Hlen & _) _] r Hr. apply grid_row_is_Some. lia.
Qed.

Lemma fresh_set_seat (g g' : Grid) (r c : Z) :
  6 <= r < 14 -> fresh g -> grid_set g r c SEAT = Some g' -> fresh g'.
Proof.
  intros Hr [Hok Hrow0] Hset. split.
  - apply (grid_set_ok _ _ _ _ _ Hset); [done | lia | cbn; lia].
  - rewrite (grid_set_row_ne _ _ _ _ _ Hset) by lia. done.
Qed.

Lemma empty_grid_fresh (g : Grid) :
  GridBuilder.empty_grid cfg = Some g -> fresh g.
Proof.
  unfold GridBuilder.empty_grid.
  destruct (ROWS cfg <? 0); [discriminate|].
  destruct ((0 <? ROWS cfg) && (COLS cfg <? 0)); [discriminate|].
  intros [= <-].
  assert (Hrow0 : grid_row (replicate (Z.to_nat (ROWS cfg)) (new_row (COLS cfg))) 0
                  = Some (new_row (COLS cfg))).
  { unfold grid_row, at_index. cbn. apply lookup_replicate_2. lia. }
  split; [|done]. split; [by rewrite length_replicate|]. split.
  - by exists (new_row (COLS cfg)).
  - intros r c t. unfold grid_get. intros Ht.
    destruct (grid_row _ r) as [row|] eqn:Hrow; [|discriminate].
    apply grid_row_Some in Hrow as [_ Hrow].
    apply lookup_replicate in Hrow as [-> _].
    cbn in Ht. injection Ht as Ht. apply row_get_new_row in Ht as ->. done.
Qed.

Lemma fill_seats_fresh (blocks : list (Z * Z)) (g g' : Grid) :
  fresh g -> GridBuilder.fill_seats blocks g = Some g' -> fresh g'.
Proof.
  unfold GridBuilder.fill_seats.
  apply (foldl_option_inv (fun g => fresh g)).
  - intros r. by apply foldl_option_None.
  - intros g1 r g2 Hr. apply elem_of_seqZ in Hr.
    unfold SIM_CONSTANTS.SEAT_ROWS_START, SIM_CONSTANTS.SEAT_ROWS_END in Hr.
    apply (foldl_option_inv (fun g => fresh g)); [done|].
    intros g3 blk g4 _. cbn. unfold GridBuilder.fill_seats_in_row.
    apply (foldl_option_inv (fun g => fresh g)); [done|].
    intros g5 c g6 _. cbn. apply fresh_set_seat. lia.
Qed.

Lemma fill_corridors_ok (segs : list (list Z)) (g : Grid) :
  fresh g -> grid_ok cfg [] [] (GridBuilder.fill_corridors segs g).
Proof.
  intros [(Hlen & _ & Htyped) Hrow0]. unfold GridBuilder.fill_corridors.
  split; [by rewrite length_fmap|]. split.
  - apply grid_row_Some in Hrow0 as [_ Hrow0].
    eexists. split.
    + unfold grid_row, at_index. cbn. rewrite list_lookup_fmap.
      cbn in Hrow0. unfold Grid in *. by rewrite Hrow0.
    + by rewrite fill_corridor_row_length by apply new_row_dense.
  - intros r c t. unfold grid_get, grid_row, at_index.
    destruct (Z.leb_spec 0 r); [|discriminate].
    rewrite list_lookup_fmap. unfold Grid in *.
    destruct (g !! Z.to_nat r) as [row|] eqn:Hrow; cbn; [|discriminate].
    intros [= Ht].
    apply fill_corridor_row_cells in Ht as [-> | Ht]; [done|].
    apply Htyped. unfold grid_get, grid_row, at_index.
    destruct (Z.leb_spec 0 r); [|lia]. unfold Grid in *. by rewrite Hrow, <- Ht.
Qed.

Lemma place_gates_ok (g g' : Grid) :
  grid_ok cfg [] [] g -> GridBuilder.place_gates cfg g = Some g' ->
  grid_ok cfg ((fun c => (ROWS cfg - 1, c)) <$> GridBuilder.gate_columns cfg) [] g'.
Proof.
  intros Hok. unfold GridBuilder.place_gates.
  apply (foldl_option_inv
    (grid_ok cfg ((fun c => (ROWS cfg - 1, c)) <$> GridBuilder.gate_columns cfg) [])).
  - done.
  - intros g1 c g2 Hc Hg1. cbn. intros Hset.
    apply (grid_set_ok _ _ _ _ _ Hset); [done | lia |].
    cbn. apply list_elem_of_fmap. by exists c.
  - destruct Hok as (Hlen & Hrow0 & Htyped). repeat split; try done.
    intros r c t Ht. specialize (Htyped _ _ _ Ht). destruct t; try done.
    cbn in Htyped. by apply elem_of_nil in Htyped.
Qed.

Lemma buildGrid_ok (g : Grid) :
  GridBuilder.buildGrid cfg = Some g ->
  grid_ok cfg ((fun c => (ROWS cfg - 1, c)) <$> GridBuilder.gate_columns cfg) [] g.
Proof.
  unfold GridBuilder.buildGrid.
  destruct (GridBuilder.empty_grid cfg) as [g0|] eqn:H0; [|discriminate].
  cbn. destruct (GridBuilder.fill_seats _ g0) as [g1|] eqn:H1; [|discriminate].
  cbn. apply place_gates_ok, fill_corridors_ok.
  eapply fill_seats_fresh; [|exact H1]. by apply empty_grid_fresh.
Qed.

Lemma gates_length :
  (length ((fun c => (ROWS cfg - 1, c)%Z) <$> GridBuilder.gate_columns cfg) <= 3)%nat.
Proof.
  rewrite length_fmap. unfold GridBuilder.gate_columns.
  pose proof (List.filter_length_le (fun c => c <? COLS cfg)
                SIM_CONSTANTS.GATE_POSITIONS) as H.
  cbn in H. cbn. lia.
Qed.

End BuildGrid.


(** ** Room to stand *)

Lemma back_cells_length (cols : Z) :
  0 <= cols -> Z.of_nat (length (back_cells cols)) = 6 * cols.
Proof. intros H. unfold back_cells. rewrite length_fmap, length_seqZ. lia. Qed.

Lemma back_cells_NoDup (cols : Z) : 0 < cols -> NoDup (back_cells cols).
Proof.
  intros Hcols. unfold back_cells. apply NoDup_fmap_2_strong; [|apply NoDup_seqZ].
  intros k k' _ _ [= Hq Hr].
  rewrite (Z.div_mod k cols), (Z.div_mod k' cols) by lia.
  f_equal; [f_equal|]; lia.
Qed.

Lemma elem_of_back_cells (cols : Z) (p : Pos) :
  0 < cols -> p ∈ back_cells cols -> 14 <= fst p <= 19 /\ 0 <= snd p < cols.
Proof.
  intros Hcols Hp. unfold back_cells in Hp.
  apply list_elem_of_fmap in Hp as (k & -> & Hk). apply elem_of_seqZ in Hk.
  cbn. split; [|by apply Z.mod_pos_bound].
  assert (0 <= k / cols) by (apply Z.div_pos; lia).
  assert (k / cols < 6) by (apply Z.div_lt_upper_bound; lia). lia.
Qed.

(** Cells that number more than the gates and the destinations are not
    all gates and destinations. *)
Lemma back_cells_room (cols : Z) (gates : list Pos) (dests : list (option Pos)) :
  0 < cols ->
  Z.of_nat (length gates) + Z.of_nat (length dests) < 6 * cols ->
  ~ (forall p, p ∈ back_cells cols -> p ∈ gates \/ Some p ∈ dests).
Proof.
  intros Hcols Hfew Hall.
  assert (Hsub : Some <$> back_cells cols ⊆+ (Some <$> gates) ++ dests).
  { apply NoDup_submseteq.
    - apply (NoDup_fmap_2 Some), back_cells_NoDup, Hcols.
    - intros x Hx. apply list_elem_of_fmap in Hx as (p & -> & Hp).
      apply elem_of_app. destruct (Hall p Hp) as [Hg | Hd]; [left | by right].
      by apply list_elem_of_fmap_2. }
  apply submseteq_length in Hsub.
  rewrite length_app, !length_fmap in Hsub.
  pose proof (back_cells_length cols ltac:(lia)). lia.
Qed.

Section StandingRoom.

Variables (cfg : Config) (gates : list Pos) (dests : list (option Pos)).
Variable g : Grid.
Hypothesis HROWS : 20 <= ROWS cfg.
Hypothesis Hok : grid_ok cfg gates dests g.

Lemma standing_candidates_is_Some (r : Z) :
  14 <= r <= 19 -> is_Some (SeatSelectionEngine.standing_candidates g r).
Proof.
  intros Hr. destruct Hok as (Hlen & (row0 & Hrow0 & _) & _).
  unfold SeatSelectionEngine.standing_candidates. rewrite Hrow0. cbn.
  rewrite standing_candidates_fold.
  destruct (grid_row_is_Some g r ltac:(lia)) as [row ->].
  destruct (seqZ 0 (row_length row0)); by eexists.
Qed.

Lemma first_candidates_cases (rows : list Z) :
  Forall (fun r => 14 <= r <= 19) rows ->
  Forall (fun r => SeatSelectionEngine.standing_candidates g r = Some []) rows \/
  exists r cs, 14 <= r <= 19 /\ cs <> [] /\
    SeatSelectionEngine.standing_candidates g r = Some cs /\
    SeatSelectionEngine.first_candidates g rows = Some cs.
Proof.
  induction 1 as [|r rows Hr _ IH]; [by left|].
  destruct (standing_candidates_is_Some r Hr) as [cs Hcs].
  destruct cs as [|p cs].
  - destruct IH as [IH | (r' & cs' & H1 & H2 & H3 & H4)].
    + left. by constructor.
    + right. exists r', cs'. split; [done|]. split; [done|]. split; [done|].
      cbn [SeatSelectionEngine.first_candidates]. by rewrite Hcs.
  - right. exists r, (p :: cs). split; [done|]. split; [done|]. split; [done|].
    cbn [SeatSelectionEngine.first_candidates]. by rewrite Hcs.
Qed.

(** Without a candidate, every cell of the back rows is a gate or the
    destination of an agent. *)
Lemma no_candidates_full :
  0 < COLS cfg ->
  Forall (fun r => SeatSelectionEngine.standing_candidates g r = Some [])
         SeatSelectionEngine.standing_rows ->
  forall p, p ∈ back_cells (COLS cfg) -> p ∈ gates \/ Some p ∈ dests.
Proof.
  intros Hcols Hall [r c] Hp.
  apply elem_of_back_cells in Hp as [Hr Hc]; [|done]. cbn in Hr, Hc.
  assert (Hrow : r ∈ SeatSelectionEngine.standing_rows).
  { unfold SeatSelectionEngine.standing_rows.
    rewrite !elem_of_cons. lia. }
  rewrite Forall_forall in Hall. specialize (Hall r Hrow).
  destruct (standing_candidates_spec g r [] Hall) as (row0 & Hrow0 & Hcs).
  destruct Hok as (Hlen & (row0' & Hrow0' & Hwidth) & Htyped).
  assert (row0' = row0) as -> by congruence.
  destruct (grid_row_is_Some g r ltac:(lia)) as [row Hr'].
  assert (Hget : grid_get g r c = Some (row_get row c)).
  { unfold grid_get. by rewrite Hr'. }
  destruct (SeatSelectionEngine.can_stand (row_get row c)) eqn:Hcan.
  - exfalso. eapply not_elem_of_nil, Hcs.
    exists c, (row_get row c). repeat split; try done; lia.
  - destruct (row_get row c) as [t|] eqn:Ht; [|done].
    specialize (Htyped r c t Hget).
    destruct t; cbn in Htyped; try done; try lia; auto.
Qed.

(** With room in the back rows, [findStandingPosition] returns a cell of
    the back rows that passed its test. *)
Lemma findStandingPosition_free (o : Oracle) (n : nat) :
  valid_oracle o -> 0 < COLS cfg ->
  Z.of_nat (length gates) + Z.of_nat (length dests) < 6 * COLS cfg ->
  exists t cell n',
    SeatSelectionEngine.findStandingPosition g o n = (Some t, n') /\
    14 <= fst t <= 19 /\
    grid_get g (fst t) (snd t) = Some cell /\
    SeatSelectionEngine.can_stand cell = true.
Proof.
  intros Hvalid Hcols Hfew.
  destruct (first_candidates_cases SeatSelectionEngine.standing_rows)
    as [Hnone | (r & cs & Hr & Hne & Hcs & Hfirst)].
  - unfold SeatSelectionEngine.standing_rows. repeat constructor; lia.
  - exfalso. eapply back_cells_room; [exact Hcols | exact Hfew |].
    by apply no_candidates_full.
  - destruct (Hvalid n) as [Hu0 Hu1].
    assert (Hn : 0 < Z.of_nat (length cs)) by (destruct cs; [done | simpl; lia]).
    pose proof (Qfloor_index _ _ Hu0 Hu1 Hn) as Hi.
    destruct (at_index_Some cs _ Hi) as [t Ht].
    pose proof (at_index_elem_of _ _ _ Ht) as Hin.
    destruct (standing_candidates_spec g r cs Hcs) as (row0 & _ & Hspec).
    destruct (proj1 (Hspec t) Hin) as (c & cell & Heq & _ & Hget & Hcan). subst t.
    exists (r, c), cell, (S n). split; [|by cbn].
    unfold SeatSelectionEngine.findStandingPosition. rewrite Hfirst.
    destruct cs as [|p cs]; [done|].
    unfold bind. rewrite random_index_spec. unfold ret. by rewrite Ht.
Qed.

End StandingRoom.


(** ** Every agent keeps to its own destination *)

Lemma agent_ok_dest (assigned : gset Pos) (g : Grid) (agents : list Agent.t)
    (d : Pos) :
  Forall (agent_ok assigned g) agents -> Some d ∈ destinations agents ->
  (14 <= fst d <= 19 /\ grid_get g (fst d) (snd d) = Some (Some STANDING)) \/
  (6 <= fst d < 14 /\ d ∈ assigned).
Proof.
  intros Hall Hd. unfold destinations in Hd.
  apply list_elem_of_fmap in Hd as (a & Hseat & Ha).
  rewrite Forall_forall in Hall. destruct (Hall a Ha) as (d' & Hd' & _ & Hkind).
  assert (d' = d) as -> by congruence.
  destruct (Agent.willStand a); [by left | by right].
Qed.

(** An agent stays in order when the assigned set grows and the cell of
    its destination is left alone. *)
Lemma agent_ok_frame (assigned assigned' : gset Pos) (g g' : Grid) (a : Agent.t) :
  assigned ⊆ assigned' ->
  (forall d, Agent.seat a = Some d ->
             grid_get g (fst d) (snd d) = Some (Some STANDING) ->
             grid_get g' (fst d) (snd d) = Some (Some STANDING)) ->
  agent_ok assigned g a -> agent_ok assigned' g' a.
Proof.
  intros Hsub Hframe (d & Hd & Hpos & Hkind). exists d.
  split; [done|]. split; [done|].
  destruct (Agent.willStand a).
  - destruct Hkind as [Hrows Hcell]. split; [done|]. by apply Hframe.
  - destruct Hkind as [Hrows Hin]. split; [done|]. by apply Hsub.
Qed.

Lemma Qfloor_draw_nonneg (o : Oracle) (n : nat) :
  valid_oracle o -> 0 <= Qfloor (draw o n * 4).
Proof.
  intros Hvalid. destruct (Hvalid n) as [Hu0 Hu1].
  pose proof (Qfloor_index (draw o n) 4 Hu0 Hu1 ltac:(lia)) as H.
  change (inject_Z 4) with 4%Q in H. lia.
Qed.

Section Apart.

Import SimulationEngine.

Variable cfg : Config.
Hypothesis Hflag : FEATURE_ASSIGNED_SEATS cfg = true.
Hypothesis HROWS : 20 <= ROWS cfg.
Hypothesis Hroom : NUM_AGENTS cfg + 2 < 6 * COLS cfg.

(** A new agent bound for a seat. *)
Lemma apart_take_seat (e : t) (gate : Pos) (block : option Z) (s : Pos)
    (o : Oracle) (n n' : nat) (a : Agent.t) (assigned' : gset Pos) :
  valid_oracle o -> config e = cfg -> apart e ->
  (s ∉ assigned e) -> 6 <= fst s < 14 ->
  Agent.take_seat gate (assigned e) (blockToCorridorCells e)
    (modifiedConfig (config e) (spawned e)) block s o n
  = (Some (a, assigned'), n') ->
  Agent.willStand a = false /\ apart (with_spawn e a assigned').
Proof.
  intros Hvalid Hcfg (g & Hgrid & Hbuild & Hgok & Hagents & Hnodup & Hlen & Hgates)
    Hfree Hrows Htake.
  apply take_seat_spec in Htake
    as (Hpos & Hseated & Hstanding & Hws & Hs & Hassigned & Hpath & n1 & Hrow0).
  rewrite modifiedConfig_flag, Hcfg, Hflag in Hassigned.
  split; [done|]. exists g. cbn [with_spawn grid config agents assigned gates spawned].
  unfold destinations. rewrite fmap_app. fold (destinations (agents e)).
  cbn [fmap list_fmap]. rewrite Hs.
  split; [done|]. split; [done|]. split.
  { eapply grid_ok_mono; [|exact Hgok]. intros d Hd. apply elem_of_app. by left. }
  split.
  { apply Forall_app. split.
    - eapply Forall_impl; [exact Hagents|]. intros a0 Ha0.
      eapply agent_ok_frame; [| |exact Ha0]; [|done].
      subst assigned'. apply union_subseteq_r.
    - apply Forall_singleton. exists s. split; [done|].
      unfold terminal. rewrite Hseated, Hstanding, Hws. cbn.
      split; [|split; [done | subst assigned'; by apply elem_of_union_l, elem_of_singleton]].
      rewrite Hpos, Hpath. destruct gate as [r c], s as [r1 c1].
      apply computeSimplePath_last. cbn in Hrows.
      pose proof (Qfloor_draw_nonneg o n1 Hvalid). lia. }
  split.
  { apply NoDup_app. split; [done|]. split; [|apply NoDup_singleton].
    intros d Hd ->%list_elem_of_singleton.
    destruct (agent_ok_dest _ _ _ _ Hagents Hd) as [[? _] | [_ ?]]; [lia | done]. }
  split; [|done]. rewrite length_app. cbn. lia.
Qed.

(** A new agent bound for the back rows, and the reservation of its
    position. *)
Lemma apart_stand_in_back (e : t) (gate : Pos) (block : option Z)
    (o : Oracle) (n n' : nat) (a : Agent.t) :
  valid_oracle o -> config e = cfg -> apart e ->
  spawned e < NUM_AGENTS (config e) ->
  Agent.stand_in_back (grid_of e) gate (modifiedConfig (config e) (spawned e))
    block o n = (a, n') ->
  exists dest g',
    Agent.willStand a = true /\ Agent.seat a = Some dest /\
    (grid e ≫= fun g => grid_set g (fst dest) (snd dest) STANDING) = Some g' /\
    apart (with_grid (with_spawn e a (assigned e)) g').
Proof.
  intros Hvalid Hcfg (g & Hgrid & Hbuild & Hgok & Hagents & Hnodup & Hlen & Hgates)
    Hlt Hstand.
  assert (Hg : grid_of e = g) by (unfold grid_of; by rewrite Hgrid).
  rewrite Hg in Hstand. rewrite Hcfg in Hgok, Hlt.
  assert (Hdests : length (destinations (agents e)) = length (agents e))
    by apply length_fmap.
  destruct (findStandingPosition_free cfg (gates e) (destinations (agents e)) g
              HROWS Hgok o n Hvalid ltac:(lia) ltac:(lia))
    as (t0 & cell & n0 & Hfind & Hrows & Hcell & Hcan).
  apply stand_in_back_spec in Hstand
    as (Hpos & Hseated & [(t1 & Hfind1 & Hs & Hws & Hstanding & Hpath)
                          | (Hfind1 & _)]); [|congruence].
  assert (t1 = t0) as -> by congruence.
  destruct (grid_set_is_Some g (fst t0) (snd t0) STANDING) as [g' Hset].
  { unfold grid_get in Hcell. by destruct (grid_row g (fst t0)). }
  apply can_stand_spec in Hcan as (_ & _ & _ & Hnot).
  exists t0, g'. split; [done|]. split; [done|].
  split; [by rewrite Hgrid|].
  exists g'. cbn [with_grid with_spawn grid config agents assigned gates spawned].
  unfold destinations. rewrite fmap_app. fold (destinations (agents e)).
  cbn [fmap list_fmap]. rewrite Hs, Hcfg.
  split; [done|]. split; [by rewrite <- Hcfg|]. split.
  { apply (grid_set_ok _ _ _ _ _ Hset); [|lia|].
    - eapply grid_ok_mono; [|exact Hgok]. intros d Hd. apply elem_of_app. by left.
    - cbn. apply elem_of_app. right. apply list_elem_of_singleton.
      by destruct t0. }
  split.
  { apply Forall_app. split.
    - eapply Forall_impl; [exact Hagents|]. intros a0 Ha0.
      eapply agent_ok_frame; [done | |exact Ha0].
      intros d _ Hd. rewrite (grid_set_get_ne _ _ _ _ _ Hset); [done|].
      intros Heq. apply Hnot. destruct t0. cbn in *. congruence.
    - apply Forall_singleton. exists t0. split; [done|].
      unfold terminal. rewrite Hseated, Hstanding, Hws. cbn.
      split; [|split; [done | exact (grid_set_get_eq _ _ _ _ _ Hset)]].
      rewrite Hpos, Hpath. destruct gate as [r c], t0 as [r1 c1].
      apply computeSimplePath_last. cbn in Hrows. lia. }
  split.
  { apply NoDup_app. split; [done|]. split; [|apply NoDup_singleton].
    intros d Hd ->%list_elem_of_singleton.
    destruct (agent_ok_dest _ _ _ _ Hagents Hd) as [[_ ?] | [? _]];
      [congruence | lia]. }
  split; [|done]. rewrite length_app. cbn. lia.
Qed.

Lemma apart_spawn_at (o : Oracle) (gate : Pos) (e : t) (occupied : gset Pos)
    (n : nat) (out : Outcome (t * gset Pos)) (n' : nat) :
  valid_oracle o -> config e = cfg -> apart e ->
  spawn_at gate (e, occupied) o n = (out, n') ->
  outcome_sat apart out.
Proof.
  intros Hvalid Hcfg Hapart H.
  apply spawn_at_cases in H
    as [-> | [-> | (a & assigned' & Hlt & Hbuilt & H)]]; try done.
  cbn zeta in H.
  apply constructor_spec in Hbuilt
    as [(block & s & n1 & (Hfree & _ & Hrows) & Htake)
       | (block & n1 & Hstand & ->)].
  - destruct (apart_take_seat _ _ _ _ _ _ _ _ _ Hvalid Hcfg Hapart Hfree Hrows Htake)
      as [Hws Hnew].
    rewrite Hws in H. by subst out.
  - destruct (apart_stand_in_back _ _ _ _ _ _ _ Hvalid Hcfg Hapart Hlt Hstand)
      as (dest & g' & Hws & Hs & Hset & Hnew).
    rewrite Hws, Hs, Hset in H. by subst out.
Qed.

End Apart.


(** ** The marks agents leave on the grid *)

Section Mark.

Variables (g : Grid) (p : Pos) (v : CellType).

Lemma mark_cases :
  Agent.mark g p v = g \/ grid_set g (fst p) (snd p) v = Some (Agent.mark g p v).
Proof.
  unfold Agent.mark. destruct (grid_set g (fst p) (snd p) v); [by right | by left].
Qed.

Lemma mark_get_ne (q : Pos) :
  q <> p ->
  grid_get (Agent.mark g p v) (fst q) (snd q) = grid_get g (fst q) (snd q).
Proof.
  intros Hne. destruct mark_cases as [-> | Hset]; [done|].
  apply (grid_set_get_ne _ _ _ _ _ Hset). destruct p, q. cbn. congruence.
Qed.

Lemma mark_get_eq :
  is_Some (grid_get g (fst p) (snd p)) ->
  grid_get (Agent.mark g p v) (fst p) (snd p) = Some (Some v).
Proof.
  intros [cell Hcell].
  destruct (grid_set_is_Some g (fst p) (snd p) v) as [g' Hset].
  { unfold grid_get in Hcell. by destruct (grid_row g (fst p)). }
  unfold Agent.mark. rewrite Hset. cbn.
  exact (grid_set_get_eq _ _ _ _ _ Hset).
Qed.

Lemma mark_ok (cfg : Config) (gates : list Pos) (dests : list (option Pos)) :
  grid_ok cfg gates dests g -> fst p <> 0 ->
  cell_allowed gates dests (fst p) (snd p) v ->
  grid_ok cfg gates dests (Agent.mark g p v).
Proof.
  intros Hok Hrow Hv. destruct mark_cases as [-> | Hset]; [done|].
  by apply (grid_set_ok _ _ _ _ _ Hset).
Qed.

End Mark.

Section AgentUpdate.

Variables (cfg : Config) (gates : list Pos) (dests : list (option Pos)).
Variable assigned : gset Pos.

(** One call of [update] on an agent in order: the agent stays in order,
    the grid too, and only the cell of its destination can change. *)
Lemma agent_update_ok (a : Agent.t) (g : Grid) :
  agent_ok assigned g a -> Agent.seat a ∈ dests -> grid_ok cfg gates dests g ->
  agent_ok assigned (snd (Agent.update a g)) (fst (Agent.update a g)) /\
  grid_ok cfg gates dests (snd (Agent.update a g)) /\
  forall q, Some q <> Agent.seat a ->
    grid_get (snd (Agent.update a g)) (fst q) (snd q) = grid_get g (fst q) (snd q).
Proof.
  intros Hok Hin Hgrid. pose proof Hok as (d & Hd & Hpos & Hkind).
  unfold Agent.update. unfold terminal in Hpos.
  destruct (Agent.seated a || Agent.standing a) eqn:Hterm; [done|].
  destruct (Agent.path a) as [|next rest] eqn:Hpath.
  - cbn in Hpos. injection Hpos as Hpos.
    assert (Hne : forall q, Some q <> Agent.seat a -> q <> Agent.pos a)
      by (intros q Hq; congruence).
    assert (Hstanding : cell_allowed gates dests (fst (Agent.pos a))
                          (snd (Agent.pos a)) STANDING).
    { cbn. rewrite <- surjective_pairing, Hpos. rewrite Hd in Hin. exact Hin. }
    assert (Hrow : fst (Agent.pos a) <> 0).
    { rewrite Hpos. destruct (Agent.willStand a); lia. }
    destruct (Agent.willStand a) eqn:Hws.
    + cbn [fst snd]. split; [|split].
      * exists d. unfold terminal. cbn. rewrite Hws, orb_true_r.
        split; [done|]. split; [done|]. split; [tauto|].
        rewrite <- Hpos. apply mark_get_eq. rewrite Hpos.
        destruct Hkind as [_ ->]. by eexists.
      * by apply mark_ok.
      * intros q Hq. apply mark_get_ne. by apply Hne.
    + destruct (grid_get g (fst (Agent.pos a)) (snd (Agent.pos a)))
        as [cell|] eqn:Hcell.
      * destruct (cell_is SEAT cell); cbn [fst snd]; (split; [|split]).
        -- exists d. unfold terminal. cbn. by rewrite Hws.
        -- apply mark_ok; [done | done |]. cbn. rewrite Hpos. tauto.
        -- intros q Hq. apply mark_get_ne. by apply Hne.
        -- exists d. unfold terminal. cbn. by rewrite Hws, orb_true_r.
        -- by apply mark_ok.
        -- intros q Hq. apply mark_get_ne. by apply Hne.
      * cbn [fst snd]. split; [|done].
        exists d. unfold terminal. cbn. by rewrite Hws, orb_true_r.
  - cbn [fst snd]. split; [|done].
    exists d. unfold terminal. cbn. rewrite Hterm.
    split; [done|]. split; [|done].
    by rewrite last_cons_cons in Hpos.
Qed.

Lemma agent_update_dest (a : Agent.t) (g : Grid) :
  Agent.seat (fst (if Agent.moving a then Agent.update a g else (a, g)))
  = Agent.seat a.
Proof.
  destruct (Agent.moving a); [|done]. apply agent_update_seat.
Qed.

(** The update loop over agents with distinct destinations. *)
Lemma update_agents_ok (agents : list Agent.t) :
  forall g agents' g',
  SimulationEngine.update_agents agents g = (agents', g') ->
  NoDup (destinations agents) ->
  (forall d, d ∈ destinations agents -> d ∈ dests) ->
  Forall (agent_ok assigned g) agents -> grid_ok cfg gates dests g ->
  destinations agents' = destinations agents /\
  Forall (agent_ok assigned g') agents' /\
  grid_ok cfg gates dests g' /\
  forall q, Some q ∉ destinations agents ->
    grid_get g' (fst q) (snd q) = grid_get g (fst q) (snd q).
Proof.
  induction agents as [|a agents IH]; intros g agents' g' Hupd Hnodup Hsub Hall Hgrid.
  - injection Hupd as <- <-. done.
  - cbn [SimulationEngine.update_agents] in Hupd.
    apply NoDup_cons in Hnodup as [Hfresh Hnodup].
    apply Forall_cons in Hall as [Ha Hall].
    assert (Hin : Agent.seat a ∈ dests) by (apply Hsub; left).
    assert (Hstep :
      agent_ok assigned
        (snd (if Agent.moving a then Agent.update a g else (a, g)))
        (fst (if Agent.moving a then Agent.update a g else (a, g))) /\
      grid_ok cfg gates dests
        (snd (if Agent.moving a then Agent.update a g else (a, g))) /\
      forall q, Some q <> Agent.seat a ->
        grid_get (snd (if Agent.moving a then Agent.update a g else (a, g)))
                 (fst q) (snd q) = grid_get g (fst q) (snd q)).
    { destruct (Agent.moving a); [by apply agent_update_ok | done]. }
    pose proof (agent_update_dest a g) as Hseat.
    destruct (if Agent.moving a then Agent.update a g else (a, g)) as [a1 g1].
    cbn [fst snd] in Hstep, Hseat. destruct Hstep as (Ha1 & Hg1 & Hframe1).
    destruct (SimulationEngine.update_agents agents g1) as [rest g2] eqn:Hrest.
    injection Hupd as <- <-.
    destruct (IH g1 rest g2 Hrest Hnodup) as (Hdests & Hall2 & Hg2 & Hframe2).
    { intros d Hd. apply Hsub. by right. }
    { rewrite Forall_forall. intros b Hb. rewrite Forall_forall in Hall.
      eapply agent_ok_frame; [done | | by apply Hall].
      intros d Hd Hcell. rewrite Hframe1; [done|].
      intros Heq. apply Hfresh. rewrite <- Heq, <- Hd.
      by apply list_elem_of_fmap_2. }
    { done. }
    split; [|split; [|split]].
    + change (destinations (a1 :: rest))
        with (Agent.seat a1 :: destinations rest).
      by rewrite Hseat, Hdests.
    + apply Forall_cons. split; [|done].
      eapply agent_ok_frame; [done | | exact Ha1].
      intros d Hd Hcell. rewrite Hframe2; [done|].
      intros Hd'. apply Hfresh. by rewrite <- Hseat, Hd.
    + done.
    + intros q Hq. cbn in Hq. apply not_elem_of_cons in Hq as [Hq1 Hq2].
      rewrite Hframe2 by done. by apply Hframe1.
Qed.

End AgentUpdate.


(** ** Terminal agents and their cells *)

Section Settled.

Import SimulationEngine.

Variable cfg : Config.
Hypothesis Hflag : FEATURE_ASSIGNED_SEATS cfg = true.
Hypothesis HROWS : 20 <= ROWS cfg.
Hypothesis Hroom : NUM_AGENTS cfg + 2 < 6 * COLS cfg.

Lemma apart_initialize (e : t) :
  config e = cfg -> idle e \/ apart e ->
  idle (fst (initialize e)) \/ apart (fst (initialize e)).
Proof.
  intros Hcfg Hinv. unfold initialize.
  destruct (GridBuilder.buildGrid (config e)) as [g|] eqn:Hbuild; cbn [fst].
  - right. exists g. cbn. rewrite Hbuild, Hcfg. rewrite Hcfg in Hbuild.
    split; [done|]. split; [by eexists|].
    split; [by apply buildGrid_ok|].
    split; [by constructor|]. split; [by constructor|].
    split; [done | apply gates_length].
  - destruct Hinv as [Hidle | (g & _ & [g' Hg'] & _)]; [by left | congruence].
Qed.

Lemma apart_update (e e' : t) (o : Oracle) (n n' : nat) (res : Result) :
  valid_oracle o -> config e = cfg -> idle e \/ apart e ->
  update e o n = (Some (e', res), n') ->
  idle e' \/ apart e'.
Proof.
  intros Hvalid Hcfg Hinv Hu.
  set (I := fun e => config e = cfg /\ apart e).
  assert (Hstep : forall gate e occupied n out n',
             I e -> spawn_at gate (e, occupied) o n = (out, n') ->
             outcome_sat I out).
  { intros gate e0 occ n0 out n0' [Hc Hr] Hs.
    pose proof (spawn_at_config cfg o _ _ _ _ _ _ Hc Hs) as H1.
    pose proof (apart_spawn_at cfg Hflag HROWS Hroom o _ _ _ _ _ _
                  Hvalid Hc Hr Hs) as H2.
    destruct out as [[? ?]|[? ?]|]; done. }
  apply update_cases in Hu
    as [[_ ->] | [(e1 & occ1 & Hloop & ->)
                 | (e1 & occ1 & agents' & g' & Hloop & Hagents & Heq)]].
  - exact Hinv.
  - destruct Hinv as [[_ Hgates] | Hapart].
    + rewrite Hgates in Hloop. discriminate Hloop.
    + right.
      pose proof (spawn_loop_keeps I o Hstep _ _ _ _ _ _
                    (conj Hcfg Hapart) Hloop) as [_ H1].
      exact H1.
  - destruct Heq as (Hc' & Hg' & Ha' & Hs' & Has' & Hgt' & _).
    destruct Hinv as [[Hnone Hgates] | Hapart].
    + left. rewrite Hgates in Hloop. injection Hloop as <- _ _.
      rewrite Hnone in Hagents. injection Hagents as <- _.
      split; [done | congruence].
    + right.
      pose proof (spawn_loop_keeps I o Hstep _ _ _ _ _ _
                    (conj Hcfg Hapart) Hloop)
        as [Hc1 (g1 & Hgrid1 & Hbuild1 & Hgok1 & Hall1 & Hnodup1 & Hlen1 & Hgates1)].
      clear Hloop.
      assert (Hg1 : grid_of e1 = g1) by (unfold grid_of; by rewrite Hgrid1).
      rewrite Hg1 in Hagents.
      destruct (update_agents_ok (config e1) (gates e1)
                  (destinations (agents e1)) (assigned e1) (agents e1)
                  g1 agents' g' Hagents Hnodup1 ltac:(done) Hall1 Hgok1)
        as (Hdests & Hall' & Hgok' & _).
      exists g'. rewrite Hg', Hgrid1, Hc', Ha', Hs', Has', Hgt', Hdests.
      split; [done|]. split; [done|]. split; [done|]. split; [done|].
      split; [done|]. split; [|done].
      rewrite <- Hlen1.
      assert (Hl : length (destinations agents') = length (destinations (agents e1)))
        by (by rewrite Hdests).
      unfold destinations in Hl. rewrite !length_fmap in Hl. by rewrite Hl.
Qed.

Lemma apart_reachable (e : t) : reachable cfg e -> idle e \/ apart e.
Proof.
  induction 1 as [|e He IH|e e' o n n' res He IH Ho Hu].
  - by left.
  - apply apart_initialize; [by apply reachable_config | exact IH].
  - eapply apart_update; [exact Ho | by apply reachable_config | exact IH | exact Hu].
Qed.

End Settled.

(** C2, amended. With [FEATURE_ASSIGNED_SEATS] enabled, a grid of at least
    20 rows and fewer agents than the rows 14 to 19 have cells besides the
    gates ([NUM_AGENTS + 2 < 6 * COLS]), in every reachable state of the
    engine no two agents in a terminal state (seated or standing) report
    the same grid position. *)
Theorem terminal_agents_apart (cfg : Config) (e : SimulationEngine.t)
    (i j : nat) (a b : Agent.t) :
  FEATURE_ASSIGNED_SEATS cfg = true ->
  20 <= ROWS cfg ->
  NUM_AGENTS cfg + 2 < 6 * COLS cfg ->
  reachable cfg e ->
  SimulationEngine.agents e !! i = Some a ->
  SimulationEngine.agents e !! j = Some b ->
  i <> j ->
  terminal a = true -> terminal b = true ->
  Agent.pos a <> Agent.pos b.
Proof.
  intros Hflag HROWS Hroom He Ha Hb Hij Hta Htb Hpos.
  destruct (apart_reachable cfg Hflag HROWS Hroom e He)
    as [[Hnone _] | (g & _ & _ & _ & Hall & Hnodup & _)].
  - by rewrite Hnone in Ha.
  - rewrite Forall_forall in Hall.
    destruct (Hall a (list_elem_of_lookup_2 _ _ _ Ha)) as (da & Hda & Hpa & _).
    destruct (Hall b (list_elem_of_lookup_2 _ _ _ Hb)) as (db & Hdb & Hpb & _).
    rewrite Hta in Hpa. rewrite Htb in Hpb.
    apply Hij. eapply NoDup_lookup; [exact Hnodup | |].
    + unfold destinations. rewrite list_lookup_fmap, Ha. reflexivity.
    + unfold destinations. rewrite list_lookup_fmap, Hb. cbn.
      f_equal. congruence.
Qed.

(** The run of the default layout in which every draw is 0, after 22
    ticks: the agents spawned at gate 10 in the first two ticks sit on the
    seats (10, 2) and (10, 3). *)
Lemma assigned_run_22 :
  exists e, reachable default_config e /\
    report e 0 = Some ((10, 2), Some (10, 2), true, false, false) /\
    report e 3 = Some ((10, 3), Some (10, 3), true, false, false).
Proof.
  assert (Hret : run_returns default_config 0 22 = true)
    by (vm_compute; reflexivity).
  assert (H : (e ← sample_run default_config 0 22;
               Some (report e 0, report e 3))
              = Some (Some ((10, 2), Some (10, 2), true, false, false),
                      Some ((10, 3), Some (10, 3), true, false, false)))
    by (vm_compute; reflexivity).
  destruct (run_returns_Some _ _ _ Hret) as [e Hrun]. clear Hret.
  rewrite Hrun in H. cbn [mbind option_bind] in H.
  injection H as H0 H3.
  pose proof (sample_run_reachable _ _ _ _ zero_oracle_valid Hrun) as He.
  clear Hrun. exists e. split; [exact He|]. split; assumption.
Qed.

Lemma terminal_agents_apart_witness :
  exists e a b,
    reachable default_config e /\
    SimulationEngine.agents e !! 0%nat = Some a /\
    SimulationEngine.agents e !! 3%nat = Some b /\
    terminal a = true /\ terminal b = true /\
    Agent.pos a <> Agent.pos b.
Proof.
  destruct assigned_run_22 as (e & He & Ha & Hb).
  apply report_inv in Ha as (a & Ha & _ & _ & Hseated_a & _).
  apply report_inv in Hb as (b & Hb & _ & _ & Hseated_b & _).
  assert (Hta : terminal a = true) by (unfold terminal; by rewrite Hseated_a).
  assert (Htb : terminal b = true) by (unfold terminal; by rewrite Hseated_b).
  exists e, a, b. split; [exact He|]. split; [exact Ha|]. split; [exact Hb|].
  split; [exact Hta|]. split; [exact Htb|].
  apply (terminal_agents_apart default_config e 0 3 a b); try assumption.
  - reflexivity.
  - cbn. lia.
  - cbn. lia.
  - lia.
Defined.


(** * Further properties of the code *)

(** ** ConfigManager: keys without a rule, and the set of listeners *)

Lemma validator_NUM_BLOCKS :
  ConfigManager.validator "NUM_BLOCKS" ConfigManager.validations = Some (2, 6).
Proof. reflexivity. Qed.



Lemma notifyListeners_ids (key : string) (v : JsValue) (cm : ConfigManager.t)
    (ev : ConfigManager.Event) :
  ev ∈ ConfigManager.notifyListeners key v cm ->
  exists l, l ∈ ConfigManager.listeners cm /\
            event_id ev = ConfigManager.listener_id l.
Proof.
  unfold ConfigManager.notifyListeners. rewrite list_elem_of_In, in_flat_map.
  intros (l & Hl & Hev). exists l. split; [by apply list_elem_of_In|].
  destruct Hev as [<- | Hev]; [done|].
  destruct (ConfigManager.listener_throws l key v); [|done].
  by destruct Hev as [<- | []].
Qed.

Lemma set_listeners (key : string) (v : JsValue) (cm : ConfigManager.t) :
  ConfigManager.listeners (fst (ConfigManager.set key v cm))
  = ConfigManager.listeners cm.
Proof.
  unfold ConfigManager.set. destruct (ConfigManager.validate key v); [|done].
  cbn. by destruct (String.eqb key "NUM_BLOCKS").
Qed.

Lemma set_events_ids (key : string) (v : JsValue) (cm : ConfigManager.t)
    (ev : ConfigManager.Event) :
  ev ∈ snd (ConfigManager.set key v cm) ->
  exists l, l ∈ ConfigManager.listeners cm /\
            event_id ev = ConfigManager.listener_id l.
Proof.
  unfold ConfigManager.set. destruct (ConfigManager.validate key v); cbn.
  - intros Hev. apply notifyListeners_ids in Hev as (l & Hl & Hid).
    exists l. split; [|done]. by destruct (String.eqb key "NUM_BLOCKS").
  - by intros ?%elem_of_nil.
Qed.

(** X2. The listeners are a set: adding a callback twice is adding it
    once; after [removeListener] no later [set] notifies the callback or
    logs an error for it; and removing a callback that was added to a
    manager that did not have it gives the manager back. *)
Theorem listeners_are_a_set (cm : ConfigManager.t) (l : ConfigManager.Listener) :
  ConfigManager.addListener l (ConfigManager.addListener l cm)
  = ConfigManager.addListener l cm /\
  (forall key v ev,
     ev ∈ snd (ConfigManager.set key v (ConfigManager.removeListener l cm)) ->
     event_id ev <> ConfigManager.listener_id l) /\
  (Forall (fun l' => ConfigManager.listener_id l' <> ConfigManager.listener_id l)
          (ConfigManager.listeners cm) ->
   ConfigManager.removeListener l (ConfigManager.addListener l cm) = cm).
Proof.
  split; [|split].
  - unfold ConfigManager.addListener at 2 3.
    destruct (existsb _ (ConfigManager.listeners cm)) eqn:Hex.
    + unfold ConfigManager.addListener. by rewrite Hex.
    + unfold ConfigManager.addListener. cbn.
      rewrite existsb_app. cbn. by rewrite Nat.eqb_refl, orb_true_r.
  - intros key v ev Hev Hid.
    apply set_events_ids in Hev as (l' & Hl' & Hid').
    cbn in Hl'. apply list_elem_of_In, filter_In in Hl' as [_ Hne].
    apply negb_true_iff, Nat.eqb_neq in Hne. congruence.
  - intros Hfresh. destruct cm as [cfg ls]. cbn in Hfresh.
    assert (Hex : existsb
              (fun l' => Nat.eqb (ConfigManager.listener_id l')
                                 (ConfigManager.listener_id l)) ls = false).
    { apply not_true_iff_false. intros (l' & Hl' & Heq)%existsb_exists.
      apply Nat.eqb_eq in Heq. rewrite Forall_forall in Hfresh.
      by apply (Hfresh l'); [apply list_elem_of_In|]. }
    unfold ConfigManager.addListener. cbn. rewrite Hex.
    unfold ConfigManager.removeListener. cbn. f_equal.
    rewrite List.filter_app. cbn. rewrite Nat.eqb_refl. cbn.
    rewrite app_nil_r. apply forallb_filter_id, forallb_forall.
    intros l' Hl'. apply negb_true_iff, Nat.eqb_neq.
    rewrite Forall_forall in Hfresh. by apply Hfresh, list_elem_of_In.
Qed.

(** ** Utils *)

(** X3. [clamp] returns a value of the interval when the bounds are in
    order, the value itself when it already lies in the interval, and the
    lower bound when the bounds are crossed. *)
Theorem clamp_bounds (value lo hi : Q) :
  ((lo <= hi)%Q ->
   (lo <= Utils.clamp value lo hi)%Q /\ (Utils.clamp value lo hi <= hi)%Q) /\
  ((lo <= value)%Q -> (value <= hi)%Q -> (Utils.clamp value lo hi == value)%Q) /\
  ((hi < lo)%Q -> Utils.clamp value lo hi = lo).
Proof.
  unfold Utils.clamp.
  destruct (Qle_bool hi value) eqn:H1;
    [apply Qle_bool_iff in H1 | apply not_true_iff_false in H1;
                                  rewrite Qle_bool_iff in H1].
  - destruct (Qle_bool lo hi) eqn:H2;
      [apply Qle_bool_iff in H2 | apply not_true_iff_false in H2;
                                    rewrite Qle_bool_iff in H2];
      (split; [|split]); intros; try split; lra.
  - destruct (Qle_bool lo value) eqn:H2;
      [apply Qle_bool_iff in H2 | apply not_true_iff_false in H2;
                                    rewrite Qle_bool_iff in H2];
      (split; [|split]); intros; try split; try reflexivity; lra.
Qed.

Lemma weightedChoice_nonempty {A} (items : list A) (weights : list Q)
    (o : Oracle) (n : nat) :
  items <> [] ->
  exists x, fst (Utils.weightedChoice items weights o n) = Some x /\ x ∈ items.
Proof.
  intros Hne. unfold Utils.weightedChoice.
  destruct (Qeq_bool _ 0).
  - destruct items as [|x items]; [done|]. exists x. split; [done | left].
  - unfold bind, random.
    destruct (Utils.weightedChoice_loop _ items weights) as [x|] eqn:Hloop.
    + exists x. split; [done|]. by eapply weightedChoice_loop_elem.
    + destruct (last items) as [x|] eqn:Hlast.
      * exists x. split; [done|]. by apply last_Some_elem_of.
      * by apply last_None in Hlast.
Qed.

(** X4. [weightedChoice] returns an element of a non-empty [items],
    whatever the weights are (too few, too many, negative or all zero) and
    whatever the draw; on an empty [items] it returns [undefined]. *)
Theorem weightedChoice_total {A} (items : list A) (weights : list Q)
    (o : Oracle) (n : nat) :
  (items = [] -> fst (Utils.weightedChoice items weights o n) = None) /\
  (items <> [] ->
   exists x, fst (Utils.weightedChoice items weights o n) = Some x /\ x ∈ items).
Proof.
  split; [|apply weightedChoice_nonempty].
  intros ->. unfold Utils.weightedChoice.
  destruct (Qeq_bool _ 0); [done|]. unfold bind, random. by destruct weights.
Qed.


(** ** Corridors *)

Section Corridors.

Variables cols numBlocks corridorWidth : Z.
Hypothesis HnumBlocks : 1 <= numBlocks.
Hypothesis HcorridorWidth : 1 <= corridorWidth.
Hypothesis Hroom : 0 <= block_width cols numBlocks corridorWidth.

Local Abbreviation blockWidth := (block_width cols numBlocks corridorWidth).
Local Abbreviation blocks :=
  (GridBuilder.generateSeatBlocks cols numBlocks corridorWidth).
Local Abbreviation segs :=
  (GridBuilder.generateCorridorSegments cols blocks corridorWidth).

(** The corridor to the right of block [i]: no column of it is cut off. *)
Lemma corridor_after_block (i : nat) (blk : Z * Z) :
  blocks !! i = Some blk ->
  List.filter (fun col => col <? cols)
    ((fun j => snd blk + 1 + j) <$> seqZ 0 corridorWidth)
  = seqZ (Z.of_nat (S i) * (blockWidth + corridorWidth)) corridorWidth.
Proof.
  intros Hblk. apply generateSeatBlocks_lookup in Hblk as (Hi & Hs & He).
  pose proof (blocks_fit cols numBlocks corridorWidth ltac:(lia)) as Hfit.
  change (fun j => snd blk + 1 + j) with (Z.add (snd blk + 1)).
  rewrite fmap_add_seqZ.
  replace (snd blk + 1 + 0)
    with (Z.of_nat (S i) * (blockWidth + corridorWidth)) by lia.
  apply forallb_filter_id, forallb_forall. intros c Hc.
  apply list_elem_of_In, elem_of_seqZ in Hc. apply Z.ltb_lt. nia.
Qed.

Lemma corridor_segments_eq :
  segs = (fun i => seqZ (i * (blockWidth + corridorWidth)) corridorWidth)
         <$> seqZ 0 (numBlocks + 1).
Proof.
  unfold GridBuilder.generateCorridorSegments. cbv zeta.
  rewrite (seqZ_cons 0 (numBlocks + 1)) by lia. cbn [fmap list_fmap].
  rewrite Z.mul_0_l. f_equal.
  replace (Z.pred (numBlocks + 1)) with numBlocks by lia.
  assert (Hflat : forall (l : list (Z * Z)) (k : nat),
    (forall j blk, l !! j = Some blk -> blocks !! (k + j)%nat = Some blk) ->
    flat_map (fun blk : Z * Z =>
      match List.filter (fun col => col <? cols)
              ((fun j => snd blk + 1 + j) <$> seqZ 0 corridorWidth) with
      | [] => []
      | _ :: _ =>
          [List.filter (fun col => col <? cols)
             ((fun j => snd blk + 1 + j) <$> seqZ 0 corridorWidth)]
      end) l
    = (fun j => seqZ (Z.of_nat (S (k + j)) * (blockWidth + corridorWidth))
                     corridorWidth) <$> seq 0 (length l)).
  { induction l as [|blk l IH]; intros k Hl; [done|].
    cbn [flat_map length seq fmap list_fmap].
    rewrite (corridor_after_block k blk)
      by (rewrite <- (Hl 0%nat blk eq_refl); f_equal; lia).
    rewrite (seqZ_cons _ corridorWidth) by lia. cbn [app].
    rewrite <- (seqZ_cons _ corridorWidth) by lia.
    replace (k + 0)%nat with k by lia. f_equal.
    rewrite (IH (S k)).
    - rewrite <- fmap_S_seq, <- list_fmap_compose. apply list_fmap_ext.
      intros _ j _. cbn. do 3 f_equal. lia.
    - intros j blk' Hj. rewrite <- (Hl (S j) blk' Hj). f_equal. lia. }
  rewrite (Hflat blocks 0%nat) by done.
  rewrite generateSeatBlocks_length.
  apply list_eq. intros i. rewrite !list_lookup_fmap.
  destruct (decide (i < Z.to_nat numBlocks)%nat) as [Hi | Hi].
  - rewrite lookup_seq_lt by done. rewrite lookup_seqZ_lt by lia.
    cbn. do 3 f_equal. lia.
  - rewrite lookup_seq_ge by lia. rewrite lookup_seqZ_ge by lia. done.
Qed.

Lemma corridor_segments_lookup (i : Z) :
  0 <= i <= numBlocks ->
  at_index segs i = Some (seqZ (i * (blockWidth + corridorWidth)) corridorWidth).
Proof.
  intros Hi. rewrite corridor_segments_eq. unfold at_index.
  destruct (Z.leb_spec 0 i); [|lia].
  rewrite list_lookup_fmap, lookup_seqZ_lt by lia. cbn. do 3 f_equal. lia.
Qed.

Lemma corridor_segments_outside (i : Z) :
  i < 0 \/ numBlocks < i -> at_index segs i = None.
Proof.
  intros Hi. rewrite corridor_segments_eq. unfold at_index.
  destruct (Z.leb_spec 0 i); [|done].
  rewrite list_lookup_fmap, lookup_seqZ_ge by lia. done.
Qed.

End Corridors.

(** X5. When the corridors leave room for blocks
    ([(numBlocks + 1) * corridorWidth <= cols]), the segments computed for
    the blocks of [generateSeatBlocks] are exactly [numBlocks + 1]: the
    left margin and one full corridor to the right of every block, segment
    [i] being the [corridorWidth] columns from
    [i * (blockWidth + corridorWidth)] on.  The bounds filter drops no
    column, every corridor column lies inside the grid and none lies in a
    seat block. *)
Theorem corridor_segments_layout (cols numBlocks corridorWidth : Z) :
  1 <= numBlocks -> 1 <= corridorWidth ->
  0 <= block_width cols numBlocks corridorWidth ->
  let blockWidth := block_width cols numBlocks corridorWidth in
  let blocks := GridBuilder.generateSeatBlocks cols numBlocks corridorWidth in
  let segs := GridBuilder.generateCorridorSegments cols blocks corridorWidth in
  length segs = Z.to_nat (numBlocks + 1) /\
  (forall (i : nat) seg,
     segs !! i = Some seg ->
     seg = seqZ (Z.of_nat i * (blockWidth + corridorWidth)) corridorWidth) /\
  (forall seg c, seg ∈ segs -> c ∈ seg ->
     0 <= c < cols /\ ~ in_blocks blocks c).
Proof.
  intros Hn Hw Hbw blockWidth blocks segs.
  pose proof (corridor_segments_eq cols numBlocks corridorWidth Hn Hw Hbw) as Heq.
  fold blockWidth blocks segs in Heq.
  assert (Hlookup : forall (i : nat) seg, segs !! i = Some seg ->
            Z.of_nat i <= numBlocks /\
            seg = seqZ (Z.of_nat i * (blockWidth + corridorWidth)) corridorWidth).
  { intros i seg. rewrite Heq, list_lookup_fmap.
    destruct (seqZ 0 (numBlocks + 1) !! i) as [k|] eqn:Hk; [|discriminate].
    apply lookup_seqZ in Hk as [-> Hi]. cbn. intros [= <-].
    split; [lia | done]. }
  split; [by rewrite Heq, length_fmap, length_seqZ|].
  split; [intros i seg Hi; by apply Hlookup|].
  intros seg c Hseg Hc.
  apply list_elem_of_lookup in Hseg as [i Hi].
  apply Hlookup in Hi as [Hi ->]. apply elem_of_seqZ in Hc.
  pose proof (blocks_fit cols numBlocks corridorWidth ltac:(lia)) as Hfit.
  fold blockWidth in Hfit, Hbw.
  split; [nia|].
  intros (blk & Hblk & Hin). apply list_elem_of_lookup in Hblk as [j Hj].
  apply generateSeatBlocks_lookup in Hj as (Hjn & Hs & He).
  fold blockWidth in Hs, He.
  destruct (Z.le_gt_cases (Z.of_nat i) (Z.of_nat j)); nia.
Qed.

Lemma corridor_segments_layout_witness :
  GridBuilder.generateCorridorSegments 68
    (GridBuilder.generateSeatBlocks 68 4 2) 2 !! 4%nat = Some [64; 65].
Proof.
  destruct (corridor_segments_layout 68 4 2) as (_ & H & _);
    [lia | lia | vm_compute; discriminate |].
  assert (Hsome : is_Some (GridBuilder.generateCorridorSegments 68
            (GridBuilder.generateSeatBlocks 68 4 2) 2 !! 4%nat))
    by (vm_compute; by eexists).
  destruct Hsome as [seg Hseg]. rewrite Hseg. f_equal.
  rewrite (H 4%nat seg Hseg). vm_compute. reflexivity.
Defined.

(** X6. With the segments of X5, the loop of [initialize] gives every
    block [i] exactly two corridors, the one on its left and the one on
    its right, in this order; the branch for a rightmost block without a
    right corridor is never taken. *)
Theorem block_corridors (cols numBlocks corridorWidth i : Z) :
  1 <= numBlocks -> 1 <= corridorWidth ->
  0 <= block_width cols numBlocks corridorWidth ->
  0 <= i < numBlocks ->
  let blockWidth := block_width cols numBlocks corridorWidth in
  let blocks := GridBuilder.generateSeatBlocks cols numBlocks corridorWidth in
  let segs := GridBuilder.generateCorridorSegments cols blocks corridorWidth in
  SimulationEngine.available_corridors segs numBlocks i
  = [seqZ (i * (blockWidth + corridorWidth)) corridorWidth;
     seqZ ((i + 1) * (blockWidth + corridorWidth)) corridorWidth].
Proof.
  intros Hn Hw Hbw Hi blockWidth blocks segs.
  unfold SimulationEngine.available_corridors. subst segs blocks.
  rewrite (corridor_segments_lookup cols numBlocks corridorWidth Hn Hw Hbw i)
    by lia.
  rewrite (corridor_segments_lookup cols numBlocks corridorWidth Hn Hw Hbw (i + 1))
    by lia.
  reflexivity.
Qed.

Lemma block_corridors_witness :
  SimulationEngine.available_corridors
    (GridBuilder.generateCorridorSegments 68
       (GridBuilder.generateSeatBlocks 68 4 2) 2) 4 3
  = [[48; 49]; [64; 65]].
Proof.
  rewrite (block_corridors 68 4 2 3);
    [vm_compute; reflexivity | lia | lia | vm_compute; discriminate | lia].
Defined.


(** ** The corridor and the block of an agent *)

Lemma closest_column_fold (seatCol : Z) (seg : list Z) : forall best,
  let c := fold_left
             (fun best c =>
                if Z.abs (seatCol - c) <? Z.abs (seatCol - best) then c else best)
             seg best in
  (c = best \/ c ∈ seg) /\
  Z.abs (seatCol - c) <= Z.abs (seatCol - best) /\
  forall c', c' ∈ seg -> Z.abs (seatCol - c) <= Z.abs (seatCol - c').
Proof.
  induction seg as [|x seg IH]; intros best; cbn zeta.
  - cbn [fold_left]. split; [by left|]. split; [lia|]. by intros c' ?%elem_of_nil.
  - cbn [fold_left]. specialize (IH (if Z.abs (seatCol - x) <? Z.abs (seatCol - best)
                                     then x else best)).
    cbn zeta in IH. destruct IH as (Hin & Hle & Hall).
    destruct (Z.ltb_spec (Z.abs (seatCol - x)) (Z.abs (seatCol - best))).
    + split; [right; destruct Hin as [-> | Hin]; [left | by right]|].
      split; [lia|]. intros c' [-> | Hc']%elem_of_cons; [lia | by apply Hall].
    + split; [destruct Hin as [-> | Hin]; [by left | right; by right]|].
      split; [lia|]. intros c' [-> | Hc']%elem_of_cons; [lia | by apply Hall].
Qed.

Lemma closest_column_spec (seatCol : Z) (seg : list Z) :
  seg <> [] ->
  exists c, PathfindingEngine.closest_column seatCol seg = Some c /\ c ∈ seg /\
    forall c', c' ∈ seg -> Z.abs (seatCol - c) <= Z.abs (seatCol - c').
Proof.
  destruct seg as [|c0 seg]; [done|]. intros _.
  destruct (closest_column_fold seatCol seg c0) as (Hin & Hle & Hall).
  eexists. split; [reflexivity|]. split.
  - destruct Hin as [-> | Hin]; [left | by right].
  - intros c' [-> | Hc']%elem_of_cons; [exact Hle | by apply Hall].
Qed.

(** X7. [pickPreferredCorridorCell] answers 4 for a block without an entry
    in [blockToCorridorCells]; for a block whose entry is a non-empty list
    of non-empty segments it returns a column of one of these segments,
    and no column of that segment is closer to the seat column. *)
Theorem pickPreferredCorridorCell_closest (block : option Z) (seatCol : Z)
    (blockToCorridorCells : list (list (list Z))) (o : Oracle) (n : nat) :
  let result :=
    fst (PathfindingEngine.pickPreferredCorridorCell block seatCol
           blockToCorridorCells o n) in
  (block ≫= at_index blockToCorridorCells = None -> result = Some 4) /\
  (forall segments,
     block ≫= at_index blockToCorridorCells = Some segments ->
     segments <> [] -> Forall (fun seg => seg <> []) segments ->
     exists seg c, seg ∈ segments /\ c ∈ seg /\ result = Some c /\
       forall c', c' ∈ seg -> Z.abs (seatCol - c) <= Z.abs (seatCol - c')).
Proof.
  cbn zeta. unfold PathfindingEngine.pickPreferredCorridorCell. split.
  - by intros ->.
  - intros segments -> Hne Hall.
    destruct (weightedChoice_nonempty segments
                (PathfindingEngine.segment_weight seatCol <$> segments) o n Hne)
      as (seg & Hseg & Hin).
    unfold bind.
    destruct (Utils.weightedChoice segments _ o n) as [chosen n1].
    cbn in Hseg. subst chosen.
    rewrite Forall_forall in Hall.
    destruct (closest_column_spec seatCol seg (Hall seg Hin))
      as (c & Hc & Hcin & Hmin).
    exists seg, c. cbn. rewrite Hc. done.
Qed.

Lemma findIndex_range (gateCol : Z) (gates : list Pos) : forall i k,
  PathfindingEngine.findIndex gateCol gates i = Some k ->
  i <= k < i + Z.of_nat (length gates).
Proof.
  induction gates as [|gate gates IH]; intros i k; [discriminate|].
  cbn [PathfindingEngine.findIndex length].
  destruct (snd gate =? gateCol).
  - intros [= <-]. lia.
  - intros Hk. apply IH in Hk. lia.
Qed.

Lemma closest_gate_nonneg (gateCol : Z) (gates : list Pos) :
  0 <= PathfindingEngine.closest_gate gateCol gates.
Proof.
  unfold PathfindingEngine.closest_gate. destruct gates as [|g0 gates]; [done|].
  assert (H : forall (l : list Pos) (st : Z * Z * Z),
    0 <= fst (fst st) -> 0 <= snd st ->
    0 <= fst (fst (fold_left
      (fun (st : Z * Z * Z) (gate : Pos) =>
         let '(closest, closestCol, index) := st in
         if Z.abs (snd gate - gateCol) <? Z.abs (closestCol - gateCol)
         then (index, snd gate, index + 1)
         else (closest, closestCol, index + 1)) l st))).
  { induction l as [|gate l IH]; intros [[closest closestCol] index] H1 H2;
      [done|].
    cbn [fold_left]. apply IH;
      destruct (Z.abs (snd gate - gateCol) <? Z.abs (closestCol - gateCol));
      cbn in *; lia. }
  apply H; cbn; lia.
Qed.

(** X8. [pickBlockBasedOnGate] answers 0 without a draw when there are no
    gates or no blocks; otherwise it returns the index of a block,
    [0 <= b < numBlocks], for every gate column and every draw. *)
Theorem pickBlockBasedOnGate_range (gateCol numBlocks : Z) (gates : list Pos)
    (o : Oracle) (n : nat) :
  (gates = [] \/ numBlocks <= 0 ->
   PathfindingEngine.pickBlockBasedOnGate gateCol numBlocks gates o n
   = (Some 0, n)) /\
  (gates <> [] -> 1 <= numBlocks ->
   exists b,
     fst (PathfindingEngine.pickBlockBasedOnGate gateCol numBlocks gates o n)
     = Some b /\ 0 <= b < numBlocks).
Proof.
  unfold PathfindingEngine.pickBlockBasedOnGate. split.
  - intros [-> | Hn]; [done|].
    rewrite (proj2 (Z.leb_le numBlocks 0) Hn). by rewrite orb_true_r.
  - intros Hgates Hn.
    assert (Hlen : 0 < Z.of_nat (length gates))
      by (destruct gates; [done | cbn; lia]).
    rewrite (proj2 (Z.eqb_neq _ 0)) by lia.
    rewrite (proj2 (Z.leb_gt numBlocks 0)) by lia. cbn [orb].
    destruct (PathfindingEngine.findIndex gateCol gates 0) as [k|] eqn:Hk.
    + apply findIndex_range in Hk.
      assert (Hbase : 0 <= k * numBlocks / Z.of_nat (length gates) < numBlocks).
      { split; [apply Z.div_pos; nia|]. apply Z.div_lt_upper_bound; nia. }
      remember (k * numBlocks / Z.of_nat (length gates)) as baseBlock
        eqn:HbaseBlock. clear HbaseBlock.
      rewrite (proj2 (Z.ltb_lt baseBlock numBlocks)) by lia.
      destruct (Z.ltb_spec (baseBlock + 1) numBlocks);
        destruct (Z.ltb_spec 0 baseBlock); cbn -[Utils.weightedChoice];
        try change (Z.of_nat 2 <? 2) with false;
        try change (Z.of_nat 1 <? 2) with true;
        cbn -[Utils.weightedChoice];
        match goal with
        | |- context [Utils.weightedChoice ?items ?ws o n] =>
            destruct (weightedChoice_nonempty items ws o n ltac:(done))
              as (b & Hb & Hin)
        end;
        exists b; (split; [exact Hb|]);
        rewrite ?elem_of_cons, elem_of_nil in Hin; lia.
    + pose proof (closest_gate_nonneg gateCol gates) as Hclosest.
      assert (Hbase :
        0 <= Z.min (PathfindingEngine.closest_gate gateCol gates
                    * Z.max 1 (numBlocks / Z.of_nat (length gates)))
                   (numBlocks - 1) < numBlocks) by nia.
      remember (Z.min (PathfindingEngine.closest_gate gateCol gates
                       * Z.max 1 (numBlocks / Z.of_nat (length gates)))
                      (numBlocks - 1)) as baseBlock eqn:HbaseBlock.
      clear HbaseBlock.
      destruct (Z.ltb_spec 0 baseBlock);
        destruct (Z.ltb_spec baseBlock (numBlocks - 1));
        cbn -[Utils.weightedChoice];
        match goal with
        | |- context [Utils.weightedChoice ?items ?ws o n] =>
            destruct (weightedChoice_nonempty items ws o n ltac:(done))
              as (b & Hb & Hin)
        end;
        exists b; (split; [exact Hb|]);
        rewrite ?elem_of_cons, elem_of_nil in Hin; lia.
Qed.


(** ** Paths are walks *)

Lemma walk_singleton (p : Pos) : walk [p].
Proof. intros i x y _ Hy. destruct i; discriminate. Qed.

Lemma walk_cons (p q : Pos) (l : list Pos) :
  adjacent p q -> walk (q :: l) -> walk (p :: q :: l).
Proof.
  intros Hpq Hl [|i] x y Hx Hy.
  - cbn in Hx, Hy. by injection Hx as <-; injection Hy as <-.
  - by apply (Hl i).
Qed.

Lemma walk_tail (p : Pos) (l : list Pos) : walk (p :: l) -> walk l.
Proof. intros Hl i x y Hx Hy. by apply (Hl (S i)). Qed.

(** A walk that ends where another one starts goes on with it. *)
Lemma walk_app (l1 : list Pos) : forall (p q : Pos) (l2 : list Pos),
  walk (p :: l1) -> last (p :: l1) = Some q -> walk (q :: l2) ->
  walk (p :: l1 ++ l2) /\ last (p :: l1 ++ l2) = last (q :: l2).
Proof.
  induction l1 as [|x l1 IH]; intros p q l2 H1 Hlast H2.
  - cbn in Hlast. injection Hlast as ->. done.
  - rewrite last_cons_cons in Hlast.
    destruct (IH x q l2 (walk_tail _ _ H1) Hlast H2) as [Hw Hl].
    split.
    + cbn [app]. apply walk_cons; [|done]. by apply (H1 0%nat).
    + cbn [app]. by rewrite last_cons_cons.
Qed.

Section Legs.

Variable cell : Z -> Pos.
Hypothesis Hstep : forall x y, Z.abs (x - y) = 1 -> adjacent (cell x) (cell y).

Lemma walk_forward (n : nat) : forall a,
  walk (cell a :: (cell <$> seqZ (a + 1) (Z.of_nat n))).
Proof.
  induction n as [|n IH]; intros a; [apply walk_singleton|].
  rewrite seqZ_cons by lia. cbn [fmap list_fmap].
  apply walk_cons; [apply Hstep; lia|].
  replace (Z.pred (Z.of_nat (S n))) with (Z.of_nat n) by lia.
  replace (Z.succ (a + 1)) with (a + 1 + 1) by lia. apply IH.
Qed.

Lemma walk_backward (n : nat) (b : Z) :
  walk (cell (b + Z.of_nat n) :: (cell <$> reverse (seqZ b (Z.of_nat n)))).
Proof.
  induction n as [|n IH]; [apply walk_singleton|].
  rewrite seqZ_S, reverse_snoc. cbn [fmap list_fmap].
  apply walk_cons; [apply Hstep; lia | exact IH].
Qed.

(** A leg from [a] to [b]: a walk that ends at [b], of [|b - a|] cells. *)
Lemma leg_between (a b : Z) :
  walk (cell a :: (cell <$> cells_between a b)) /\
  last (cell a :: (cell <$> cells_between a b)) = Some (cell b) /\
  Z.of_nat (length (cell <$> cells_between a b)) = Z.abs (b - a).
Proof.
  split; [|split].
  - unfold cells_between. destruct (Z.ltb_spec a b).
    + replace (b - a) with (Z.of_nat (Z.to_nat (b - a))) by lia.
      apply walk_forward.
    + replace (cell a) with (cell (b + Z.of_nat (Z.to_nat (a - b))))
        by (f_equal; lia).
      replace (a - b) with (Z.of_nat (Z.to_nat (a - b))) at 2 by lia.
      apply walk_backward.
  - destruct (Z.eq_dec a b) as [-> | Hne].
    + by rewrite cells_between_same.
    + rewrite last_cons, fmap_last, last_cells_between by done. done.
  - rewrite length_fmap. unfold cells_between. destruct (Z.ltb_spec a b).
    + rewrite length_seqZ. lia.
    + rewrite length_reverse, length_seqZ. lia.
Qed.

Lemma leg_up (a b : Z) :
  b <= a ->
  walk (cell a :: (cell <$> cells_up a b)) /\
  last (cell a :: (cell <$> cells_up a b)) = Some (cell b) /\
  Z.of_nat (length (cell <$> cells_up a b)) = a - b.
Proof.
  intros Hba. split; [|split].
  - unfold cells_up.
    replace (cell a) with (cell (b + Z.of_nat (Z.to_nat (a - b))))
      by (f_equal; lia).
    replace (a - b) with (Z.of_nat (Z.to_nat (a - b))) at 2 by lia.
    apply walk_backward.
  - destruct (Z.eq_dec a b) as [-> | Hne].
    + by rewrite cells_up_none.
    + rewrite last_cons, fmap_last, last_cells_up by lia. done.
  - rewrite length_fmap. unfold cells_up.
    rewrite length_reverse, length_seqZ. lia.
Qed.

End Legs.

Lemma adjacent_in_column (c x y : Z) :
  Z.abs (x - y) = 1 -> adjacent (x, c) (y, c).
Proof. unfold adjacent. cbn. lia. Qed.

Lemma adjacent_in_row (r x y : Z) :
  Z.abs (x - y) = 1 -> adjacent (r, x) (r, y).
Proof. unfold adjacent. cbn. lia. Qed.

Lemma computeSimplePath_route (r c corridor r1 c1 row0 : Z) :
  r1 <= row0 ->
  let path := PathfindingEngine.computeSimplePath (r, c) corridor (r1, c1) row0 in
  walk ((r, c) :: path) /\ last ((r, c) :: path) = Some (r1, c1).
Proof.
  intros Hrow path. subst path. rewrite computeSimplePath_legs.
  destruct (leg_between (fun rr => (rr, c)) (adjacent_in_column c) r row0)
    as (Hw1 & Hl1 & _).
  destruct (leg_between (fun cc => (row0, cc)) (adjacent_in_row row0) c corridor)
    as (Hw2 & Hl2 & _).
  destruct (leg_up (fun rr => (rr, corridor)) (adjacent_in_column corridor)
              row0 r1 Hrow) as (Hw3 & Hl3 & _).
  destruct (leg_between (fun cc => (r1, cc)) (adjacent_in_row r1) corridor c1)
    as (Hw4 & Hl4 & _).
  cbn beta in *.
  destruct (walk_app _ _ _ _ Hw3 Hl3 Hw4) as [Hw34 Hl34].
  rewrite Hl4 in Hl34.
  destruct (walk_app _ _ _ _ Hw2 Hl2 Hw34) as [Hw234 Hl234].
  rewrite Hl34 in Hl234.
  destruct (walk_app _ _ _ _ Hw1 Hl1 Hw234) as [Hw Hl].
  rewrite Hl234 in Hl. done.
Qed.




(** ** A new agent and its path *)

Lemma first_candidates_rows (grid : Grid) (rows : list Z) : forall cs p,
  SeatSelectionEngine.first_candidates grid rows = Some cs -> p ∈ cs ->
  fst p ∈ rows.
Proof.
  induction rows as [|r rows IH]; intros cs p;
    cbn [SeatSelectionEngine.first_candidates].
  - intros [= <-]. by intros ?%elem_of_nil.
  - destruct (SeatSelectionEngine.standing_candidates grid r) as [[|q cs']|] eqn:Hr;
      [| |discriminate].
    + intros Hcs Hp. right. by eapply IH.
    + intros [= <-] Hp.
      destruct (standing_candidates_spec grid r _ Hr) as (row0 & _ & Hspec).
      destruct (proj1 (Hspec p) Hp) as (c & cell & -> & _). cbn. left.
Qed.

(** Whatever the grid, the position [findStandingPosition] returns lies in
    the rows 14 to 19. *)
Lemma findStandingPosition_rows (grid : Grid) (o : Oracle) (n n' : nat) (t : Pos) :
  valid_oracle o ->
  SeatSelectionEngine.findStandingPosition grid o n = (Some t, n') ->
  14 <= fst t <= 19.
Proof.
  intros Hvalid. unfold SeatSelectionEngine.findStandingPosition.
  destruct (SeatSelectionEngine.first_candidates grid _) as [[|p cs]|] eqn:Hfirst.
  - unfold bind. rewrite random_index_spec.
    destruct (Hvalid n) as [Hu0 Hu1].
    pose proof (Qfloor_index _ 6 Hu0 Hu1 ltac:(lia)) as H6.
    remember (Qfloor (draw o n * inject_Z 6)) as k eqn:Hk. clear Hk.
    destruct (grid_row grid 0) as [row0|].
    + unfold bind. rewrite random_index_spec. intros [= <- _]. cbn [fst].
      unfold SIM_CONSTANTS.BACK_ROWS_START. lia.
    + intros [= <- _]. cbn. lia.
  - unfold bind. rewrite random_index_spec. intros [= Ht _].
    apply at_index_elem_of in Ht.
    apply (first_candidates_rows _ _ _ _ Hfirst) in Ht.
    unfold SeatSelectionEngine.standing_rows in Ht.
    rewrite !elem_of_cons, elem_of_nil in Ht. lia.
  - intros [= <- _]. cbn. lia.
Qed.

(** X10. Every agent the constructor returns with a destination starts at
    its spawn cell, is moving, and has a path that is a walk from the
    spawn cell to the destination: a seat of the rows 6 to 13, or a
    standing position of the rows 14 to 19. *)
Theorem constructor_path (grid : Grid) (spawn : Pos) (assigned : gset Pos)
    (seatBlocks : list (Z * Z)) (blockToCorridorCells : list (list (list Z)))
    (config : Config) (gates : list Pos) (o : Oracle) (n n' : nat)
    (a : Agent.t) (assigned' : gset Pos) (d : Pos) :
  valid_oracle o ->
  Agent.constructor grid spawn assigned seatBlocks blockToCorridorCells config
                    gates o n = (Some (a, assigned'), n') ->
  Agent.seat a = Some d ->
  Agent.pos a = spawn /\ Agent.moving a = true /\
  walk (spawn :: Agent.path a) /\ last (spawn :: Agent.path a) = Some d /\
  (if Agent.willStand a then 14 <= fst d <= 19 else 6 <= fst d < 14).
Proof.
  intros Hvalid Hctor Hd. destruct spawn as [r c], d as [r1 c1].
  apply constructor_spec in Hctor
    as [(block & s & n1 & (_ & _ & Hrows) & Htake)
       | (block & n1 & Hstand & _)].
  - apply take_seat_spec in Htake
      as (Hpos & Hseated & Hstanding & Hws & Hs & _ & Hpath & n2 & Hrow0).
    assert (s = (r1, c1)) as -> by congruence. cbn in Hrows.
    pose proof (Qfloor_draw_nonneg o n2 Hvalid) as Hk.
    destruct (computeSimplePath_route r c (Agent.corridor a) r1 c1 (Agent.row0 a)
                ltac:(lia)) as [Hw Hl].
    unfold Agent.moving. rewrite Hseated, Hstanding, Hws, Hpath. done.
  - apply stand_in_back_spec in Hstand
      as (Hpos & Hseated & [(t & Hfind & Hs & Hws & Hstanding & Hpath)
                            | (_ & Hs & _)]); [|congruence].
    assert (t = (r1, c1)) as -> by congruence.
    apply (findStandingPosition_rows _ _ _ _ _ Hvalid) in Hfind. cbn in Hfind.
    destruct (computeSimplePath_route r c (CORRIDOR_WIDTH config) r1 c1 19
                ltac:(lia)) as [Hw Hl].
    unfold Agent.moving. rewrite Hseated, Hstanding, Hws, Hpath. done.
Qed.

Lemma constructor_path_witness :
  exists a assigned' n',
    Agent.constructor (SimulationEngine.grid_of (initialized default_config))
      (19, 10) ∅
      (SimulationEngine.seatBlocks (initialized default_config))
      (SimulationEngine.blockToCorridorCells (initialized default_config))
      default_config
      (SimulationEngine.gates (initialized default_config))
      (constant_oracle 0) 0%nat = (Some (a, assigned'), n') /\
    last ((19, 10) :: Agent.path a) = Some (9, 2).
Proof.
  assert (H : exists a assigned' n',
    Agent.constructor (SimulationEngine.grid_of (initialized default_config))
      (19, 10) ∅
      (SimulationEngine.seatBlocks (initialized default_config))
      (SimulationEngine.blockToCorridorCells (initialized default_config))
      default_config
      (SimulationEngine.gates (initialized default_config))
      (constant_oracle 0) 0%nat = (Some (a, assigned'), n') /\
    Agent.seat a = Some (9, 2)).
  { vm_compute. eexists _, _, _. split; reflexivity. }
  destruct H as (a & assigned' & n' & Hctor & Hseat).
  exists a, assigned', n'. split; [exact Hctor|].
  destruct (constructor_path _ _ _ _ _ _ _ _ _ _ _ _ _
              zero_oracle_valid Hctor Hseat) as (_ & _ & _ & H & _).
  exact H.
Defined.


(** ** Seat selection *)

Lemma countAdjacentSeated_fold (grid : Grid) (seat : Pos) (ds : list (Z * Z)) :
  forall acc k,
  foldl (fun count (d : Z * Z) =>
           count ← count;
           let rr := fst seat + fst d in
           let cc := snd seat + snd d in
           row0 ← grid_row grid 0;
           if Utils.isValidPosition rr cc (Z.of_nat (length grid))
                                    (row_length row0)
           then cell ← grid_get grid rr cc;
                Some (if cell_is SEATED_AGENT cell then count + 1 else count)
           else Some count)
        (Some acc) ds = Some k ->
  acc <= k <= acc + Z.of_nat (length ds).
Proof.
  induction ds as [|d ds IH]; intros acc k; cbn [foldl length].
  - intros [= <-]. lia.
  - cbn [mbind option_bind]. cbv zeta.
    destruct (grid_row grid 0) as [row0|]; cbn [mbind option_bind];
      [|by rewrite foldl_option_None].
    destruct (Utils.isValidPosition _ _ _ _).
    + destruct (grid_get grid _ _) as [cell|]; cbn [mbind option_bind];
        [|by rewrite foldl_option_None].
      destruct (cell_is SEATED_AGENT cell); intros H%IH; lia.
    + intros H%IH. lia.
Qed.

(** X11. [countAdjacentSeated] counts at most the 8 neighbours of a seat;
    so for a non-negative [SOCIAL_DISTANCE] the weight of a free seat is
    at least its base weight 1, and the floor [Math.max(seatWeight, 0.01)]
    leaves it as it is. *)
Theorem seat_weight_floor (grid : Grid) (config : Config) (r c c0 c1 k : Z) :
  0 <= SOCIAL_DISTANCE config ->
  SeatSelectionEngine.countAdjacentSeated grid (r, c) = Some k ->
  0 <= k <= 8 /\
  (1 <= SeatSelectionEngine.seat_weight config c c0 c1 k)%Q /\
  Qmax_js (SeatSelectionEngine.seat_weight config c c0 c1 k) (1 # 100)
  = SeatSelectionEngine.seat_weight config c c0 c1 k.
Proof.
  intros Hsocial Hcount.
  apply countAdjacentSeated_fold in Hcount. cbn in Hcount.
  assert (Hw : (1 <= SeatSelectionEngine.seat_weight config c c0 c1 k)%Q).
  { unfold SeatSelectionEngine.seat_weight. cbv zeta.
    assert (Hbonus : (0 <= inject_Z ((8 - k) * SOCIAL_DISTANCE config))%Q).
    { change 0%Q with (inject_Z 0). rewrite <- Zle_Qle. nia. }
    destruct ((Z.min (c - c0) (c1 - c) <=? 1) && (0 <? AISLE_PREF config))
      eqn:Haisle; [|lra].
    apply andb_true_iff in Haisle as [_ Hpos%Z.ltb_lt].
    assert (Haisle : (0 <= inject_Z (AISLE_PREF config * 3))%Q).
    { change 0%Q with (inject_Z 0). rewrite <- Zle_Qle. lia. }
    lra. }
  split; [lia|]. split; [exact Hw|].
  unfold Qmax_js.
  destruct (Qle_bool _ (1 # 100)) eqn:Hle; [|done].
  apply Qle_bool_iff in Hle. lra.
Qed.

Lemma seat_weight_floor_witness :
  Qmax_js (SeatSelectionEngine.seat_weight default_config 2 2 15 0) (1 # 100)
  = SeatSelectionEngine.seat_weight default_config 2 2 15 0.
Proof.
  destruct (seat_weight_floor
              (SimulationEngine.grid_of (initialized default_config))
              default_config 10 2 2 15 0) as (_ & _ & H).
  - cbn. lia.
  - vm_compute. reflexivity.
  - exact H.
Defined.

Section SeatLocation.

Variables (grid : Grid) (assigned : gset Pos) (config : Config).

Lemma availableRows_fold_occupancy (c0 c1 rowThr : Z) (rs : list Z) :
  forall acc rows,
  foldl (fun rows r =>
           rows ← rows;
           occupancy ← SeatSelectionEngine.rowOccupancy grid r c0 c1;
           if rowThr <=? occupancy then Some rows
           else found ← SeatSelectionEngine.hasSeats grid assigned r c0 c1;
                Some (if found : bool then rows ++ [r] else rows))
        (Some acc) rs = Some rows ->
  forall r, r ∈ rows ->
    r ∈ acc \/
    exists occ, SeatSelectionEngine.rowOccupancy grid r c0 c1 = Some occ /\
                occ < rowThr.
Proof.
  induction rs as [|r0 rs IH]; intros acc rows; cbn [foldl].
  - intros [= <-] r Hr. by left.
  - cbn [mbind option_bind].
    destruct (SeatSelectionEngine.rowOccupancy grid r0 c0 c1) as [occ|] eqn:Hocc;
      cbn [mbind option_bind]; [|by rewrite foldl_option_None].
    destruct (Z.leb_spec rowThr occ) as [Hle | Hlt].
    + intros H r Hr. exact (IH _ _ H r Hr).
    + destruct (SeatSelectionEngine.hasSeats grid assigned r0 c0 c1) as [found|];
        cbn [mbind option_bind]; [|by rewrite foldl_option_None].
      intros H r Hr. destruct (IH _ _ H r Hr) as [Hin | Hin]; [|by right].
      destruct found; [|by left].
      apply elem_of_app in Hin as [Hin | Hin]; [by left|].
      apply list_elem_of_singleton in Hin as ->. right. by exists occ.
Qed.

Lemma pickSeatInBlock_location (block : option Z) (seatBlocks : list (Z * Z))
    (rowThr : Z) (o : Oracle) (n n' : nat) (s : Pos) :
  SeatSelectionEngine.pickSeatInBlock grid block assigned seatBlocks config
    rowThr o n = (Some s, n') ->
  exists b c0 c1,
    block = Some b /\ at_index seatBlocks b = Some (c0, c1) /\
    c0 <= snd s <= c1 /\
    exists occ, SeatSelectionEngine.rowOccupancy grid (fst s) c0 c1 = Some occ /\
                occ < rowThr.
Proof.
  unfold SeatSelectionEngine.pickSeatInBlock.
  destruct block as [b|]; [|by intros [? _]%ret_inv]. cbn [mbind option_bind].
  destruct (at_index seatBlocks b) as [[c0 c1]|] eqn:Hblk;
    [|by intros [? _]%ret_inv].
  destruct (SeatSelectionEngine.availableRows grid assigned c0 c1 rowThr)
    as [[|r0 rows]|] eqn:Hrows;
    [by intros [? _]%ret_inv | | by intros [? _]%ret_inv].
  intros H. apply bind_inv in H as (candidateRows & g1 & Hcand & H).
  apply bind_inv in H as (chosenRow & g2 & Hrow & H).
  destruct chosenRow as [chosenRow|]; [|by apply ret_inv in H as [? _]].
  apply bind_inv in H as (validSeats & g3 & Hseats & H).
  destruct validSeats as [[|v validSeats]|];
    [by apply ret_inv in H as [? _] | | by apply ret_inv in H as [? _]].
  apply bind_inv in H as (chosenSeat & g4 & Hchosen & H).
  apply bind_inv in H as (dbg & g5 & Hdbg & H).
  apply ret_inv in H as [-> _].
  apply weightedChoice_elem in Hchosen.
  destruct (collect_seats_spec _ _ _ _ _ _ _ _ _ _ _ _ Hseats s Hchosen)
    as [Hin | (c & -> & Hc & _)]; [by apply elem_of_nil in Hin|].
  exists b, c0, c1. split; [done|]. split; [done|]. cbn [fst snd]. split.
  - unfold SeatSelectionEngine.columns in Hc. apply elem_of_seqZ in Hc. lia.
  - apply choose_row_elem in Hrow.
    assert (chosenRow ∈ r0 :: rows) as Hin.
    { destruct (Qltb 0 (BACK_PREF config)).
      - eapply front_aversion_sub; eauto.
      - apply ret_inv in Hcand as [<- _]. done. }
    destruct (availableRows_fold_occupancy _ _ _ _ _ _ Hrows _ Hin)
      as [Hnil | Hocc]; [by apply elem_of_nil in Hnil | exact Hocc].
Qed.

End SeatLocation.

(** X12. [pickSeatInBlock] answers [null] without a draw for a block that
    [seatBlocks] does not have; a seat it returns lies in the columns of
    the requested block and in the seat rows 6 to 13, in a row whose
    occupancy is below the threshold, and its cell holds [SEAT]. *)
Theorem pickSeatInBlock_in_block (grid : Grid) (block : option Z)
    (assigned : gset Pos) (seatBlocks : list (Z * Z)) (config : Config)
    (rowThr : Z) (o : Oracle) (n : nat) :
  (block ≫= at_index seatBlocks = None ->
   SeatSelectionEngine.pickSeatInBlock grid block assigned seatBlocks config
     rowThr o n = (None, n)) /\
  (forall s n',
     SeatSelectionEngine.pickSeatInBlock grid block assigned seatBlocks config
       rowThr o n = (Some s, n') ->
     exists b c0 c1,
       block = Some b /\ at_index seatBlocks b = Some (c0, c1) /\
       c0 <= snd s <= c1 /\ 6 <= fst s < 14 /\
       grid_get grid (fst s) (snd s) = Some (Some SEAT) /\
       exists occ,
         SeatSelectionEngine.rowOccupancy grid (fst s) c0 c1 = Some occ /\
         occ < rowThr).
Proof.
  split.
  - intros Hnone. unfold SeatSelectionEngine.pickSeatInBlock. by rewrite Hnone.
  - intros s n' Hpick.
    destruct (pickSeatInBlock_location _ _ _ _ _ _ _ _ _ _ Hpick)
      as (b & c0 & c1 & Hb & Hblk & Hcols & Hocc).
    destruct (pickSeatInBlock_spec _ _ _ _ _ _ _ _ _ _ Hpick)
      as (_ & Hseat & Hrows).
    exists b, c0, c1. done.
Qed.

(** X13. When [pickSeatAnyBlock] returns a block and a seat, the block is
    one of [seatBlocks] and the seat lies in its columns and in the seat
    rows, on a cell that holds [SEAT] and is not assigned, whatever order
    the shuffle produced. *)
Theorem pickSeatAnyBlock_in_block (grid : Grid) (assigned : gset Pos)
    (seatBlocks : list (Z * Z)) (config : Config) (rowThr : Z)
    (o : Oracle) (n n' : nat) (b : Z) (s : Pos) :
  SeatSelectionEngine.pickSeatAnyBlock grid assigned seatBlocks config rowThr
    o n = (Some (b, s), n') ->
  exists c0 c1,
    at_index seatBlocks b = Some (c0, c1) /\
    c0 <= snd s <= c1 /\ 6 <= fst s < 14 /\
    grid_get grid (fst s) (snd s) = Some (Some SEAT) /\
    s ∉ assigned.
Proof.
  unfold SeatSelectionEngine.pickSeatAnyBlock. intros H.
  apply bind_inv in H as (blocks & n1 & _ & H).
  revert n1 H. induction blocks as [|b0 blocks IH]; intros n1;
    cbn [SeatSelectionEngine.try_blocks].
  - by intros [? _]%ret_inv.
  - intros H. apply bind_inv in H as (s0 & n2 & Hs0 & H).
    destruct s0 as [s0|]; [|by eapply IH].
    apply ret_inv in H as [[= <- <-] _].
    destruct (pickSeatInBlock_location _ _ _ _ _ _ _ _ _ _ Hs0)
      as (b' & c0 & c1 & [= <-] & Hblk & Hcols & _).
    destruct (pickSeatInBlock_spec _ _ _ _ _ _ _ _ _ _ Hs0)
      as (Hfree & Hseat & Hrows).
    exists c0, c1. done.
Qed.

Lemma pickSeatAnyBlock_in_block_witness :
  exists b s n',
    SeatSelectionEngine.pickSeatAnyBlock
      (SimulationEngine.grid_of (initialized default_config)) ∅
      (SimulationEngine.seatBlocks (initialized default_config))
      default_config 5 (constant_oracle 0) 0%nat = (Some (b, s), n') /\
    6 <= fst s < 14.
Proof.
  assert (H : exists b s n',
    SeatSelectionEngine.pickSeatAnyBlock
      (SimulationEngine.grid_of (initialized default_config)) ∅
      (SimulationEngine.seatBlocks (initialized default_config))
      default_config 5 (constant_oracle 0) 0%nat = (Some (b, s), n')).
  { vm_compute. by eexists _, _, _. }
  destruct H as (b & s & n' & Hpick). exists b, s, n'.
  split; [exact Hpick|].
  destruct (pickSeatAnyBlock_in_block _ _ _ _ _ _ _ _ _ _ Hpick)
    as (c0 & c1 & _ & _ & H & _).
  exact H.
Defined.


(** ** An agent under way *)

Lemma terminal_not_moving (a : Agent.t) :
  terminal a = negb (Agent.moving a).
Proof.
  unfold terminal, Agent.moving.
  by destruct (Agent.seated a), (Agent.standing a).
Qed.

Lemma terminal_not_moving_bool (a : Agent.t) :
  Agent.moving a = true -> Agent.seated a || Agent.standing a = false.
Proof.
  unfold Agent.moving. by destruct (Agent.seated a), (Agent.standing a).
Qed.

Lemma update_terminal (a : Agent.t) (g : Grid) :
  terminal a = true -> Agent.update a g = (a, g).
Proof. unfold terminal, Agent.update. by intros ->. Qed.

Lemma update_step (a : Agent.t) (g : Grid) (next : Pos) (rest : list Pos) :
  Agent.moving a = true -> Agent.path a = next :: rest ->
  Agent.moving (fst (Agent.update a g)) = true /\
  Agent.pos (fst (Agent.update a g)) = next /\
  Agent.path (fst (Agent.update a g)) = rest /\
  snd (Agent.update a g) = g.
Proof.
  intros Hmoving Hpath. unfold Agent.update.
  rewrite terminal_not_moving_bool by done. rewrite Hpath. done.
Qed.

Lemma update_arrive (a : Agent.t) (g : Grid) :
  Agent.moving a = true -> Agent.path a = [] ->
  terminal (fst (Agent.update a g)) = true /\
  Agent.pos (fst (Agent.update a g)) = Agent.pos a.
Proof.
  intros Hmoving Hpath. unfold Agent.update.
  rewrite terminal_not_moving_bool by done. rewrite Hpath.
  unfold terminal.
  destruct (Agent.willStand a); [cbn; by rewrite orb_true_r|].
  destruct (grid_get g _ _) as [cell|]; [|cbn; by rewrite orb_true_r].
  destruct (cell_is SEAT cell); cbn; [done | by rewrite orb_true_r].
Qed.

Lemma updates_S (k : nat) (st : Agent.t * Grid) :
  updates (S k) st = Agent.update (fst (updates k st)) (snd (updates k st)).
Proof. reflexivity. Qed.

Lemma updates_under_way (a : Agent.t) (g : Grid) :
  Agent.moving a = true ->
  forall j, (j <= length (Agent.path a))%nat ->
    Agent.moving (fst (updates j (a, g))) = true /\
    (Agent.pos a :: Agent.path a) !! j = Some (Agent.pos (fst (updates j (a, g)))) /\
    Agent.path (fst (updates j (a, g))) = drop j (Agent.path a) /\
    snd (updates j (a, g)) = g.
Proof.
  intros Hmoving. induction j as [|j IH]; intros Hj; [done|].
  destruct (IH ltac:(lia)) as (Hm & Hpos & Hpath & Hg).
  rewrite updates_S, Hg.
  destruct (drop j (Agent.path a)) as [|next rest] eqn:Hdrop.
  { apply drop_nil_inv in Hdrop. lia. }
  destruct (update_step _ g next rest Hm Hpath) as (Hm' & Hpos' & Hpath' & Hg').
  split; [done|]. split; [|split; [|done]].
  - rewrite Hpos'.
    change ((Agent.pos a :: Agent.path a) !! S j) with (Agent.path a !! j).
    pose proof (lookup_drop (Agent.path a) j 0) as Hl.
    rewrite Hdrop, Nat.add_0_r in Hl. by rewrite <- Hl.
  - rewrite Hpath'. replace (S j) with (j + 1)%nat by lia.
    by rewrite <- drop_drop, Hdrop.
Qed.

Lemma updates_settled (a : Agent.t) (g : Grid) :
  Agent.moving a = true ->
  forall j, (length (Agent.path a) < j)%nat ->
    terminal (fst (updates j (a, g))) = true /\
    last (Agent.pos a :: Agent.path a) = Some (Agent.pos (fst (updates j (a, g)))) /\
    updates j (a, g) = updates (S (length (Agent.path a))) (a, g).
Proof.
  intros Hmoving.
  destruct (updates_under_way a g Hmoving (length (Agent.path a)) ltac:(lia))
    as (Hm & Hpos & Hpath & Hg).
  rewrite drop_all in Hpath.
  destruct (update_arrive _ g Hm Hpath) as [Hterm Hpos'].
  assert (Hfirst :
    terminal (fst (updates (S (length (Agent.path a))) (a, g))) = true /\
    last (Agent.pos a :: Agent.path a)
    = Some (Agent.pos (fst (updates (S (length (Agent.path a))) (a, g))))).
  { rewrite updates_S, Hg. split; [done|].
    rewrite Hpos', last_lookup. exact Hpos. }
  induction j as [|j IH]; intros Hj; [lia|].
  destruct (decide (j = length (Agent.path a))) as [-> | Hne].
  - destruct Hfirst. done.
  - destruct (IH ltac:(lia)) as (Ht & Hl & Heq).
    rewrite updates_S, update_terminal by done.
    rewrite <- surjective_pairing. done.
Qed.

(** X14. A moving agent takes one cell of its path per call of [update]
    and touches no cell of the grid on its way: after [j] calls, for [j]
    up to the length of the path, it is still moving and stands on the
    [j]-th cell of its path.  The next call settles it (seated or
    standing) on the last cell of the path, or on its start cell when the
    path is empty, and every later call leaves agent and grid alone. *)
Theorem agent_settles (a : Agent.t) (g : Grid) :
  Agent.moving a = true ->
  (forall j, (j <= length (Agent.path a))%nat ->
     Agent.moving (fst (updates j (a, g))) = true /\
     (Agent.pos a :: Agent.path a) !! j
     = Some (Agent.pos (fst (updates j (a, g)))) /\
     Agent.path (fst (updates j (a, g))) = drop j (Agent.path a) /\
     snd (updates j (a, g)) = g) /\
  (forall j, (length (Agent.path a) < j)%nat ->
     terminal (fst (updates j (a, g))) = true /\
     last (Agent.pos a :: Agent.path a)
     = Some (Agent.pos (fst (updates j (a, g)))) /\
     updates j (a, g) = updates (S (length (Agent.path a))) (a, g)).
Proof.
  intros Hmoving. split.
  - by apply updates_under_way.
  - by apply updates_settled.
Qed.

Lemma agent_settles_witness :
  terminal (fst (updates 3
    ({| Agent.pos := (19, 10); Agent.seated := false; Agent.standing := false;
        Agent.willStand := true; Agent.block := None;
        Agent.seat := Some (17, 10); Agent.corridor := 10; Agent.row0 := 19;
        Agent.path := [(18, 10); (17, 10)] |}, []))) = true.
Proof.
  destruct (agent_settles
    {| Agent.pos := (19, 10); Agent.seated := false; Agent.standing := false;
       Agent.willStand := true; Agent.block := None;
       Agent.seat := Some (17, 10); Agent.corridor := 10; Agent.row0 := 19;
       Agent.path := [(18, 10); (17, 10)] |} [] eq_refl) as [_ H].
  destruct (H 3%nat) as [Ht _]; [cbn; lia | exact Ht].
Defined.

(** X15. What happens on arrival (a moving agent whose path is used up):
    the agent stays on its cell; it becomes seated exactly when it was not
    sent to stand and the cell holds [SEAT], and standing in every other
    case (a fault of the grid access included); the cell becomes
    [SEATED_AGENT] or [STANDING] accordingly, and no other cell of the
    grid changes. *)
Theorem agent_arrival (a : Agent.t) (g : Grid) :
  Agent.moving a = true -> Agent.path a = [] ->
  let a' := fst (Agent.update a g) in
  let g' := snd (Agent.update a g) in
  let here := grid_get g (fst (Agent.pos a)) (snd (Agent.pos a)) in
  Agent.pos a' = Agent.pos a /\
  (Agent.seated a' = true <->
   Agent.willStand a = false /\ here = Some (Some SEAT)) /\
  (Agent.standing a' = true <->
   Agent.willStand a = true \/ here <> Some (Some SEAT)) /\
  (Agent.seated a' = true ->
   grid_get g' (fst (Agent.pos a)) (snd (Agent.pos a)) = Some (Some SEATED_AGENT)) /\
  (Agent.standing a' = true -> is_Some here ->
   grid_get g' (fst (Agent.pos a)) (snd (Agent.pos a)) = Some (Some STANDING)) /\
  (forall q, q <> Agent.pos a ->
     grid_get g' (fst q) (snd q) = grid_get g (fst q) (snd q)).
Proof.
  intros Hmoving Hpath. cbv zeta. unfold Agent.update.
  rewrite terminal_not_moving_bool by done. rewrite Hpath.
  unfold Agent.moving in Hmoving.
  apply andb_true_iff in Hmoving as [Hseated%negb_true_iff Hstanding%negb_true_iff].
  destruct (Agent.willStand a) eqn:Hws.
  - cbn [fst snd Agent.pos Agent.seated Agent.standing Agent.settle_standing].
    rewrite Hseated. split; [done|]. split; [split; [done | by intros [? _]]|].
    split; [split; [by left | done]|]. split; [done|].
    split; [intros _; apply mark_get_eq | intros q; apply mark_get_ne].
  - destruct (grid_get g _ _) as [cell|] eqn:Hcell.
    + unfold cell_is. destruct (bool_decide_reflect (cell = Some SEAT)) as [-> | Hne].
      * cbn [fst snd Agent.pos Agent.seated Agent.standing Agent.settle_seated].
        rewrite Hstanding. split; [done|]. split; [done|].
        split; [split; [done | by intros [? | ?]]|].
        split; [intros _; apply mark_get_eq; by rewrite Hcell|].
        split; [done | intros q; apply mark_get_ne].
      * cbn [fst snd Agent.pos Agent.seated Agent.standing Agent.settle_standing].
        rewrite Hseated. split; [done|].
        split; [split; [done | intros [_ [= ?]]; congruence]|].
        split; [split; [intros _; right; congruence | done]|].
        split; [done|].
        split; [intros _ _; apply mark_get_eq; by rewrite Hcell
               | intros q; apply mark_get_ne].
    + cbn [fst snd Agent.pos Agent.seated Agent.standing Agent.settle_standing].
      rewrite Hseated. split; [done|]. split; [split; [done | by intros [_ ?]]|].
      split; [split; [by right | done]|]. split; [done|].
      split; [by intros _ [? ?] | done].
Qed.

Lemma agent_arrival_witness :
  Agent.seated (fst (Agent.update
    {| Agent.pos := (10, 2); Agent.seated := false; Agent.standing := false;
       Agent.willStand := false; Agent.block := Some 0;
       Agent.seat := Some (10, 2); Agent.corridor := 1; Agent.row0 := 16;
       Agent.path := [] |}
    (SimulationEngine.grid_of (initialized default_config)))) = true.
Proof.
  destruct (agent_arrival
    {| Agent.pos := (10, 2); Agent.seated := false; Agent.standing := false;
       Agent.willStand := false; Agent.block := Some 0;
       Agent.seat := Some (10, 2); Agent.corridor := 1; Agent.row0 := 16;
       Agent.path := [] |}
    (SimulationEngine.grid_of (initialized default_config)) eq_refl eq_refl)
    as (_ & H & _).
  apply H. split; [reflexivity | vm_compute; reflexivity].
Defined.


(** ** Invariants of the engine *)

Section UpdateClock.

Import SimulationEngine.

Lemma update_cases_clock (e e' : t) (o : Oracle) (n n' : nat) (res : Result) :
  update e o n = (Some (e', res), n') ->
  (completed e = true /\ e' = e) \/
  (completed e = false /\
   exists e1 occupied1,
     spawn_loop (gates e) (e, occupied_positions (agents e)) o n
     = (Threw (e1, occupied1), n') /\ e' = fail e1) \/
  (completed e = false /\
   exists e1 occupied1 agents' g',
     spawn_loop (gates e) (e, occupied_positions (agents e)) o n
     = (Normal (e1, occupied1), n') /\
     update_agents (agents e1) (grid_of e1) = (agents', g') /\
     agents e' = agents' /\ config e' = config e1 /\
     spawned e' = spawned e1 /\ gates e' = gates e1 /\
     time e' = time e1 + 1 /\
     chartData e'
     = chartData e1 ++ [(time e1 + 1, count Agent.seated agents',
                         count Agent.standing agents')] /\
     completed e'
     = (forallb (fun a => Agent.seated a || Agent.standing a) agents' &&
        (NUM_AGENTS (config e1) <=? spawned e1)) ||
       (MAX_TIME (config e1) <=? time e1 + 1)).
Proof.
  unfold update. destruct (completed e) eqn:Hc.
  - intros [[= <- _] _]%ret_inv. by left.
  - intros H. apply bind_inv in H as (out & n1 & Hout & H). right.
    destruct out as [[e1 occ1] | [e1 occ1] |].
    + right. split; [done|].
      destruct (update_agents (agents e1) (grid_of e1)) as [agents' g'] eqn:Hu.
      apply ret_inv in H as [[= <- _] <-]. cbn. eauto 15.
    + left. split; [done|]. apply ret_inv in H as [[= <- _] <-]. eauto.
    + by apply ret_inv in H as [? _].
Qed.

(** What a spawn leaves alone. *)
Lemma spawn_at_clock (tm : Z) (chart : list (Z * Z * Z)) (done : bool)
    (o : Oracle) (gate : Pos) (e : t) (occupied : gset Pos) (n : nat)
    (out : Outcome (t * gset Pos)) (n' : nat) :
  time e = tm /\ chartData e = chart /\ completed e = done ->
  spawn_at gate (e, occupied) o n = (out, n') ->
  outcome_sat (fun e => time e = tm /\ chartData e = chart /\ completed e = done)
              out.
Proof.
  intros He H.
  apply spawn_at_cases in H
    as [-> | [-> | (a & assigned' & Hlt & Hbuilt & H)]]; try done.
  cbn zeta in H.
  destruct (if Agent.willStand a then Agent.seat a else None) as [dest|];
    [destruct (grid e ≫= _)|]; subst out; exact He.
Qed.

End UpdateClock.

(** Proving a property of every reachable state: it holds of a new engine
    and is kept by [initialize], by the [catch] branch of [update], by the
    spawn of one agent with the reservation of its standing position, and
    by the rest of a tick. *)
Section Invariant.

Import SimulationEngine.

Variable cfg : Config.
Variable P : t -> Prop.

Hypothesis Hnew : P (constructor cfg).
Hypothesis Hinit : forall e, config e = cfg -> P e -> P (fst (initialize e)).
Hypothesis Hfail : forall e, config e = cfg -> P e -> P (fail e).
Hypothesis Hspawn : forall e gate o n n' a assigned',
  config e = cfg -> P e -> spawned e < NUM_AGENTS cfg -> valid_oracle o ->
  Agent.constructor (grid_of e) gate (assigned e) (seatBlocks e)
    (blockToCorridorCells e) (modifiedConfig (config e) (spawned e))
    (gates e) o n = (Some (a, assigned'), n') ->
  P (with_spawn e a assigned').
Hypothesis Hgrid : forall e g, config e = cfg -> P e -> P (with_grid e g).
Hypothesis Htick : forall e e' agents' g',
  config e = cfg -> P e -> completed e = false ->
  update_agents (agents e) (grid_of e) = (agents', g') ->
  agents e' = agents' -> config e' = cfg -> spawned e' = spawned e ->
  gates e' = gates e -> time e' = time e + 1 ->
  chartData e'
  = chartData e ++ [(time e + 1, count Agent.seated agents',
                     count Agent.standing agents')] ->
  completed e'
  = (forallb (fun a => Agent.seated a || Agent.standing a) agents' &&
     (NUM_AGENTS cfg <=? spawned e)) || (MAX_TIME cfg <=? time e + 1) ->
  P e'.

Lemma invariant_spawn_at (o : Oracle) (gate : Pos) (e : t)
    (occupied : gset Pos) (n : nat) (out : Outcome (t * gset Pos)) (n' : nat) :
  valid_oracle o -> config e = cfg /\ P e ->
  spawn_at gate (e, occupied) o n = (out, n') ->
  outcome_sat (fun e => config e = cfg /\ P e) out.
Proof.
  intros Ho [Hcfg HP] H.
  apply spawn_at_cases in H
    as [-> | [-> | (a & assigned' & Hlt & Hbuilt & H)]]; try done.
  rewrite Hcfg in Hlt.
  pose proof (Hspawn _ _ _ _ _ _ _ Hcfg HP Hlt Ho Hbuilt) as Hnew'.
  cbn zeta in H.
  destruct (if Agent.willStand a then Agent.seat a else None) as [dest|].
  - destruct (grid e ≫= _) as [g|]; subst out; cbn.
    + split; [done|]. by apply Hgrid.
    + done.
  - subst out. done.
Qed.

Lemma reachable_invariant (e : t) : reachable cfg e -> P e.
Proof.
  induction 1 as [|e He IH|e e' o n n' res He IH Ho Hu]; [done| |].
  - apply Hinit; [by apply reachable_config | done].
  - pose proof (reachable_config cfg e He) as Hcfg.
    apply update_cases_clock in Hu
      as [[_ ->] | [(Hc & e1 & occ1 & Hloop & ->)
                   | (Hc & e1 & occ1 & agents' & g' & Hloop & Hagents & Heq)]].
    + exact IH.
    + pose proof (spawn_loop_keeps (fun e => config e = cfg /\ P e) o
                    (fun gate e occ n out n' =>
                       invariant_spawn_at o gate e occ n out n' Ho)
                    _ _ _ _ _ _ (conj Hcfg IH) Hloop) as [Hcfg1 HP1].
      by apply Hfail.
    + pose proof (spawn_loop_keeps (fun e => config e = cfg /\ P e) o
                    (fun gate e occ n out n' =>
                       invariant_spawn_at o gate e occ n out n' Ho)
                    _ _ _ _ _ _ (conj Hcfg IH) Hloop) as [Hcfg1 HP1].
      pose proof (spawn_loop_keeps
                    (fun e1 => time e1 = time e /\ chartData e1 = chartData e /\
                               completed e1 = false) o
                    (spawn_at_clock (time e) (chartData e) false o)
                    _ _ _ _ _ _ (conj eq_refl (conj eq_refl Hc)) Hloop)
        as (_ & _ & Hc1).
      destruct Heq as (Ha & Hcf & Hs & Hgt & Ht & Hch & Hdone).
      rewrite Hcfg1 in Hcf, Hdone.
      by apply (Htick e1 e' agents' g').
Qed.

End Invariant.


Lemma count_app (p : Agent.t -> bool) (l : list Agent.t) (a : Agent.t) :
  SimulationEngine.count p (l ++ [a])
  = SimulationEngine.count p l + (if p a then 1 else 0).
Proof.
  unfold SimulationEngine.count. rewrite List.filter_app, length_app. cbn.
  destruct (p a); cbn; lia.
Qed.

Lemma count_cons (p : Agent.t -> bool) (l : list Agent.t) (a : Agent.t) :
  SimulationEngine.count p (a :: l)
  = SimulationEngine.count p l + (if p a then 1 else 0).
Proof.
  unfold SimulationEngine.count. cbn. destruct (p a); cbn; lia.
Qed.

(** [update] never takes a flag back. *)
Lemma agent_update_flags (a : Agent.t) (g : Grid) :
  (Agent.seated a = true -> Agent.seated (fst (Agent.update a g)) = true) /\
  (Agent.standing a = true -> Agent.standing (fst (Agent.update a g)) = true).
Proof.
  unfold Agent.update.
  destruct (Agent.seated a) eqn:Hs; [done|].
  destruct (Agent.standing a) eqn:Hst; [done|]. done.
Qed.

Lemma update_agents_counts (agents : list Agent.t) : forall g agents' g',
  SimulationEngine.update_agents agents g = (agents', g') ->
  SimulationEngine.count Agent.seated agents
  <= SimulationEngine.count Agent.seated agents' /\
  SimulationEngine.count Agent.standing agents
  <= SimulationEngine.count Agent.standing agents'.
Proof.
  induction agents as [|a agents IH]; intros g agents' g';
    cbn [SimulationEngine.update_agents].
  - by intros [= <- <-].
  - assert (Hflags :
      (Agent.seated a = true ->
       Agent.seated (fst (if Agent.moving a then Agent.update a g else (a, g)))
       = true) /\
      (Agent.standing a = true ->
       Agent.standing (fst (if Agent.moving a then Agent.update a g else (a, g)))
       = true)).
    { destruct (Agent.moving a); [apply agent_update_flags | done]. }
    destruct (if Agent.moving a then Agent.update a g else (a, g)) as [a1 g1].
    cbn [fst] in Hflags. destruct Hflags as [Hs Hst].
    destruct (SimulationEngine.update_agents agents g1) as [rest g2] eqn:Hrest.
    intros [= <- <-]. destruct (IH _ _ _ Hrest) as [IH1 IH2].
    rewrite !count_cons.
    destruct (Agent.seated a); [rewrite Hs by done|];
      (destruct (Agent.standing a); [rewrite Hst by done|]);
      repeat match goal with |- context [if ?b then 1 else 0] => destruct b end;
      lia.
Qed.

Section EngineInvariants.

Import SimulationEngine.

Variable cfg : Config.

Lemma deadline_invariant (e : t) :
  0 < MAX_TIME cfg -> reachable cfg e ->
  time e <= MAX_TIME cfg /\ (completed e = false -> time e < MAX_TIME cfg).
Proof.
  intros Hmax.
  apply (reachable_invariant cfg (fun e =>
    time e <= MAX_TIME cfg /\ (completed e = false -> time e < MAX_TIME cfg))).
  - cbn. lia.
  - intros e0 _ He0. unfold initialize.
    destruct (GridBuilder.buildGrid (config e0)); cbn; [lia | exact He0].
  - intros e0 _ [He0 _]. cbn. done.
  - intros e0 gate o n n' a assigned' _ He0 _ _ _. exact He0.
  - intros e0 g _ He0. exact He0.
  - intros e0 e' agents' g' _ [Hle Hlt] Hc _ _ _ _ _ Htime _ Hdone.
    specialize (Hlt Hc). rewrite Htime, Hdone. split; [lia|].
    intros [_ Hd]%orb_false_iff. apply Z.leb_gt in Hd. lia.
Qed.

Lemma quota_invariant (e : t) :
  0 <= NUM_AGENTS cfg -> reachable cfg e ->
  0 <= spawned e <= NUM_AGENTS cfg /\ (length (gates e) <= 3)%nat.
Proof.
  intros Hquota.
  apply (reachable_invariant cfg (fun e =>
    0 <= spawned e <= NUM_AGENTS cfg /\ (length (gates e) <= 3)%nat)).
  - cbn. lia.
  - intros e0 _ He0. unfold initialize.
    destruct (GridBuilder.buildGrid (config e0)); cbn; [|exact He0].
    split; [lia | apply gates_length].
  - intros e0 _ He0. exact He0.
  - intros e0 gate o n n' a assigned' _ [He0 Hg] Hlt _ _. cbn. split; [lia | done].
  - intros e0 g _ He0. exact He0.
  - intros e0 e' agents' g' _ He0 _ _ _ _ Hs Hg _ _ _. by rewrite Hs, Hg.
Qed.

Lemma chart_invariant (e : t) :
  reachable cfg e ->
  (forall (k : nat) tm s st,
     chartData e !! k = Some (tm, s, st) ->
     s <= count Agent.seated (agents e) /\
     st <= count Agent.standing (agents e)) /\
  (forall (i j : nat) t1 s1 st1 t2 s2 st2,
     (i <= j)%nat ->
     chartData e !! i = Some (t1, s1, st1) ->
     chartData e !! j = Some (t2, s2, st2) ->
     s1 <= s2 /\ st1 <= st2).
Proof.
  apply (reachable_invariant cfg (fun e =>
    (forall (k : nat) tm s st,
       chartData e !! k = Some (tm, s, st) ->
       s <= count Agent.seated (agents e) /\
       st <= count Agent.standing (agents e)) /\
    (forall (i j : nat) t1 s1 st1 t2 s2 st2,
       (i <= j)%nat ->
       chartData e !! i = Some (t1, s1, st1) ->
       chartData e !! j = Some (t2, s2, st2) ->
       s1 <= s2 /\ st1 <= st2))).
  - cbn. split; [by intros [|k] | by intros [|i]].
  - intros e0 _ He0. unfold initialize.
    destruct (GridBuilder.buildGrid (config e0)); cbn; [|exact He0].
    split; [by intros [|k] | by intros [|i]].
  - intros e0 _ He0. exact He0.
  - intros e0 gate o n n' a assigned' _ [Hbound Hmono] _ _ _.
    cbn [with_spawn chartData agents]. split; [|exact Hmono].
    intros k tm s st Hk. destruct (Hbound k tm s st Hk) as [H1 H2].
    rewrite !count_app.
    destruct (Agent.seated a), (Agent.standing a); lia.
  - intros e0 g _ He0. exact He0.
  - intros e0 e' agents' g' _ [Hbound Hmono] _ Hupd Ha _ _ _ _ Hchart _.
    destruct (update_agents_counts _ _ _ _ Hupd) as [Hs Hst].
    assert (Hbound' : forall (k : nat) tm s st,
      chartData e' !! k = Some (tm, s, st) ->
      s <= count Agent.seated agents' /\ st <= count Agent.standing agents').
    { intros k tm s st. rewrite Hchart.
      intros [Hk | [Hk Hlast]]%lookup_app_Some.
      - destruct (Hbound k tm s st Hk). lia.
      - destruct (k - length (chartData e0))%nat as [|m]; [|by destruct m].
        injection Hlast as _ <- <-. lia. }
    rewrite Ha. split; [exact Hbound'|].
    intros i j t1 s1 st1 t2 s2 st2 Hij Hi Hj.
    pose proof Hj as Hj'. rewrite Hchart in Hj'.
    apply lookup_app_Some in Hj' as [Hj' | [Hjlen Hlast]].
    + rewrite Hchart in Hi.
      rewrite lookup_app_l in Hi by (apply lookup_lt_Some in Hj'; lia).
      by eapply Hmono.
    + destruct (j - length (chartData e0))%nat as [|m]; [|by destruct m].
      injection Hlast as _ <- <-. by eapply Hbound'.
Qed.

Lemma spawn_loop_count (o : Oracle) (gates : list Pos) :
  forall e occupied n out n',
    spawn_loop gates (e, occupied) o n = (out, n') ->
    outcome_sat (fun e' => spawned e <= spawned e'
                           <= spawned e + Z.of_nat (length gates)) out.
Proof.
  induction gates as [|gate gates IH]; intros e occupied n out n';
    cbn [spawn_loop length].
  - intros [<- _]%ret_inv. cbn. lia.
  - intros H. apply bind_inv in H as (out1 & n1 & Hout1 & H).
    assert (Hone : outcome_sat (fun e' => spawned e <= spawned e' <= spawned e + 1)
                               out1).
    { apply spawn_at_cases in Hout1
        as [-> | [-> | (a & assigned' & Hlt & Hbuilt & Hout1)]];
        [cbn; lia | done |].
      cbn zeta in Hout1.
      destruct (if Agent.willStand a then Agent.seat a else None) as [dest|];
        [destruct (grid e ≫= _)|]; subst out1; cbn; lia. }
    destruct out1 as [[e1 occ1] | [e1 occ1] |].
    + cbn in Hone. specialize (IH _ _ _ _ _ H).
      destruct out as [[e2 occ2] | [e2 occ2] |]; cbn in *; lia.
    + apply ret_inv in H as [<- _]. cbn in *. lia.
    + by apply ret_inv in H as [<- _].
Qed.

Lemma update_time (e e' : t) (o : Oracle) (n n' : nat) (res : Result) :
  update e o n = (Some (e', res), n') ->
  completed e' = true \/ time e' = time e + 1.
Proof.
  intros Hu. apply update_cases_clock in Hu
    as [[Hc ->] | [(Hc & e1 & occ1 & Hloop & ->)
                  | (Hc & e1 & occ1 & agents' & g' & Hloop & Hagents & Heq)]].
  - by left.
  - by left.
  - right.
    pose proof (spawn_loop_keeps
                  (fun e1 => time e1 = time e /\ chartData e1 = chartData e /\
                             completed e1 = false) o
                  (spawn_at_clock (time e) (chartData e) false o)
                  _ _ _ _ _ _ (conj eq_refl (conj eq_refl Hc)) Hloop)
      as (Ht & _ & _).
    destruct Heq as (_ & _ & _ & _ & Htime & _). lia.
Qed.

Lemma run_completed (o : Oracle) (ticks : nat) : forall e n e' n',
  completed e = true -> run ticks e o n = Some (e', n') -> e' = e.
Proof.
  induction ticks as [|ticks IH]; intros e n e' n' Hc; cbn [run].
  - by intros [= <- _].
  - unfold update. rewrite Hc. cbn. by apply IH.
Qed.

Lemma run_time (o : Oracle) (ticks : nat) : forall e n e' n',
  run ticks e o n = Some (e', n') ->
  completed e' = true \/ time e' = time e + Z.of_nat ticks.
Proof.
  induction ticks as [|ticks IH]; intros e n e' n'; cbn [run].
  - intros [= <- _]. right. lia.
  - destruct (update e o n) as [[[e1 res]|] n1] eqn:Hu; [|discriminate].
    intros Hrun. destruct (update_time _ _ _ _ _ _ Hu) as [Hc | Ht].
    + left. by rewrite (run_completed _ _ _ _ _ _ Hc Hrun).
    + destruct (IH _ _ _ _ Hrun) as [Hc | Ht']; [by left | right; lia].
Qed.

End EngineInvariants.


(** X16. The clock and the chart go together: in every reachable state
    the chart holds exactly one sample per counted tick, [time] of them,
    and the sample at index [k] carries the time [k + 1]. *)
Theorem chart_one_sample_per_tick (cfg : Config) (e : SimulationEngine.t) :
  reachable cfg e ->
  0 <= SimulationEngine.time e /\
  Z.of_nat (length (SimulationEngine.chartData e)) = SimulationEngine.time e /\
  forall (k : nat) tm s st,
    SimulationEngine.chartData e !! k = Some (tm, s, st) -> tm = Z.of_nat k + 1.
Proof.
  revert e. apply (reachable_invariant cfg (fun e =>
    0 <= SimulationEngine.time e /\
    Z.of_nat (length (SimulationEngine.chartData e)) = SimulationEngine.time e /\
    forall (k : nat) tm s st,
      SimulationEngine.chartData e !! k = Some (tm, s, st) ->
      tm = Z.of_nat k + 1)).
  - cbn. split; [done|]. split; [done|]. by intros [|k].
  - intros e0 _ He0. unfold SimulationEngine.initialize.
    destruct (GridBuilder.buildGrid (SimulationEngine.config e0)); cbn; [|exact He0].
    split; [done|]. split; [done|]. by intros [|k].
  - intros e0 _ He0. exact He0.
  - intros e0 gate o n n' a assigned' _ He0 _ _ _. exact He0.
  - intros e0 g _ He0. exact He0.
  - intros e0 e' agents' g' _ (Ht & Hlen & Hnum) _ _ _ _ _ _ Htime Hchart _.
    rewrite Htime, Hchart, length_app. cbn [length].
    split; [lia|]. split; [lia|].
    intros k tm s st [Hk | [Hk Hlast]]%lookup_app_Some; [by eapply Hnum|].
    destruct (k - length (SimulationEngine.chartData e0))%nat as [|m] eqn:Hm;
      [|by destruct m].
    injection Hlast as <- _ _. lia.
Qed.

Lemma chart_one_sample_per_tick_witness :
  exists e, sample_run default_config 0 3 = Some e /\
    Z.of_nat (length (SimulationEngine.chartData e)) = SimulationEngine.time e.
Proof.
  assert (Hret : run_returns default_config 0 3 = true)
    by (vm_compute; reflexivity).
  destruct (run_returns_Some _ _ _ Hret) as [e Hrun].
  exists e. split; [exact Hrun|].
  destruct (chart_one_sample_per_tick default_config e) as (_ & H & _);
    [|exact H].
  exact (sample_run_reachable _ _ _ _ zero_oracle_valid Hrun).
Defined.

(** X17. The engine stops by [MAX_TIME]: for a positive [MAX_TIME] the
    clock of a reachable state never passes it and is below it while the
    engine is not completed; hence after [MAX_TIME] or more calls of
    [update] that returned, the engine is completed, whatever the draws
    were. *)
Theorem engine_completes (cfg : Config) :
  0 < MAX_TIME cfg ->
  (forall e, reachable cfg e ->
     SimulationEngine.time e <= MAX_TIME cfg /\
     (SimulationEngine.completed e = false ->
      SimulationEngine.time e < MAX_TIME cfg)) /\
  (forall ticks o n e n',
     valid_oracle o -> MAX_TIME cfg <= Z.of_nat ticks ->
     run ticks (initialized cfg) o n = Some (e, n') ->
     SimulationEngine.completed e = true).
Proof.
  intros Hmax. split.
  - intros e He. by apply deadline_invariant.
  - intros ticks o n e n' Ho Hticks Hrun.
    assert (He : reachable cfg e).
    { eapply run_reachable; [exact Ho | | exact Hrun].
      apply reachable_initialize, reachable_new. }
    destruct (deadline_invariant cfg e Hmax He) as [_ Hlt].
    destruct (run_time _ _ _ _ _ _ Hrun) as [Hc | Ht]; [exact Hc|].
    destruct (SimulationEngine.completed e) eqn:Hc; [done|].
    specialize (Hlt eq_refl).
    assert (Ht0 : SimulationEngine.time (initialized cfg) = 0).
    { unfold initialized, SimulationEngine.initialize. cbn.
      by destruct (GridBuilder.buildGrid cfg). }
    lia.
Qed.

Lemma engine_completes_witness :
  SimulationEngine.time (initialized default_config) < 500.
Proof.
  destruct (engine_completes default_config) as [H _]; [cbn; lia|].
  destruct (H (initialized default_config)) as [_ Hlt].
  - apply reachable_initialize, reachable_new.
  - apply Hlt. vm_compute. reflexivity.
Defined.

(** X18. The engine never spawns more than [NUM_AGENTS] agents, it has at
    most three gates, and one call of [update] spawns at most one agent
    per gate and never takes one back. *)
Theorem spawn_quota (cfg : Config) (e : SimulationEngine.t) :
  0 <= NUM_AGENTS cfg -> reachable cfg e ->
  0 <= SimulationEngine.spawned e <= NUM_AGENTS cfg /\
  (length (SimulationEngine.gates e) <= 3)%nat /\
  forall o n e' res n',
    SimulationEngine.update e o n = (Some (e', res), n') ->
    SimulationEngine.spawned e <= SimulationEngine.spawned e'
    <= SimulationEngine.spawned e + Z.of_nat (length (SimulationEngine.gates e)).
Proof.
  intros Hquota He.
  destruct (quota_invariant cfg e Hquota He) as [Hs Hg].
  split; [exact Hs|]. split; [exact Hg|].
  intros o n e' res n' Hu.
  apply update_cases_clock in Hu
    as [[Hc ->] | [(Hc & e1 & occ1 & Hloop & ->)
                  | (Hc & e1 & occ1 & agents' & g' & Hloop & Hagents & Heq)]].
  - lia.
  - exact (spawn_loop_count _ _ _ _ _ _ _ Hloop).
  - destruct Heq as (_ & _ & -> & _).
    exact (spawn_loop_count _ _ _ _ _ _ _ Hloop).
Qed.

Lemma spawn_quota_witness :
  exists e, sample_run default_config 0 3 = Some e /\
    SimulationEngine.spawned e <= 384.
Proof.
  assert (Hret : run_returns default_config 0 3 = true)
    by (vm_compute; reflexivity).
  destruct (run_returns_Some _ _ _ Hret) as [e Hrun].
  exists e. split; [exact Hrun|].
  destruct (spawn_quota default_config e) as ([_ H] & _); [cbn; lia | | exact H].
  exact (sample_run_reachable _ _ _ _ zero_oracle_valid Hrun).
Defined.

(** X19. No agent ever gets up again: along the chart of a reachable
    state the numbers of seated and of standing agents never decrease,
    and no sample exceeds the numbers of the agents seated and standing
    now. *)
Theorem chart_never_decreases (cfg : Config) (e : SimulationEngine.t) :
  reachable cfg e ->
  (forall (i j : nat) t1 s1 st1 t2 s2 st2,
     (i <= j)%nat ->
     SimulationEngine.chartData e !! i = Some (t1, s1, st1) ->
     SimulationEngine.chartData e !! j = Some (t2, s2, st2) ->
     s1 <= s2 /\ st1 <= st2) /\
  (forall (k : nat) tm s st,
     SimulationEngine.chartData e !! k = Some (tm, s, st) ->
     s <= SimulationEngine.stats_seated (SimulationEngine.getStats e) /\
     st <= SimulationEngine.stats_standing (SimulationEngine.getStats e)).
Proof.
  intros He. destruct (chart_invariant cfg e He) as [Hbound Hmono].
  split; [exact Hmono | exact Hbound].
Qed.

Lemma chart_never_decreases_witness :
  exists e, sample_run default_config 0 22 = Some e /\
    forall tm s st,
      SimulationEngine.chartData e !! 21%nat = Some (tm, s, st) ->
      s <= SimulationEngine.stats_seated (SimulationEngine.getStats e).
Proof.
  assert (Hret : run_returns default_config 0 22 = true)
    by (vm_compute; reflexivity).
  destruct (run_returns_Some _ _ _ Hret) as [e Hrun].
  exists e. split; [exact Hrun|].
  intros tm s st Hk.
  destruct (chart_never_decreases default_config e) as [_ H].
  - exact (sample_run_reachable _ _ _ _ zero_oracle_valid Hrun).
  - by destruct (H _ _ _ _ Hk).
Defined.


(** ** When [buildGrid] succeeds *)

Lemma grid_row_is_Some_iff (g : Grid) (r : Z) :
  is_Some (grid_row g r) <-> 0 <= r < Z.of_nat (length g).
Proof.
  split; [|apply grid_row_is_Some].
  intros [row Hrow]. apply grid_row_Some in Hrow as [Hr Hrow].
  apply lookup_lt_Some in Hrow. lia.
Qed.

Section SeatLoop.

Variable blocks : list (Z * Z).

(** The loop over the columns of one block in one row. *)
Lemma fill_seats_in_row_cases (r : Z) (g : Grid) (blk : Z * Z) :
  match GridBuilder.fill_seats_in_row r g blk with
  | Some g' => length g' = length g /\
               (fst blk <= snd blk -> is_Some (grid_row g r))
  | None => grid_row g r = None /\ fst blk <= snd blk
  end.
Proof.
  destruct (grid_row g r) as [row|] eqn:Hrow.
  - assert (H : forall cols g1, length g1 = length g ->
      exists g', foldl (fun g c => g ≫= fun g => grid_set g r c SEAT)
                       (Some g1) cols = Some g' /\ length g' = length g).
    { induction cols as [|c cols IH]; intros g1 Hlen; [by exists g1|].
      cbn [foldl mbind option_bind].
      destruct (grid_set_is_Some g1 r c SEAT) as [g2 Hset].
      { apply grid_row_is_Some_iff. rewrite Hlen.
        apply grid_row_is_Some_iff. by eexists. }
      rewrite Hset. apply IH. by rewrite (grid_set_length _ _ _ _ _ Hset). }
    destruct (H (seqZ (fst blk) (snd blk - fst blk + 1)) g eq_refl)
      as (g' & Hg' & Hlen).
    change (GridBuilder.fill_seats_in_row r g blk = Some g') in Hg'.
    rewrite Hg'. split; [done | by eexists].
  - assert (Hcases : GridBuilder.fill_seats_in_row r g blk
                     = if fst blk <=? snd blk then None else Some g).
    { unfold GridBuilder.fill_seats_in_row.
      destruct (Z.leb_spec (fst blk) (snd blk)) as [Hle | Hgt].
      - assert (Hset : grid_set g r (fst blk) SEAT = None)
          by (unfold grid_set; by rewrite Hrow).
        rewrite seqZ_cons by lia. cbn [foldl mbind option_bind].
        rewrite Hset. by rewrite foldl_option_None.
      - by rewrite seqZ_nil by lia. }
    rewrite Hcases.
    destruct (Z.leb_spec (fst blk) (snd blk)); [done|]. split; [done | lia].
Qed.

(** The loop over the blocks in one row. *)
Lemma fill_seats_blocks_cases (r : Z) (bs : list (Z * Z)) : forall g,
  match foldl (fun g blk => g ≫= fun g => GridBuilder.fill_seats_in_row r g blk)
              (Some g) bs with
  | Some g' => length g' = length g /\
               (Exists (fun blk => fst blk <= snd blk) bs ->
                is_Some (grid_row g r))
  | None => grid_row g r = None /\ Exists (fun blk => fst blk <= snd blk) bs
  end.
Proof.
  induction bs as [|blk bs IH]; intros g.
  - cbn. split; [done|]. by intros ?%Exists_nil.
  - cbn [foldl mbind option_bind].
    pose proof (fill_seats_in_row_cases r g blk) as Hblk.
    destruct (GridBuilder.fill_seats_in_row r g blk) as [g1|].
    + destruct Hblk as [Hlen Hneed]. specialize (IH g1). unfold Grid in *.
      destruct (foldl _ (Some g1) bs) as [g'|].
      * destruct IH as [Hlen' Hneed']. split; [congruence|].
        intros [Hhere | Hlater]%Exists_cons; [by apply Hneed|].
        apply grid_row_is_Some_iff. rewrite <- Hlen.
        apply grid_row_is_Some_iff. by apply Hneed'.
      * destruct IH as [Hnone Hex]. split; [|by right].
        apply eq_None_not_Some. intros Hsome%grid_row_is_Some_iff.
        rewrite <- Hlen in Hsome. apply grid_row_is_Some_iff in Hsome.
        rewrite Hnone in Hsome. by destruct Hsome.
    + destruct Hblk as [Hnone Hle]. rewrite foldl_option_None by done.
      split; [done | by left].
Qed.

(** The loop over the seat rows. *)
Lemma fill_seats_rows_cases (rs : list Z) : forall g,
  match foldl (fun g r =>
                 foldl (fun g blk => g ≫= fun g =>
                          GridBuilder.fill_seats_in_row r g blk) g blocks)
              (Some g) rs with
  | Some g' => length g' = length g /\
               (Exists (fun blk => fst blk <= snd blk) blocks ->
                Forall (fun r => 0 <= r < Z.of_nat (length g)) rs)
  | None => Exists (fun blk => fst blk <= snd blk) blocks /\
            Exists (fun r => ~ 0 <= r < Z.of_nat (length g)) rs
  end.
Proof.
  induction rs as [|r rs IH]; intros g.
  - cbn. split; [done|]. by intros _.
  - cbn [foldl].
    pose proof (fill_seats_blocks_cases r blocks g) as Hrow. unfold Grid in *.
    destruct (foldl _ (Some g) blocks) as [g1|].
    + destruct Hrow as [Hlen Hneed]. specialize (IH g1). unfold Grid in *.
      destruct (foldl _ (Some g1) rs) as [g'|].
      * destruct IH as [Hlen' Hneed']. split; [congruence|].
        intros Hex. constructor.
        -- by apply grid_row_is_Some_iff, Hneed.
        -- rewrite <- Hlen. by apply Hneed'.
      * destruct IH as [Hex Hrows]. split; [done|]. right. by rewrite <- Hlen.
    + destruct Hrow as [Hnone Hex].
      rewrite foldl_option_None by (intros; by apply foldl_option_None).
      split; [done|]. left. intros Hr%grid_row_is_Some_iff.
      rewrite Hnone in Hr. by destruct Hr.
Qed.

End SeatLoop.

Lemma seat_rows_Forall (len : Z) :
  Forall (fun r => 0 <= r < len) SeatSelectionEngine.seat_rows <-> 14 <= len.
Proof.
  rewrite Forall_forall. split.
  - intros H. specialize (H 13). rewrite seat_rows_range in H. lia.
  - intros Hlen r Hr%seat_rows_range. lia.
Qed.

Lemma place_gates_is_Some (cfg : Config) (g : Grid) :
  length g = Z.to_nat (ROWS cfg) -> 1 <= ROWS cfg ->
  exists g', GridBuilder.place_gates cfg g = Some g' /\ length g' = length g.
Proof.
  intros Hlen Hrows. unfold GridBuilder.place_gates.
  assert (H : forall cols g1, length g1 = length g ->
    exists g', foldl (fun g c => g ≫= fun g => grid_set g (ROWS cfg - 1) c GATE)
                     (Some g1) cols = Some g' /\ length g' = length g).
  { induction cols as [|c cols IH]; intros g1 Hlen1; [by exists g1|].
    cbn [foldl mbind option_bind].
    destruct (grid_set_is_Some g1 (ROWS cfg - 1) c GATE) as [g2 Hset].
    { apply grid_row_is_Some_iff. lia. }
    rewrite Hset. apply IH. by rewrite (grid_set_length _ _ _ _ _ Hset). }
  by apply H.
Qed.

(** X20. [buildGrid] needs the seat rows: for at least 14 rows and a
    non-negative number of columns it returns a grid, of [ROWS] rows; for
    fewer than 14 rows and a block layout with at least one seat column
    it fails on a missing seat row and returns [null], so that
    [initialize] answers [false] and leaves the engine without a grid. *)
Theorem buildGrid_needs_seat_rows (cfg : Config) :
  (14 <= ROWS cfg -> 0 <= COLS cfg ->
   exists g, GridBuilder.buildGrid cfg = Some g /\
             length g = Z.to_nat (ROWS cfg)) /\
  (ROWS cfg < 14 -> 1 <= NUM_BLOCKS cfg ->
   1 <= block_width (COLS cfg) (NUM_BLOCKS cfg) (CORRIDOR_WIDTH cfg) ->
   GridBuilder.buildGrid cfg = None /\
   SimulationEngine.initialize (SimulationEngine.constructor cfg)
   = (SimulationEngine.constructor cfg, false)).
Proof.
  split.
  - intros Hrows Hcols. unfold GridBuilder.buildGrid, GridBuilder.empty_grid.
    rewrite (proj2 (Z.ltb_ge (ROWS cfg) 0)) by lia.
    rewrite (proj2 (Z.ltb_ge (COLS cfg) 0)) by lia.
    rewrite andb_false_r. cbn [mbind option_bind].
    set (g0 := replicate (Z.to_nat (ROWS cfg)) (new_row (COLS cfg))).
    assert (Hlen0 : length g0 = Z.to_nat (ROWS cfg)) by apply length_replicate.
    unfold GridBuilder.fill_seats.
    pose proof (fill_seats_rows_cases
                  (GridBuilder.generateSeatBlocks (COLS cfg) (NUM_BLOCKS cfg)
                     (CORRIDOR_WIDTH cfg))
                  SeatSelectionEngine.seat_rows g0) as Hfill.
    unfold SeatSelectionEngine.seat_rows in Hfill. unfold Grid in *.
    destruct (foldl _ (Some g0) _) as [g1|].
    + destruct Hfill as [Hlen1 _]. cbn [mbind option_bind].
      destruct (place_gates_is_Some cfg
                  (GridBuilder.fill_corridors
                     (GridBuilder.generateCorridorSegments (COLS cfg)
                        (GridBuilder.generateSeatBlocks (COLS cfg)
                           (NUM_BLOCKS cfg) (CORRIDOR_WIDTH cfg))
                        (CORRIDOR_WIDTH cfg)) g1))
        as (g' & Hg' & Hlen').
      { unfold GridBuilder.fill_corridors. rewrite length_fmap. congruence. }
      { lia. }
      exists g'. split; [exact Hg'|].
      rewrite Hlen'. unfold GridBuilder.fill_corridors.
      rewrite length_fmap. congruence.
    + destruct Hfill as [_ Hrow]. exfalso.
      apply Exists_exists in Hrow as (r & Hr & Hout).
      apply seat_rows_range in Hr. lia.
  - intros Hrows Hblocks Hwidth.
    assert (Hnone : GridBuilder.buildGrid cfg = None).
    { unfold GridBuilder.buildGrid.
      destruct (GridBuilder.empty_grid cfg) as [g0|] eqn:Hempty; [|done].
      cbn [mbind option_bind]. unfold GridBuilder.fill_seats.
      pose proof (fill_seats_rows_cases
                    (GridBuilder.generateSeatBlocks (COLS cfg) (NUM_BLOCKS cfg)
                       (CORRIDOR_WIDTH cfg))
                    SeatSelectionEngine.seat_rows g0) as Hfill.
      unfold SeatSelectionEngine.seat_rows in Hfill. unfold Grid in *.
      destruct (foldl _ (Some g0) _) as [g1|]; [|done].
      destruct Hfill as [_ Hneed]. exfalso.
      assert (Hlen0 : length g0 = Z.to_nat (ROWS cfg)).
      { unfold GridBuilder.empty_grid in Hempty.
        destruct (ROWS cfg <? 0); [discriminate|].
        destruct ((0 <? ROWS cfg) && (COLS cfg <? 0)); [discriminate|].
        injection Hempty as <-. apply length_replicate. }
      assert (Hall : Forall (fun r => 0 <= r < Z.of_nat (length g0))
                            SeatSelectionEngine.seat_rows).
      { apply Hneed. apply Exists_exists.
        exists (CORRIDOR_WIDTH cfg,
                CORRIDOR_WIDTH cfg
                + block_width (COLS cfg) (NUM_BLOCKS cfg) (CORRIDOR_WIDTH cfg) - 1).
        split; [|cbn; lia].
        apply list_elem_of_lookup. exists 0%nat.
        unfold GridBuilder.generateSeatBlocks.
        rewrite list_lookup_fmap, lookup_seqZ_lt by lia. cbn.
        unfold block_width. do 2 f_equal; lia. }
      apply seat_rows_Forall in Hall. lia. }
    split; [exact Hnone|].
    unfold SimulationEngine.initialize. cbn. by rewrite Hnone.
Qed.


(** ** What [buildGrid] writes *)

(** A loop of writes of one value [v]: afterwards a key holds [v] if an
    iteration aimed at it, and what it held before otherwise. *)
Section Writes.

Context {A B K V : Type}.
Variables (get : A -> K -> V) (v : V).
Variables (F : option A -> B -> option A) (target : B -> K -> Prop).

Hypothesis HNone : forall b, F None b = None.
Hypothesis Hstep : forall a b a', F (Some a) b = Some a' ->
  forall k, (target b k /\ get a' k = v) \/ (~ target b k /\ get a' k = get a k).

Lemma foldl_writes (l : list B) : forall a a',
  foldl F (Some a) l = Some a' ->
  forall k, ((exists b, b ∈ l /\ target b k) /\ get a' k = v) \/
            (~ (exists b, b ∈ l /\ target b k) /\ get a' k = get a k).
Proof.
  induction l as [|b l IH]; intros a a'; cbn [foldl].
  - intros [= <-] k. right. split; [|done]. by intros (b & ?%elem_of_nil & _).
  - destruct (F (Some a) b) as [a1|] eqn:H1;
      [|by rewrite foldl_option_None].
    intros Hl k.
    destruct (IH _ _ Hl k) as [[(b' & Hb' & Ht) Hv] | [Hno Hsame]].
    + left. split; [|done]. exists b'. split; [by right | done].
    + destruct (Hstep _ _ _ H1 k) as [[Ht Hv] | [Hnt Hsame1]].
      * left. split; [|congruence]. exists b. split; [by left | done].
      * right. split; [|congruence].
        intros (b' & [-> | Hb']%elem_of_cons & Ht); [done|].
        apply Hno. by exists b'.
Qed.

End Writes.

Lemma grid_set_writes (r c : Z) (t : CellType) (g g' : Grid) :
  grid_set g r c t = Some g' ->
  forall k : Pos,
    (k = (r, c) /\ grid_get g' (fst k) (snd k) = Some (Some t)) \/
    (k <> (r, c) /\ grid_get g' (fst k) (snd k) = grid_get g (fst k) (snd k)).
Proof.
  intros Hset k. destruct (decide (k = (r, c))) as [-> | Hne].
  - left. split; [done|]. exact (grid_set_get_eq _ _ _ _ _ Hset).
  - right. split; [done|]. apply (grid_set_get_ne _ _ _ _ _ Hset).
    by destruct k.
Qed.

Lemma fill_seats_in_row_writes (r : Z) (blk : Z * Z) (g g' : Grid) :
  GridBuilder.fill_seats_in_row r g blk = Some g' ->
  forall k : Pos,
    ((fst k = r /\ fst blk <= snd k <= snd blk) /\
     grid_get g' (fst k) (snd k) = Some (Some SEAT)) \/
    (~ (fst k = r /\ fst blk <= snd k <= snd blk) /\
     grid_get g' (fst k) (snd k) = grid_get g (fst k) (snd k)).
Proof.
  intros H k.
  destruct (foldl_writes (fun (g : Grid) (k : Pos) => grid_get g (fst k) (snd k))
              (Some (Some SEAT))
              (fun g c => g ≫= fun g => grid_set g r c SEAT)
              (fun c k => k = (r, c)) ltac:(done)
              ltac:(intros a b a'; apply grid_set_writes) _ _ _ H k)
    as [[(c & Hc & ->) Hv] | [Hno Hsame]].
  - left. split; [|done]. apply elem_of_seqZ in Hc. cbn. lia.
  - right. split; [|done]. intros [Hr Hc]. apply Hno. exists (snd k).
    split; [apply elem_of_seqZ; lia|]. destruct k. cbn in *. congruence.
Qed.

Lemma fill_seats_writes (blocks : list (Z * Z)) (g g' : Grid) :
  GridBuilder.fill_seats blocks g = Some g' ->
  forall k : Pos,
    ((6 <= fst k < 14 /\ in_blocks blocks (snd k)) /\
     grid_get g' (fst k) (snd k) = Some (Some SEAT)) \/
    (~ (6 <= fst k < 14 /\ in_blocks blocks (snd k)) /\
     grid_get g' (fst k) (snd k) = grid_get g (fst k) (snd k)).
Proof.
  intros H k. unfold GridBuilder.fill_seats in H.
  assert (Hrow : forall (a : Grid) (r : Z) (a' : Grid),
    foldl (fun g blk => g ≫= fun g => GridBuilder.fill_seats_in_row r g blk)
          (Some a) blocks = Some a' ->
    forall k : Pos,
      ((exists blk, blk ∈ blocks /\
          fst k = r /\ fst blk <= snd k <= snd blk) /\
       grid_get a' (fst k) (snd k) = Some (Some SEAT)) \/
      (~ (exists blk, blk ∈ blocks /\
            fst k = r /\ fst blk <= snd k <= snd blk) /\
       grid_get a' (fst k) (snd k) = grid_get a (fst k) (snd k))).
  { intros a r a'.
    apply (foldl_writes
             (fun (g : Grid) (k : Pos) => grid_get g (fst k) (snd k))
             (Some (Some SEAT))
             (fun g blk => g ≫= fun g => GridBuilder.fill_seats_in_row r g blk)
             (fun blk k => fst k = r /\ fst blk <= snd k <= snd blk)).
    - done.
    - intros a1 blk a2. apply fill_seats_in_row_writes. }
  destruct (foldl_writes (fun (g : Grid) (k : Pos) => grid_get g (fst k) (snd k))
              (Some (Some SEAT))
              (fun g r =>
                 foldl (fun g blk => g ≫= fun g =>
                          GridBuilder.fill_seats_in_row r g blk) g blocks)
              (fun r k => exists blk, blk ∈ blocks /\
                          fst k = r /\ fst blk <= snd k <= snd blk)
              ltac:(intros; by apply foldl_option_None)
              Hrow _ _ _ H k)
    as [[(r & Hr & blk & Hblk & Hkr & Hkc) Hv] | [Hno Hsame]].
  - left. split; [|done]. apply seat_rows_range in Hr.
    split; [lia | by exists blk].
  - right. split; [|done]. intros [Hr (blk & Hblk & Hc)]. apply Hno.
    exists (fst k). split; [by apply seat_rows_range|]. by exists blk.
Qed.

Lemma place_gates_writes (cfg : Config) (g g' : Grid) :
  GridBuilder.place_gates cfg g = Some g' ->
  forall k : Pos,
    ((fst k = ROWS cfg - 1 /\ snd k ∈ GridBuilder.gate_columns cfg) /\
     grid_get g' (fst k) (snd k) = Some (Some GATE)) \/
    (~ (fst k = ROWS cfg - 1 /\ snd k ∈ GridBuilder.gate_columns cfg) /\
     grid_get g' (fst k) (snd k) = grid_get g (fst k) (snd k)).
Proof.
  intros H k.
  destruct (foldl_writes (fun (g : Grid) (k : Pos) => grid_get g (fst k) (snd k))
              (Some (Some GATE))
              (fun g c => g ≫= fun g => grid_set g (ROWS cfg - 1) c GATE)
              (fun c k => k = (ROWS cfg - 1, c)) ltac:(done)
              ltac:(intros a b a'; apply grid_set_writes) _ _ _ H k)
    as [[(c & Hc & ->) Hv] | [Hno Hsame]].
  - left. by split.
  - right. split; [|done]. intros [Hr Hc]. apply Hno. exists (snd k).
    split; [done|]. destruct k. cbn in *. congruence.
Qed.

(** The corridor pass changes [EMPTY] cells only, and only to [CORRIDOR]. *)
Lemma fill_corridor_cell_keeps (row : Row) (c c' : Z) (t : CellType) :
  row_get row c' = Some t -> t <> EMPTY ->
  row_get (GridBuilder.fill_corridor_cell row c) c' = Some t.
Proof.
  intros Ht Hne. unfold GridBuilder.fill_corridor_cell.
  destruct (cell_is EMPTY (row_get row c)) eqn:Hc; [|done].
  apply bool_decide_eq_true in Hc.
  unfold row_get, row_set in *. cbn.
  destruct (decide (c = c')) as [<- | Hcc]; [congruence|].
  by rewrite lookup_insert_ne.
Qed.

Lemma fill_corridor_row_keeps (segs : list (list Z)) (row : Row) (c : Z)
    (t : CellType) :
  row_get row c = Some t -> t <> EMPTY ->
  row_get (foldl (fun row seg => foldl GridBuilder.fill_corridor_cell row seg)
                 row segs) c = Some t.
Proof.
  intros Ht Hne.
  assert (Hseg : forall seg row, row_get row c = Some t ->
    row_get (foldl GridBuilder.fill_corridor_cell row seg) c = Some t).
  { induction seg as [|c1 seg IH]; intros row1 H1; [done|].
    cbn [foldl]. apply IH. by apply fill_corridor_cell_keeps. }
  revert row Ht. induction segs as [|seg segs IH]; intros row Ht; [done|].
  cbn [foldl]. apply IH. by apply Hseg.
Qed.

Lemma fill_corridors_get (segs : list (list Z)) (g : Grid) (r c : Z) :
  grid_get (GridBuilder.fill_corridors segs g) r c
  = row ← grid_row g r;
    Some (row_get (foldl (fun row seg =>
                            foldl GridBuilder.fill_corridor_cell row seg)
                         row segs) c).
Proof.
  unfold grid_get, grid_row, at_index, GridBuilder.fill_corridors.
  destruct (0 <=? r); [|done]. rewrite list_lookup_fmap. unfold Grid in *.
  by destruct (g !! Z.to_nat r).
Qed.

Lemma empty_grid_get (cfg : Config) (g : Grid) (r c : Z) (t : CellType) :
  GridBuilder.empty_grid cfg = Some g ->
  grid_get g r c = Some (Some t) -> t = EMPTY.
Proof.
  unfold GridBuilder.empty_grid.
  destruct (ROWS cfg <? 0); [discriminate|].
  destruct ((0 <? ROWS cfg) && (COLS cfg <? 0)); [discriminate|].
  intros [= <-]. unfold grid_get. intros Ht.
  destruct (grid_row _ r) as [row|] eqn:Hrow; [|discriminate].
  apply grid_row_Some in Hrow as [_ Hrow].
  apply lookup_replicate in Hrow as [-> _].
  cbn in Ht. injection Ht as Ht. by apply row_get_new_row in Ht.
Qed.

(** X21. The grid of [buildGrid], for at least 15 rows (the gate row then
    lies below the seat rows): a cell holds [SEAT] exactly when it lies in
    a seat row 6 to 13 and in a column of a seat block, it holds [GATE]
    exactly when it lies in the last row at a gate column below [COLS],
    and no cell holds [SEATED_AGENT] or [STANDING]. *)
Theorem buildGrid_cells (cfg : Config) (g : Grid) :
  15 <= ROWS cfg ->
  GridBuilder.buildGrid cfg = Some g ->
  let blocks := GridBuilder.generateSeatBlocks (COLS cfg) (NUM_BLOCKS cfg)
                  (CORRIDOR_WIDTH cfg) in
  (forall r c, grid_get g r c = Some (Some SEAT) <->
               6 <= r < 14 /\ in_blocks blocks c) /\
  (forall r c, grid_get g r c = Some (Some GATE) <->
               r = ROWS cfg - 1 /\ c ∈ GridBuilder.gate_columns cfg) /\
  (forall r c, grid_get g r c <> Some (Some SEATED_AGENT) /\
               grid_get g r c <> Some (Some STANDING)).
Proof.
  intros Hrows Hbuild blocks. unfold GridBuilder.buildGrid in Hbuild.
  destruct (GridBuilder.empty_grid cfg) as [g0|] eqn:H0; [|discriminate].
  cbn [mbind option_bind] in Hbuild. fold blocks in Hbuild.
  destruct (GridBuilder.fill_seats blocks g0) as [g1|] eqn:H1; [|discriminate].
  cbn [mbind option_bind] in Hbuild.
  set (segs := GridBuilder.generateCorridorSegments (COLS cfg) blocks
                 (CORRIDOR_WIDTH cfg)) in *.
  clearbody segs.
  pose proof (fill_seats_writes _ _ _ H1) as Hseats.
  pose proof (place_gates_writes _ _ _ Hbuild) as Hgates.
  (* a cell of the grid before the gates, traced back *)
  assert (Hback : forall r c t,
    grid_get (GridBuilder.fill_corridors segs g1) r c = Some (Some t) ->
    t = CORRIDOR \/ t = EMPTY \/
    (t = SEAT /\ 6 <= r < 14 /\ in_blocks blocks c)).
  { intros r c t. rewrite fill_corridors_get.
    destruct (grid_row g1 r) as [row|] eqn:Hrow; [|discriminate].
    cbn. intros [= Ht].
    apply fill_corridor_row_cells in Ht as [-> | Ht]; [by left|]. right.
    assert (Hg1 : grid_get g1 r c = Some (Some t))
      by (unfold grid_get; rewrite Hrow; cbn; by rewrite Ht).
    destruct (Hseats (r, c)) as [[Hin Hv] | [_ Hsame]]; cbn in *.
    - right. split; [congruence | done].
    - left. rewrite Hsame in Hg1. by eapply empty_grid_get. }
  (* a seat survives the corridor pass *)
  assert (Hkeep : forall r c,
    6 <= r < 14 -> in_blocks blocks c ->
    grid_get (GridBuilder.fill_corridors segs g1) r c = Some (Some SEAT)).
  { intros r c Hr Hc.
    destruct (Hseats (r, c)) as [[_ Hv] | [Hno _]]; cbn in *; [|tauto].
    rewrite fill_corridors_get. unfold grid_get in Hv.
    destruct (grid_row g1 r) as [row|]; [|discriminate].
    cbn in *. injection Hv as Hv. f_equal.
    by apply fill_corridor_row_keeps. }
  split; [|split].
  - intros r c. split.
    + intros Hcell.
      destruct (Hgates (r, c)) as [[_ Hv] | [_ Hsame]]; cbn in *; [congruence|].
      rewrite Hsame in Hcell.
      destruct (Hback _ _ _ Hcell) as [? | [? | (_ & ? & ?)]]; done.
    + intros [Hr Hc].
      destruct (Hgates (r, c)) as [[[Hrow _] _] | [_ Hsame]]; cbn in *; [lia|].
      rewrite Hsame. by apply Hkeep.
  - intros r c. split.
    + intros Hcell.
      destruct (Hgates (r, c)) as [[Hin _] | [_ Hsame]]; cbn in *; [done|].
      rewrite Hsame in Hcell.
      destruct (Hback _ _ _ Hcell) as [? | [? | (? & _)]]; done.
    + intros Hin.
      destruct (Hgates (r, c)) as [[_ Hv] | [Hno _]]; cbn in *; [done | tauto].
  - intros r c.
    destruct (Hgates (r, c)) as [[_ Hv] | [_ Hsame]]; cbn in *;
      [split; congruence|].
    rewrite Hsame. split; intros Hcell;
      destruct (Hback _ _ _ Hcell) as [? | [? | (? & _)]]; done.
Qed.

Lemma buildGrid_cells_witness :
  exists g, GridBuilder.buildGrid default_config = Some g /\
    grid_get g 10 2 = Some (Some SEAT).
Proof.
  destruct (GridBuilder.buildGrid default_config) as [g|] eqn:Hg;
    [|vm_compute in Hg; discriminate].
  exists g. split; [reflexivity|].
  destruct (buildGrid_cells default_config g) as (H & _); [cbn; lia | exact Hg |].
  apply H. split; [lia|].
  exists (2, 15). split; [|cbn; lia].
  apply list_elem_of_lookup. exists 0%nat. reflexivity.
Defined.


(** ** Agents with a seat sit down *)

Lemma sits_ok_frame (g g' : Grid) (a : Agent.t) :
  (forall d, Agent.seat a = Some d ->
             grid_get g' (fst d) (snd d) = grid_get g (fst d) (snd d)) ->
  sits_ok g a -> sits_ok g' a.
Proof.
  intros Hframe Hok Hws. destruct (Hok Hws) as (Hst & d & Hd & Hcell).
  split; [done|]. exists d. split; [done|]. by rewrite Hframe.
Qed.

Lemma agent_update_sits (assigned : gset Pos) (a : Agent.t) (g : Grid) :
  agent_ok assigned g a -> sits_ok g a ->
  sits_ok (snd (Agent.update a g)) (fst (Agent.update a g)).
Proof.
  intros (d & Hd & Hpos & _) Hok. unfold Agent.update. unfold terminal in Hpos.
  destruct (Agent.seated a || Agent.standing a) eqn:Hterm; [done|].
  apply orb_false_iff in Hterm as [Hseated Hstanding].
  destruct (Agent.path a) as [|next rest].
  - cbn in Hpos. injection Hpos as Hpos.
    destruct (Agent.willStand a) eqn:Hws.
    + intros Hws'. cbn in Hws'. congruence.
    + destruct (Hok Hws) as (_ & d' & Hd' & Hcell).
      assert (d' = d) as -> by congruence.
      rewrite Hseated in Hcell. rewrite Hpos, Hcell.
      unfold cell_is. rewrite bool_decide_eq_true_2 by done.
      intros _. cbn. split; [done|]. exists d. split; [done|].
      rewrite <- Hpos. apply mark_get_eq. rewrite Hpos, Hcell. by eexists.
  - intros Hws. cbn in *. destruct (Hok Hws) as (Hst & d' & Hd' & Hcell).
    split; [done|]. by exists d'.
Qed.

Lemma update_agents_sits (cfg : Config) (gates : list Pos)
    (dests : list (option Pos)) (assigned : gset Pos) (agents : list Agent.t) :
  forall g agents' g',
  SimulationEngine.update_agents agents g = (agents', g') ->
  NoDup (destinations agents) ->
  (forall d, d ∈ destinations agents -> d ∈ dests) ->
  Forall (agent_ok assigned g) agents -> grid_ok cfg gates dests g ->
  Forall (sits_ok g) agents -> Forall (sits_ok g') agents'.
Proof.
  induction agents as [|a agents IH];
    intros g agents' g' Hupd Hnodup Hsub Hall Hgrid Hsits.
  - injection Hupd as <- <-. done.
  - cbn [SimulationEngine.update_agents] in Hupd.
    apply NoDup_cons in Hnodup as [Hfresh Hnodup].
    apply Forall_cons in Hall as [Ha Hall].
    apply Forall_cons in Hsits as [Hsa Hsits].
    assert (Hin : Agent.seat a ∈ dests) by (apply Hsub; left).
    assert (Hstep :
      (agent_ok assigned
         (snd (if Agent.moving a then Agent.update a g else (a, g)))
         (fst (if Agent.moving a then Agent.update a g else (a, g))) /\
       grid_ok cfg gates dests
         (snd (if Agent.moving a then Agent.update a g else (a, g))) /\
       forall q, Some q <> Agent.seat a ->
         grid_get (snd (if Agent.moving a then Agent.update a g else (a, g)))
                  (fst q) (snd q) = grid_get g (fst q) (snd q)) /\
      sits_ok (snd (if Agent.moving a then Agent.update a g else (a, g)))
              (fst (if Agent.moving a then Agent.update a g else (a, g)))).
    { destruct (Agent.moving a); [|done].
      split; [by apply (agent_update_ok cfg gates dests)|].
      by apply (agent_update_sits assigned). }
    pose proof (agent_update_dest a g) as Hseat.
    destruct (if Agent.moving a then Agent.update a g else (a, g)) as [a1 g1].
    cbn [fst snd] in Hstep, Hseat.
    destruct Hstep as ((Ha1 & Hg1 & Hframe1) & Hs1).
    destruct (SimulationEngine.update_agents agents g1) as [rest g2] eqn:Hrest.
    injection Hupd as <- <-.
    assert (Hall1 : Forall (agent_ok assigned g1) agents).
    { rewrite Forall_forall. intros b Hb. rewrite Forall_forall in Hall.
      eapply agent_ok_frame; [done | | by apply Hall].
      intros d Hd Hcell. rewrite Hframe1; [done|].
      intros Heq. apply Hfresh. rewrite <- Heq, <- Hd.
      by apply list_elem_of_fmap_2. }
    assert (Hsubrest : forall d, d ∈ destinations agents -> d ∈ dests)
      by (intros d Hd; apply Hsub; by right).
    destruct (update_agents_ok cfg gates dests assigned agents g1 rest g2
                Hrest Hnodup Hsubrest Hall1 Hg1) as (_ & _ & _ & Hframe2).
    apply Forall_cons. split.
    + eapply sits_ok_frame; [|exact Hs1].
      intros d Hd. apply Hframe2. intros Hd'. apply Hfresh.
      by rewrite <- Hseat, Hd.
    + apply (IH g1 rest g2 Hrest Hnodup Hsubrest Hall1 Hg1).
      rewrite Forall_forall. intros b Hb. rewrite Forall_forall in Hsits.
      eapply sits_ok_frame; [|by apply Hsits].
      intros d Hd. apply Hframe1. intros Heq. apply Hfresh.
      rewrite <- Heq, <- Hd. by apply list_elem_of_fmap_2.
Qed.

Section Seated.

Import SimulationEngine.

Variable cfg : Config.
Hypothesis Hflag : FEATURE_ASSIGNED_SEATS cfg = true.
Hypothesis HROWS : 20 <= ROWS cfg.
Hypothesis Hroom : NUM_AGENTS cfg + 2 < 6 * COLS cfg.

(** The state of the engine during a run, for the spawn loop. *)
Local Abbreviation seated_run e :=
  (config e = cfg /\ apart e /\
   exists g, grid e = Some g /\ Forall (sits_ok g) (agents e)).

Lemma seated_spawn_at (o : Oracle) (gate : Pos) (e : t) (occupied : gset Pos)
    (n : nat) (out : Outcome (t * gset Pos)) (n' : nat) :
  valid_oracle o -> seated_run e ->
  spawn_at gate (e, occupied) o n = (out, n') ->
  outcome_sat (fun e => seated_run e) out.
Proof.
  intros Hvalid (Hcfg & Hapart & g & Hgrid & Hsits) H.
  pose proof (spawn_at_config cfg o _ _ _ _ _ _ Hcfg H) as Hcfg'.
  pose proof (apart_spawn_at cfg Hflag HROWS Hroom o _ _ _ _ _ _
                Hvalid Hcfg Hapart H) as Hapart'.
  apply spawn_at_cases in H
    as [-> | [-> | (a & assigned' & Hlt & Hbuilt & H)]];
    [cbn; split; [done|]; split; [done|]; by exists g | done |].
  cbn zeta in H.
  assert (Hg : grid_of e = g) by (unfold grid_of; by rewrite Hgrid).
  rewrite Hg in Hbuilt.
  apply constructor_spec in Hbuilt
    as [(block & s & n1 & (Hfree & Hseat & Hrows) & Htake)
       | (block & n1 & Hstand & ->)].
  - apply take_seat_spec in Htake
      as (Hpos & Hseated & Hstanding & Hws & Hs & _).
    rewrite Hws in H. subst out. cbn in Hcfg', Hapart' |- *.
    split; [done|]. split; [done|]. exists g. split; [done|].
    apply Forall_app. split; [done|]. apply Forall_singleton.
    intros _. split; [done|]. exists s. split; [done|]. by rewrite Hseated.
  - rewrite <- Hg in Hstand.
    destruct (apart_stand_in_back cfg HROWS Hroom _ _ _ _ _ _ _
                Hvalid Hcfg Hapart Hlt Hstand)
      as (dest & g' & Hws & Hs & Hset & _).
    rewrite Hws, Hs, Hset in H. subst out. cbn in Hcfg', Hapart' |- *.
    split; [done|]. split; [done|]. exists g'. split; [done|].
    rewrite Hgrid in Hset. cbn in Hset.
    destruct Hapart' as (g2 & Hg2 & _ & _ & Hall' & _).
    cbn in Hg2, Hall'. injection Hg2 as <-.
    apply Forall_app in Hall' as [_ Hnew].
    apply Forall_singleton in Hnew as (d & Hd & _ & Hkind).
    rewrite Hws in Hkind. assert (d = dest) as -> by congruence.
    apply Forall_app. split.
    + rewrite Forall_forall. intros b Hb Hwsb.
      rewrite Forall_forall in Hsits.
      destruct (Hsits b Hb Hwsb) as (Hst & db & Hdb & Hcell).
      split; [done|]. exists db. split; [done|].
      rewrite (grid_set_get_ne _ _ _ _ _ Hset); [done|].
      destruct Hapart as (g0 & Hg0 & _ & _ & Hall & _).
      rewrite Forall_forall in Hall.
      destruct (Hall b Hb) as (db' & Hdb' & _ & Hkindb).
      rewrite Hwsb in Hkindb. assert (db' = db) as -> by congruence.
      intros Heq. destruct db, dest. cbn in *. injection Heq as -> ->. lia.
    + apply Forall_singleton. intros Hwsa. congruence.
Qed.

Lemma seated_reachable (e : t) :
  reachable cfg e ->
  forall g, grid e = Some g -> agents e <> [] -> Forall (sits_ok g) (agents e).
Proof.
  induction 1 as [|e He IH|e e' o n n' res He IH Ho Hu].
  - done.
  - unfold initialize.
    destruct (GridBuilder.buildGrid (config e)) as [g0|] eqn:Hbuild; cbn; [done|].
    discriminate.
  - pose proof (reachable_config cfg e He) as Hcfg.
    pose proof (apart_reachable cfg Hflag HROWS Hroom e He) as Hinv.
    assert (Hstart : (agents e = [] /\ gates e = []) \/ seated_run e).
    { destruct Hinv as [Hidle | Hapart]; [by left | right].
      split; [done|]. split; [done|].
      destruct Hapart as (g0 & Hg0 & _ & _ & _ & _ & _ & _).
      exists g0. split; [done|].
      destruct (agents e) as [|a l] eqn:Hagents; [done|].
      by apply IH. }
    apply update_cases in Hu
      as [[_ ->] | [(e1 & occ1 & Hloop & ->)
                   | (e1 & occ1 & agents' & g' & Hloop & Hagents & Heq)]].
    + exact IH.
    + destruct Hstart as [[_ Hgates] | Hrun].
      * rewrite Hgates in Hloop. discriminate Hloop.
      * pose proof (spawn_loop_keeps (fun e => seated_run e) o
                      (fun gate e occ n out n' =>
                         seated_spawn_at o gate e occ n out n' Ho)
                      _ _ _ _ _ _ Hrun Hloop) as (_ & _ & g1 & Hg1 & Hs1).
        cbn. intros g Hg _. congruence.
    + destruct Heq as (_ & Hg' & Ha' & _).
      destruct Hstart as [[Hnone Hgates] | Hrun].
      * rewrite Hgates in Hloop. injection Hloop as <- _ _.
        rewrite Hnone in Hagents. injection Hagents as <- _.
        intros g _ Hne. by rewrite Ha' in Hne.
      * pose proof (spawn_loop_keeps (fun e => seated_run e) o
                      (fun gate e occ n out n' =>
                         seated_spawn_at o gate e occ n out n' Ho)
                      _ _ _ _ _ _ Hrun Hloop)
          as (Hcfg1 & (g1 & Hgrid1 & _ & Hgok1 & Hall1 & Hnodup1 & _)
              & g1' & Hgrid1' & Hs1).
        assert (g1' = g1) as -> by congruence.
        assert (Hgo : grid_of e1 = g1) by (unfold grid_of; by rewrite Hgrid1).
        rewrite Hgo in Hagents.
        intros g Hg _. rewrite Hg', Hgrid1 in Hg. cbn in Hg.
        injection Hg as <-. rewrite Ha'.
        exact (update_agents_sits (config e1) (gates e1)
                 (destinations (agents e1)) (assigned e1) (agents e1)
                 g1 agents' g' Hagents Hnodup1 ltac:(done) Hall1 Hgok1 Hs1).
Qed.

End Seated.

(** X22. With [FEATURE_ASSIGNED_SEATS] enabled, at least 20 rows and room
    to stand ([NUM_AGENTS + 2 < 6 * COLS]): an agent that was given a seat
    never ends standing.  Its seat lies in the rows 6 to 13 and holds
    [SEAT] until the agent arrives; the agent then sits on it and the cell
    holds [SEATED_AGENT].  So every standing agent is one that was sent to
    stand. *)
Theorem seats_are_taken (cfg : Config) (e : SimulationEngine.t) (g : Grid)
    (a : Agent.t) :
  FEATURE_ASSIGNED_SEATS cfg = true ->
  20 <= ROWS cfg ->
  NUM_AGENTS cfg + 2 < 6 * COLS cfg ->
  reachable cfg e ->
  SimulationEngine.grid e = Some g ->
  a ∈ SimulationEngine.agents e ->
  Agent.willStand a = false ->
  Agent.standing a = false /\
  exists d, Agent.seat a = Some d /\ 6 <= fst d < 14 /\
    grid_get g (fst d) (snd d)
    = Some (Some (if Agent.seated a then SEATED_AGENT else SEAT)) /\
    (Agent.moving a = false -> Agent.seated a = true /\ Agent.pos a = d).
Proof.
  intros Hflag HROWS Hroom He Hg Ha Hws.
  assert (Hne : SimulationEngine.agents e <> [])
    by (intros Hnil; rewrite Hnil in Ha; by apply elem_of_nil in Ha).
  pose proof (seated_reachable cfg Hflag HROWS Hroom e He g Hg Hne) as Hsits.
  rewrite Forall_forall in Hsits.
  destruct (Hsits a Ha Hws) as (Hst & d & Hd & Hcell).
  split; [exact Hst|]. exists d. split; [exact Hd|].
  destruct (apart_reachable cfg Hflag HROWS Hroom e He)
    as [[Hnone _] | (g0 & _ & _ & _ & Hall & _)]; [done|].
  rewrite Forall_forall in Hall.
  destruct (Hall a Ha) as (d' & Hd' & Hpos & Hkind).
  assert (d' = d) as -> by congruence.
  rewrite Hws in Hkind. destruct Hkind as [Hrows _].
  split; [exact Hrows|]. split; [exact Hcell|].
  intros Hmoving. unfold Agent.moving in Hmoving. rewrite Hst in Hmoving.
  unfold terminal in Hpos. rewrite Hst in Hpos.
  destruct (Agent.seated a); [done|]. discriminate.
Qed.

Lemma seats_are_taken_witness :
  exists e g a,
    reachable default_config e /\ SimulationEngine.grid e = Some g /\
    SimulationEngine.agents e !! 0%nat = Some a /\
    Agent.standing a = false.
Proof.
  assert (Hret : run_returns default_config 0 22 = true)
    by (vm_compute; reflexivity).
  assert (H : (e ← sample_run default_config 0 22;
               Some (report e 0,
                     match SimulationEngine.grid e with
                     | Some _ => true | None => false end))
              = Some (Some ((10, 2), Some (10, 2), true, false, false), true))
    by (vm_compute; reflexivity).
  destruct (run_returns_Some _ _ _ Hret) as [e Hrun]. clear Hret.
  rewrite Hrun in H. cbn [mbind option_bind] in H.
  injection H as H0 Hgrid.
  pose proof (sample_run_reachable _ _ _ _ zero_oracle_valid Hrun) as He.
  clear Hrun.
  destruct (SimulationEngine.grid e) as [g|] eqn:Hg; [|discriminate].
  apply report_inv in H0 as (a & Ha & _ & _ & _ & _ & Hws).
  exists e, g, a. split; [exact He|]. split; [exact Hg|].
  split; [exact Ha|].
  destruct (seats_are_taken default_config e g a) as [H _];
    try assumption; try reflexivity; try (cbn; lia).
  by apply list_elem_of_lookup_2 in Ha.
Defined.


(** ** When a block still has a seat *)

Section SeatSearch.

Variables (grid : Grid) (assigned : gset Pos) (config : Config).

Lemma without_row_nonempty (excluded : option Z) (rows : list Z) :
  rows <> [] -> SeatSelectionEngine.without_row excluded rows <> [].
Proof.
  intros Hne. unfold SeatSelectionEngine.without_row.
  by destruct (List.filter _ rows).
Qed.

Lemma front_aversion_nonempty (rows rows' : list Z) (o : Oracle) (n n' : nat) :
  rows <> [] ->
  SeatSelectionEngine.front_aversion config rows o n = (rows', n') ->
  rows' <> [].
Proof.
  intros Hne. unfold SeatSelectionEngine.front_aversion. intros H.
  apply bind_inv in H as (candidateRows & n1 & Hcand & H).
  assert (Hcne : candidateRows <> []).
  { destruct (0 <? _).
    - destruct (List.filter _ rows) as [|r0 filtered] eqn:Hf.
      + by apply ret_inv in Hcand as [<- _].
      + apply bind_inv in Hcand as (b & n2 & Hb & Hcand).
        by apply ret_inv in Hcand as [<- _].
    - by apply ret_inv in Hcand as [<- _]. }
  destruct candidateRows as [|r0 cand] eqn:Hcr; [done|].
  rewrite <- Hcr in *. clear Hcr.
  apply bind_inv in H as (avoidFront & n2 & Hf & H).
  apply bind_inv in H as (avoidSecond & n3 & Hs & H).
  match type of H with
  | (if ?c then _ else _) _ _ = _ => destruct c
  end.
  - apply bind_inv in H as (b & n4 & Hb & H). apply ret_inv in H as [<- _].
    destruct avoidSecond; [apply without_row_nonempty|];
      (destruct avoidFront; [by apply without_row_nonempty | done]).
  - by apply ret_inv in H as [<- _].
Qed.

Lemma choose_row_Some (rows : list Z) (o : Oracle) (n : nat) :
  valid_oracle o -> rows <> [] ->
  exists r, fst (SeatSelectionEngine.choose_row config rows o n) = Some r.
Proof.
  intros Hvalid Hne. unfold SeatSelectionEngine.choose_row.
  destruct (Qltb 0 (BACK_PREF config)).
  - destruct (weightedChoice_nonempty rows
                (SeatSelectionEngine.row_weight config <$> rows) o n Hne)
      as (r & Hr & _).
    exists r. unfold bind.
    destruct (Utils.weightedChoice rows _ o n) as [chosen n1].
    cbn in Hr. subst chosen.
    by destruct (and_random_below _ _ o n1).
  - unfold bind. rewrite random_index_spec. cbn.
    destruct (Hvalid n) as [Hu0 Hu1].
    assert (Hlen : 0 < Z.of_nat (length rows))
      by (destruct rows; [done | cbn; lia]).
    destruct (at_index_Some rows _ (Qfloor_index _ _ Hu0 Hu1 Hlen)) as [r Hr].
    by exists r.
Qed.

Lemma hasSeats_fold (r : Z) (cols : list Z) : forall found,
  foldl (fun found c =>
           found ← found;
           if found : bool then Some true
           else cell ← grid_get grid r c;
                Some (SeatSelectionEngine.seat_is_free assigned r c cell))
        (Some found) cols = Some true ->
  found = true \/
  exists c, c ∈ cols /\ grid_get grid r c = Some (Some SEAT) /\
            (r, c) ∉ assigned.
Proof.
  induction cols as [|c cols IH]; intros found; cbn [foldl].
  - intros [= ->]. by left.
  - cbn [mbind option_bind]. destruct found; [by left|].
    destruct (grid_get grid r c) as [cell|] eqn:Hcell; cbn [mbind option_bind];
      [|by rewrite foldl_option_None].
    intros H. right. destruct (IH _ H) as [Hfree | (c' & Hc' & Hrest)].
    + apply seat_is_free_spec in Hfree as [-> Hfree].
      exists c. split; [by left | done].
    + exists c'. split; [by right | done].
Qed.

Lemma availableRows_fold_seats (c0 c1 rowThr : Z) (rs : list Z) :
  forall acc rows,
  foldl (fun rows r =>
           rows ← rows;
           occupancy ← SeatSelectionEngine.rowOccupancy grid r c0 c1;
           if rowThr <=? occupancy then Some rows
           else found ← SeatSelectionEngine.hasSeats grid assigned r c0 c1;
                Some (if found : bool then rows ++ [r] else rows))
        (Some acc) rs = Some rows ->
  forall r, r ∈ rows ->
    r ∈ acc \/ SeatSelectionEngine.hasSeats grid assigned r c0 c1 = Some true.
Proof.
  induction rs as [|r0 rs IH]; intros acc rows; cbn [foldl].
  - intros [= <-] r Hr. by left.
  - cbn [mbind option_bind].
    destruct (SeatSelectionEngine.rowOccupancy grid r0 c0 c1) as [occ|];
      cbn [mbind option_bind]; [|by rewrite foldl_option_None].
    destruct (rowThr <=? occ).
    + intros H r Hr. exact (IH _ _ H r Hr).
    + destruct (SeatSelectionEngine.hasSeats grid assigned r0 c0 c1)
        as [found|] eqn:Hfound;
        cbn [mbind option_bind]; [|by rewrite foldl_option_None].
      intros H r Hr. destruct (IH _ _ H r Hr) as [Hin | Hin]; [|by right].
      destruct found; [|by left].
      apply elem_of_app in Hin as [Hin | Hin]; [by left|].
      apply list_elem_of_singleton in Hin as ->. by right.
Qed.

Lemma grid_get_is_Some (r c : Z) :
  is_Some (grid_row grid r) -> is_Some (grid_get grid r c).
Proof. intros [row Hrow]. unfold grid_get. rewrite Hrow. by eexists. Qed.

Lemma foldl_option_total {A B} (F : option A -> B -> option A) (l : list B) :
  (forall a b, is_Some (F (Some a) b)) ->
  forall a, is_Some (foldl F (Some a) l).
Proof.
  intros HF. induction l as [|b l IH]; intros a; [by eexists|].
  cbn [foldl]. destruct (HF a b) as [a' ->]. apply IH.
Qed.

Lemma countAdjacentSeated_is_Some (seat : Pos) :
  is_Some (grid_row grid 0) ->
  is_Some (SeatSelectionEngine.countAdjacentSeated grid seat).
Proof.
  intros [row0 Hrow0]. unfold SeatSelectionEngine.countAdjacentSeated.
  apply foldl_option_total. intros count d.
  cbn [mbind option_bind]. cbv zeta. rewrite Hrow0. cbn [mbind option_bind].
  destruct (Utils.isValidPosition _ _ _ _) eqn:Hvalid; [|by eexists].
  unfold Utils.isValidPosition in Hvalid.
  apply andb_true_iff in Hvalid as [Hvalid _].
  apply andb_true_iff in Hvalid as [Hvalid _].
  apply andb_true_iff in Hvalid as [H1%Z.leb_le H2%Z.ltb_lt].
  destruct (grid_get_is_Some (fst seat + fst d) (snd seat + snd d))
    as [cell Hcell]; [by apply grid_row_is_Some|].
  rewrite Hcell. cbn [mbind option_bind]. by eexists.
Qed.

Lemma collect_seats_total (r c0 c1 : Z) (cols : list Z) :
  is_Some (grid_row grid r) -> is_Some (grid_row grid 0) ->
  forall validSeats o n,
  exists seats n',
    SeatSelectionEngine.collect_seats grid assigned config r c0 c1 cols
      validSeats o n = (Some seats, n') /\
    (forall p, p ∈ validSeats.*1 -> p ∈ seats.*1) /\
    forall c, c ∈ cols -> grid_get grid r c = Some (Some SEAT) ->
              ((r, c) ∉ assigned) -> (r, c) ∈ seats.*1.
Proof.
  intros Hrow Hrow0.
  induction cols as [|c cols IH]; intros validSeats o n;
    cbn [SeatSelectionEngine.collect_seats].
  - exists validSeats, n. split; [done|]. split; [done|].
    by intros c ?%elem_of_nil.
  - destruct (grid_get_is_Some r c Hrow) as [cell Hcell]. rewrite Hcell.
    destruct (SeatSelectionEngine.seat_is_free assigned r c cell) eqn:Hfree.
    + destruct (countAdjacentSeated_is_Some (r, c) Hrow0) as [adj ->].
      unfold bind at 1. cbn [random_below bind random ret].
      destruct (IH (validSeats ++
                      [((r, c),
                        Qmax_js (SeatSelectionEngine.seat_weight config c c0 c1 adj)
                                (1 # 100))]) o (S n))
        as (seats & n' & Hcollect & Hkeep & Hall).
      exists seats, n'. split; [exact Hcollect|]. split.
      * intros p Hp. apply Hkeep. rewrite fmap_app. apply elem_of_app. by left.
      * intros c' [-> | Hc']%elem_of_cons Hseat Hnot; [|by apply Hall].
        apply Hkeep. rewrite fmap_app. apply elem_of_app. right. cbn. left.
    + destruct (IH validSeats o n) as (seats & n' & Hcollect & Hkeep & Hall).
      exists seats, n'. split; [exact Hcollect|]. split; [exact Hkeep|].
      intros c' [-> | Hc']%elem_of_cons Hseat Hnot; [|by apply Hall].
      rewrite Hseat in Hcell. injection Hcell as <-.
      assert (SeatSelectionEngine.seat_is_free assigned r c (Some SEAT) = true)
        by (by apply seat_is_free_spec).
      congruence.
Qed.

End SeatSearch.

(** X23. [pickSeatInBlock] finds a seat whenever there is one to find: if
    the scan of step 1 ends without a fault and with at least one
    available row (a seat row of the block below the occupancy threshold
    with a free, unassigned seat), the function returns a seat, for every
    preference setting and every sequence of draws. *)
Theorem pickSeatInBlock_finds (grid : Grid) (b : Z) (assigned : gset Pos)
    (seatBlocks : list (Z * Z)) (config : Config) (rowThr c0 c1 : Z)
    (rows : list Z) (o : Oracle) (n : nat) :
  valid_oracle o ->
  at_index seatBlocks b = Some (c0, c1) ->
  SeatSelectionEngine.availableRows grid assigned c0 c1 rowThr = Some rows ->
  rows <> [] ->
  exists s,
    fst (SeatSelectionEngine.pickSeatInBlock grid (Some b) assigned seatBlocks
           config rowThr o n) = Some s.
Proof.
  intros Hvalid Hblk Hrows Hne.
  unfold SeatSelectionEngine.pickSeatInBlock. cbn [mbind option_bind].
  rewrite Hblk, Hrows. destruct rows as [|r0 rows'] eqn:Hrs; [done|].
  rewrite <- Hrs in *. clear Hrs r0 rows'.
  unfold bind at 1.
  destruct ((if Qltb 0 (BACK_PREF config)
             then SeatSelectionEngine.front_aversion config rows
             else ret rows) o n) as [cand n1] eqn:Hcand.
  assert (Hcand_ok : cand <> [] /\ forall r, r ∈ cand -> r ∈ rows).
  { destruct (Qltb 0 (BACK_PREF config)).
    - split; [by eapply front_aversion_nonempty|].
      intros r. by eapply front_aversion_sub.
    - apply ret_inv in Hcand as [<- _]. done. }
  destruct Hcand_ok as [Hcne Hsub].
  destruct (choose_row_Some config cand o n1 Hvalid Hcne) as [r Hr].
  unfold bind at 1.
  destruct (SeatSelectionEngine.choose_row config cand o n1)
    as [chosen n2] eqn:Hchoose.
  cbn in Hr. subst chosen.
  apply choose_row_elem in Hchoose. apply Hsub in Hchoose.
  destruct (availableRows_fold_seats grid assigned _ _ _ _ _ _ Hrows r Hchoose)
    as [Hnil | Hseats]; [by apply elem_of_nil in Hnil|].
  apply hasSeats_fold in Hseats as [? | (c & Hc & Hseat & Hfree)]; [done|].
  pose proof (availableRows_range grid assigned _ _ _ _ _ Hrows Hchoose) as Hrange.
  assert (Hrow : is_Some (grid_row grid r)).
  { unfold grid_get in Hseat. destruct (grid_row grid r); [by eexists | done]. }
  assert (Hrow0 : is_Some (grid_row grid 0)).
  { apply grid_row_is_Some_iff. apply grid_row_is_Some_iff in Hrow. lia. }
  destruct (collect_seats_total grid assigned config r c0 c1
              (SeatSelectionEngine.columns c0 c1) Hrow Hrow0 [] o n2)
    as (seats & n3 & Hcollect & _ & Hall).
  unfold bind at 1. rewrite Hcollect.
  specialize (Hall c Hc Hseat Hfree).
  destruct seats as [|v seats']; [by apply elem_of_nil in Hall|].
  cbv iota.
  destruct (weightedChoice_nonempty (fst <$> v :: seats') (snd <$> v :: seats')
              o n3 ltac:(intros H%fmap_nil_inv; discriminate)) as (s & Hs & _).
  exists s. unfold bind.
  destruct (Utils.weightedChoice (fst <$> v :: seats') (snd <$> v :: seats')
              o n3) as [chosenSeat n4].
  cbn in Hs. subst chosenSeat.
  by destruct (and_random_below (Qltb 3 (BACK_PREF config)) (1 # 10) o n4).
Qed.

Lemma pickSeatInBlock_finds_witness :
  exists s,
    fst (SeatSelectionEngine.pickSeatInBlock
           (SimulationEngine.grid_of (initialized default_config)) (Some 0) ∅
           (SimulationEngine.seatBlocks (initialized default_config))
           default_config 5 (constant_oracle 0) 0%nat) = Some s.
Proof.
  apply (pickSeatInBlock_finds _ 0 ∅ _ default_config 5 2 15
           [6; 7; 8; 9; 10; 11; 12; 13]).
  - exact zero_oracle_valid.
  - reflexivity.
  - vm_compute. reflexivity.
  - discriminate.
Defined.
